(** * viewer: the time-series pipeline of [src/App.jsx]

    A shallow embedding of the pure functions of [src/App.jsx] and
    [src/components/utils/DataProcessor.jsx]: the two smoothers, the
    zero-baseliner, the statistics and pattern functions, the timestamp
    normaliser and the trace builder ([chartData]).

    JavaScript numbers are IEEE-754 binary64 values.  The arithmetic the
    code uses is collected in the class [JsNumber]; the instance [F64]
    gives it the binary64 meaning (through [SpecFloat] of the Standard
    Library), the instance [Exact] the meaning over unbounded rationals,
    where no operation rounds. *)

From Stdlib Require Import ZArith QArith Qround Lia Lqa Bool Ascii String.
From Stdlib Require Import Floats.SpecFloat.
From Stdlib Require Import Sorted Permutation.
From Stdlib Require DecimalString Qcanon.
From stdpp Require Import base list strings gmap.

Local Open Scope Z_scope.

(** ** JavaScript numbers *)

Class JsNumber (num : Type) := {
  (** the value [NaN] *)
  nan : num;
  (** [Infinity] ([false]) and [-Infinity] ([true]) *)
  infinity : bool -> num;
  (** the Number nearest to the decimal literal [(-1)^s * m * 10^e] *)
  of_decimal : bool -> N -> Z -> num;
  isNaN : num -> bool;
  add : num -> num -> num;
  sub : num -> num -> num;
  mul : num -> num -> num;
  div : num -> num -> num;
  (** [a < b] and [a <= b] of JavaScript: false when an operand is NaN *)
  ltb : num -> num -> bool;
  leb : num -> num -> bool;
  (** truncation of a finite number towards zero; [None] on NaN and the
      infinities *)
  truncZ : num -> option Z
}.

Declare Scope js_scope.
Delimit Scope js_scope with js.
Infix "+" := add : js_scope.
Infix "-" := sub : js_scope.
Infix "*" := mul : js_scope.
Infix "/" := div : js_scope.
Infix "<?" := ltb : js_scope.
Infix "<=?" := leb : js_scope.

Section NumberBasics.
Context {num : Type} `{JsNumber num}.

(** The Number of an integer literal. *)
Definition of_Z (z : Z) : num :=
  of_decimal (z <? 0) (Z.abs_N z) 0.

Definition of_nat (n : nat) : num := of_Z (Z.of_nat n).

Definition zero : num := of_Z 0.

(** [a > b] and [a >= b]. *)
Definition gtb (a b : num) : bool := ltb b a.
Definition geb (a b : num) : bool := leb b a.
End NumberBasics.

Infix ">?" := gtb : js_scope.
Infix ">=?" := geb : js_scope.

(** *** The binary64 instance *)

Module F64.
Definition prec : Z := 53.
Definition emax : Z := 1024.

Definition t : Type := spec_float.

(** Correctly rounded value of [(-1)^s * m * 10^e]: an integer is
    rounded by [binary_normalize]; a proper fraction is the correctly
    rounded quotient of two integers. *)
Definition round_decimal (s : bool) (m : N) (e : Z) : t :=
  match m with
  | N0 => S754_zero s
  | Npos p =>
      if 0 <=? e
      then binary_round prec emax s (p * Z.to_pos (10 ^ e))%positive 0
      else
        let '(q, e', l) :=
          SFdiv_core_binary prec emax (Zpos p) 0 (10 ^ (- e)) 0 in
        binary_round_aux prec emax s q e' l
  end.

Definition is_nan (x : t) : bool :=
  match x with S754_nan => true | _ => false end.

Definition trunc (x : t) : option Z :=
  match x with
  | S754_zero _ => Some 0
  | S754_finite s m e =>
      let a := match e with
               | Zneg p => Z.shiftr (Zpos m) (Zpos p)
               | _ => Z.shiftl (Zpos m) e
               end in
      Some (if s then - a else a)
  | _ => None
  end.

#[global] Instance number : JsNumber t := {|
  nan := S754_nan;
  infinity := S754_infinity;
  of_decimal := round_decimal;
  isNaN := is_nan;
  add := SFadd prec emax;
  sub := SFsub prec emax;
  mul := SFmul prec emax;
  div := SFdiv prec emax;
  ltb := SFltb;
  leb := SFleb;
  truncZ := trunc
|}.

(** A Number is finite when it is neither NaN nor an infinity. *)
Definition is_finite (x : t) : bool :=
  match x with
  | S754_zero _ | S754_finite _ _ _ => true
  | _ => false
  end.
End F64.

(** *** The exact instance

    Numbers of unbounded precision and range: a rational, an infinity or
    NaN.  Every operation is the binary64 one without its rounding step;
    results are kept in lowest terms, so that equal numbers are equal
    terms.  There is one zero. *)

Module Exact.
Inductive t : Type :=
| XNaN
| XInf (s : bool)
| XRat (q : Q).

Definition rat (q : Q) : t := XRat (Qred q).

Definition is_neg (q : Q) : bool := (Qnum q <? 0)%Z.
Definition is_zero (q : Q) : bool := (Qnum q =? 0)%Z.

Definition round_decimal (s : bool) (m : N) (e : Z) : t :=
  let v := (inject_Z (Z.of_N m) * Qpower (10 # 1) e)%Q in
  rat (if s then Qopp v else v).

Definition is_nan (x : t) : bool :=
  match x with XNaN => true | _ => false end.

Definition opp (x : t) : t :=
  match x with
  | XNaN => XNaN
  | XInf s => XInf (negb s)
  | XRat q => rat (Qopp q)
  end.

Definition plus (x y : t) : t :=
  match x, y with
  | XNaN, _ | _, XNaN => XNaN
  | XInf sx, XInf sy => if Bool.eqb sx sy then x else XNaN
  | XInf _, _ => x
  | _, XInf _ => y
  | XRat p, XRat q => rat (p + q)
  end.

Definition minus (x y : t) : t :=
  match x, y with
  | XNaN, _ | _, XNaN => XNaN
  | XInf sx, XInf sy => if Bool.eqb sx sy then XNaN else x
  | XInf _, _ => x
  | _, XInf sy => XInf (negb sy)
  | XRat p, XRat q => rat (p - q)
  end.

Definition times (x y : t) : t :=
  match x, y with
  | XNaN, _ | _, XNaN => XNaN
  | XInf sx, XInf sy => XInf (xorb sx sy)
  | XInf s, XRat q | XRat q, XInf s =>
      if is_zero q then XNaN else XInf (xorb s (is_neg q))
  | XRat p, XRat q => rat (p * q)
  end.

Definition quot (x y : t) : t :=
  match x, y with
  | XNaN, _ | _, XNaN => XNaN
  | XInf _, XInf _ => XNaN
  | XInf s, XRat q => XInf (xorb s (is_neg q))
  | XRat _, XInf _ => rat 0
  | XRat p, XRat q =>
      if is_zero q
      then (if is_zero p then XNaN else XInf (is_neg p))
      else rat (p / q)
  end.

Definition compare (x y : t) : option comparison :=
  match x, y with
  | XNaN, _ | _, XNaN => None
  | XInf sx, XInf sy =>
      Some (match sx, sy with
            | true, false => Lt
            | false, true => Gt
            | _, _ => Eq
            end)
  | XInf s, XRat _ => Some (if s then Lt else Gt)
  | XRat _, XInf s => Some (if s then Gt else Lt)
  | XRat p, XRat q => Some (Qcompare p q)
  end.

Definition lt (x y : t) : bool :=
  match compare x y with Some Lt => true | _ => false end.

Definition le (x y : t) : bool :=
  match compare x y with Some (Lt | Eq) => true | _ => false end.

Definition trunc (x : t) : option Z :=
  match x with
  | XRat q => Some (Z.quot (Qnum q) (Zpos (Qden q)))
  | _ => None
  end.

#[global] Instance number : JsNumber t := {|
  nan := XNaN;
  infinity := XInf;
  of_decimal := round_decimal;
  isNaN := is_nan;
  add := plus;
  sub := minus;
  mul := times;
  div := quot;
  ltb := lt;
  leb := le;
  truncZ := trunc
|}.

(** The order of the rationals, lifted: it holds between rationals only. *)
Definition xle (x y : t) : Prop :=
  match x, y with
  | XRat p, XRat q => (p <= q)%Q
  | _, _ => False
  end.

Definition xlt (x y : t) : Prop :=
  match x, y with
  | XRat p, XRat q => (p < q)%Q
  | _, _ => False
  end.
End Exact.

(** ** JavaScript values

    The values the pipeline handles: CSV cells are strings, a missing
    column reads as [undefined], and the arrays hold Numbers.  Strings are
    sequences of ASCII characters. *)

Inductive jsval (num : Type) : Type :=
| JUndefined
| JNull
| JNum (n : num)
| JStr (s : string).

Arguments JUndefined {num}.
Arguments JNull {num}.
Arguments JNum {num} n.
Arguments JStr {num} s.

(** *** Reading a Number from a string *)

Definition digit_of (c : ascii) : option N :=
  let n := N_of_ascii c in
  if ((48 <=? n) && (n <=? 57))%N then Some (n - 48)%N else None.

(** [StrWhiteSpaceChar], ASCII part: TAB, LF, VT, FF, CR and space. *)
Definition is_space (c : ascii) : bool :=
  let n := N_of_ascii c in
  (((9 <=? n) && (n <=? 13)) || (n =? 32))%N.

Fixpoint skip_spaces (l : list ascii) : list ascii :=
  match l with
  | c :: l' => if is_space c then skip_spaces l' else l
  | [] => []
  end.

(** [scan_digits acc cnt l] reads the longest run of decimal digits at the
    head of [l]: the digits appended to [acc], their number added to
    [cnt], and the rest. *)
Fixpoint scan_digits (acc : N) (cnt : nat) (l : list ascii)
  : N * nat * list ascii :=
  match l with
  | c :: l' =>
      match digit_of c with
      | Some d => scan_digits (10 * acc + d)%N (S cnt) l'
      | None => (acc, cnt, l)
      end
  | [] => (acc, cnt, [])
  end.

(** [ExponentPart]: [e] or [E], an optional sign, at least one digit.
    Without one the input is left as it is and the exponent is 0. *)
Definition scan_exponent (l : list ascii) : Z * list ascii :=
  match l with
  | c :: l1 =>
      if (N_of_ascii c =? 101)%N || (N_of_ascii c =? 69)%N then
        let '(neg, l2) :=
          match l1 with
          | s :: l2 =>
              if (N_of_ascii s =? 45)%N then (true, l2)
              else if (N_of_ascii s =? 43)%N then (false, l2)
              else (false, l1)
          | [] => (false, l1)
          end in
        let '(v, n, l3) := scan_digits 0 0 l2 in
        match n with
        | O => (0, l)
        | S _ => ((if neg then - Z.of_N v else Z.of_N v), l3)
        end
      else (0, l)
  | [] => (0, [])
  end.

(** A scanned [StrUnsignedDecimalLiteral]: [Infinity], or the digits [m]
    and the power of ten [e]. *)
Inductive literal : Type :=
| LitInfinity
| LitDecimal (m : N) (e : Z).

Fixpoint strip_prefix (p l : list ascii) : option (list ascii) :=
  match p, l with
  | [], _ => Some l
  | a :: p', b :: l' => if Ascii.eqb a b then strip_prefix p' l' else None
  | _ :: _, [] => None
  end.

(** The longest [StrUnsignedDecimalLiteral] at the head of [l], with the
    rest of [l]; [None] when [l] starts with none. *)
Definition scan_unsigned (l : list ascii) : option (literal * list ascii) :=
  match strip_prefix (list_ascii_of_string "Infinity") l with
  | Some r => Some (LitInfinity, r)
  | None =>
      let '(ip, ni, r1) := scan_digits 0 0 l in
      match r1 with
      | c :: r2 =>
          if (N_of_ascii c =? 46)%N then
            let '(m, nf, r3) := scan_digits ip 0 r2 in
            match ni, nf with
            | O, O => None
            | _, _ =>
                let '(x, r4) := scan_exponent r3 in
                Some (LitDecimal m (x - Z.of_nat nf), r4)
            end
          else
            match ni with
            | O => None
            | S _ =>
                let '(x, r4) := scan_exponent r1 in
                Some (LitDecimal ip x, r4)
            end
      | [] =>
          match ni with
          | O => None
          | S _ => Some (LitDecimal ip 0, [])
          end
      end
  end.

(** An optional sign in front of a literal. *)
Definition scan_sign (l : list ascii) : bool * list ascii :=
  match l with
  | c :: l' =>
      if (N_of_ascii c =? 45)%N then (true, l')
      else if (N_of_ascii c =? 43)%N then (false, l')
      else (false, l)
  | [] => (false, [])
  end.

(** Digits of a [NonDecimalIntegerLiteral] in base 2, 8 or 16. *)
Definition digit_in (base : N) (c : ascii) : option N :=
  let n := N_of_ascii c in
  let d :=
    if ((48 <=? n) && (n <=? 57))%N then Some (n - 48)%N
    else if ((97 <=? n) && (n <=? 102))%N then Some (n - 87)%N
    else if ((65 <=? n) && (n <=? 70))%N then Some (n - 55)%N
    else None in
  match d with
  | Some v => if (v <? base)%N then Some v else None
  | None => None
  end.

Fixpoint scan_radix (base acc : N) (cnt : nat) (l : list ascii)
  : N * nat * list ascii :=
  match l with
  | c :: l' =>
      match digit_in base c with
      | Some d => scan_radix base (base * acc + d)%N (S cnt) l'
      | None => (acc, cnt, l)
      end
  | [] => (acc, cnt, [])
  end.

Definition radix_of (c : ascii) : option N :=
  let n := N_of_ascii c in
  if ((n =? 120) || (n =? 88))%N then Some 16%N
  else if ((n =? 111) || (n =? 79))%N then Some 8%N
  else if ((n =? 98) || (n =? 66))%N then Some 2%N
  else None.

Section Coercions.
Context {num : Type} `{JsNumber num}.

Definition literal_value (neg : bool) (v : literal) : num :=
  match v with
  | LitInfinity => infinity neg
  | LitDecimal m e => of_decimal neg m e
  end.

(** [parseFloat] on a string: leading white space is skipped, the longest
    prefix that is a decimal literal is read, anything after it ignored. *)
Definition parseFloat_string (s : string) : num :=
  let '(neg, l) := scan_sign (skip_spaces (list_ascii_of_string s)) in
  match scan_unsigned l with
  | Some (v, _) => literal_value neg v
  | None => nan
  end.

(** [parseFloat(v)] reads [ToString(v)].  ["undefined"] and ["null"] start
    with no literal.  The string of a Number reads back as that Number,
    the string of [-0] being ["0"]. *)
Definition parseFloat (v : jsval num) : num :=
  match v with
  | JStr s => parseFloat_string s
  | JNum n => if ((n <=? zero) && (zero <=? n))%js then zero else n
  | JUndefined | JNull => nan
  end.

(** [StringToNumber]: the whole string, white space trimmed at both ends,
    must be a numeric literal; the empty string is 0. *)
Definition Number_string (s : string) : num :=
  match skip_spaces (list_ascii_of_string s) with
  | [] => zero
  | c :: l' =>
      let l := c :: l' in
      let radix :=
        match l' with
        | r :: _ => if (N_of_ascii c =? 48)%N then radix_of r else None
        | [] => None
        end in
      match radix with
      | Some b =>
          let '(v, n, rest) := scan_radix b 0 0 (tl l') in
          match n, skip_spaces rest with
          | S _, [] => of_decimal false v 0
          | _, _ => nan
          end
      | None =>
          let '(neg, l1) := scan_sign l in
          match scan_unsigned l1 with
          | Some (v, rest) =>
              match skip_spaces rest with
              | [] => literal_value neg v
              | _ :: _ => nan
              end
          | None => nan
          end
      end
  end.

(** [Number(v)], that is [ToNumber]. *)
Definition Number (v : jsval num) : num :=
  match v with
  | JUndefined => nan
  | JNull => zero
  | JNum n => n
  | JStr s => Number_string s
  end.

(** [ToBoolean]: what [!v] and [if (v)] test. *)
Definition truthy (v : jsval num) : bool :=
  match v with
  | JUndefined | JNull => false
  | JNum n => negb (isNaN n || ((n <=? zero) && (zero <=? n))%js)
  | JStr s => negb (String.eqb s "")
  end.
End Coercions.

(** ** [Math] and [Number.prototype.toFixed] *)

Class JsMath (num : Type) := {
  (** [Math.sqrt] *)
  sqrt : num -> num;
  (** [Math.pow(x, 2)] *)
  square : num -> num;
  (** one step of [Math.max] and of [Math.min]: the running result, then
      the next argument *)
  max_step : num -> num -> num;
  min_step : num -> num -> num;
  (** [x.toFixed(digits)] *)
  toFixed : num -> nat -> string
}.

Definition string_of_N (n : N) : string :=
  DecimalString.NilZero.string_of_uint (N.to_uint n).

Fixpoint zeros (n : nat) : string :=
  match n with
  | O => EmptyString
  | S n' => String "0" (zeros n')
  end.

(** The decimal digits of [n] with a point before the last [f] of them,
    zeros added in front where [n] has too few digits. *)
Definition fixed_digits (n : N) (f : nat) : string :=
  let m := string_of_N n in
  let k := String.length m in
  let m := if (k <=? f)%nat then (zeros (S f - k) ++ m)%string else m in
  let k := String.length m in
  match f with
  | O => m
  | S _ =>
      (String.substring 0 (k - f) m ++ "."
       ++ String.substring (k - f) f m)%string
  end.

Fixpoint strip_zeros (fuel : nat) (n : N) : N :=
  match fuel with
  | O => n
  | S fuel' =>
      if ((0 <? n) && (n mod 10 =? 0))%N then strip_zeros fuel' (n / 10)%N
      else n
  end.

Module F64Math.
Import F64.

Definition pick_max (highest x : t) : t :=
  match highest, x with
  | S754_nan, _ | _, S754_nan => S754_nan
  | S754_zero true, S754_zero false => x
  | _, _ => if SFltb highest x then x else highest
  end.

Definition pick_min (lowest x : t) : t :=
  match lowest, x with
  | S754_nan, _ | _, S754_nan => S754_nan
  | S754_zero false, S754_zero true => x
  | _, _ => if SFltb x lowest then x else lowest
  end.

(** [round_half_up m e f]: the integer nearest to [m * 2^e * 10^f], the
    larger one of two. *)
Definition round_half_up (m : positive) (e : Z) (f : nat) : N :=
  let scaled := (Zpos m * 10 ^ Z.of_nat f)%Z in
  Z.to_N (match e with
          | Zneg p => (2 * scaled + 2 ^ Zpos p) / 2 ^ (Zpos p + 1)
          | _ => scaled * 2 ^ e
          end).

(** [Number::toString] of an integer [v >= 10^21] that is the value of the
    Number [x]: the fewest digits [k] such that a [k]-digit decimal rounds
    to [x], the candidate nearest to [v] of the two around it (the even one
    when they are as near), in exponent form. *)
Fixpoint shortest_digits (fuel : nat) (k : nat) (x : t) (v : N) (n : nat)
  : N :=
  match fuel with
  | O => v
  | S fuel' =>
      let u := (10 ^ N.of_nat (n - k))%N in
      let lo := (v / u)%N in
      let hi := (lo + 1)%N in
      let ok c :=
        match x, round_decimal false (c * u) 0 with
        | S754_finite _ m1 e1, S754_finite _ m2 e2 =>
            (m1 =? m2)%positive && (e1 =? e2)%Z
        | _, _ => false
        end in
      let dlo := (v - lo * u)%N in
      let dhi := (hi * u - v)%N in
      match ok lo, ok hi with
      | true, true =>
          if (dlo <? dhi)%N then (lo * u)%N
          else if (dhi <? dlo)%N then (hi * u)%N
          else if N.even lo then (lo * u)%N else (hi * u)%N
      | true, false => (lo * u)%N
      | false, true => (hi * u)%N
      | false, false => shortest_digits fuel' (S k) x v n
      end
  end.

Definition toString_large (x : t) (v : N) : string :=
  let n := String.length (string_of_N v) in
  let r := shortest_digits 17 1 x v n in
  let expo := (String.length (string_of_N r) - 1)%nat in
  let ds := string_of_N (strip_zeros expo r) in
  let frac := String.substring 1 (String.length ds - 1) ds in
  (String.substring 0 1 ds
   ++ (if String.eqb frac "" then "" else "." ++ frac)
   ++ "e+" ++ string_of_N (N.of_nat expo))%string.

Definition to_fixed (x : t) (f : nat) : string :=
  match x with
  | S754_nan => "NaN"
  | S754_infinity s => if s then "-Infinity" else "Infinity"
  | S754_zero _ => fixed_digits 0 f
  | S754_finite s m e =>
      let sign := if s then "-"%string else ""%string in
      let v := match e with
               | Zneg _ => 0%N
               | _ => Z.to_N (Zpos m * 2 ^ e)
               end in
      if (10 ^ 21 <=? v)%N
      then (sign ++ toString_large (S754_finite false m e) v)%string
      else (sign ++ fixed_digits (round_half_up m e f) f)%string
  end.

(** [Math.pow] is implementation-approximated; [Math.pow(x, 2)] is taken
    as the correctly rounded product [x * x]. *)
#[global] Instance math : JsMath t := {|
  sqrt := SFsqrt prec emax;
  square := fun x => SFmul prec emax x x;
  max_step := pick_max;
  min_step := pick_min;
  toFixed := to_fixed
|}.
End F64Math.

(** ** Dates

    A [Date] object is its time value: milliseconds since the Unix epoch,
    or no value for an invalid date. *)

Definition Date : Type := option Z.

Section Dates.
Context {num : Type} `{JsNumber num}.

(** [d.getTime()] *)
Definition getTime (d : Date) : num :=
  match d with
  | Some t => of_Z t
  | None => nan
  end.

(** [new Date(n)] for a Number [n]: [TimeClip] keeps an integer of at most
    8.64e15 in magnitude. *)
Definition Date_of_number (n : num) : Date :=
  match truncZ n with
  | Some t => if Z.abs t <=? 8640000000000000 then Some t else None
  | None => None
  end.

(** [a < b] and [a > b] on dates compare the time values. *)
Definition Date_ltb (a b : Date) : bool := (getTime a <? getTime b)%js.
Definition Date_gtb (a b : Date) : bool := (getTime a >? getTime b)%js.
End Dates.

(** ** Smoother: [movingAverage] and [timeBasedMovingAverage] *)

(** [arr.slice(start, stop)] for indices that are natural numbers. *)
Definition slice {A : Type} (arr : list A) (start stop : nat) : list A :=
  take (stop - start) (drop start arr).

(** [arr.filter((p, pIdx) => f(pIdx, p))], the index counted from [i]. *)
Fixpoint filter_index {A : Type} (f : nat -> A -> bool) (i : nat)
  (arr : list A) : list A :=
  match arr with
  | [] => []
  | p :: arr' =>
      if f i p then p :: filter_index f (S i) arr'
      else filter_index f (S i) arr'
  end.

(** [Math.max(0, idx - windowSize + 1)] for an integer window size. *)
Definition window_start (windowSize : Z) (idx : nat) : nat :=
  Z.to_nat (Z.max 0 (Z.of_nat idx - windowSize + 1)).

(** A point of a series.  [value] is a Number, or [undefined] where the
    array of values is shorter than the array of instants. *)
Record SeriesPoint (num : Type) : Type := {
  timestamp : Date;
  value : option num
}.

Arguments timestamp {num} _.
Arguments value {num} _.

Section Smoother.
Context {num : Type} `{JsNumber num}.

(** [arr.reduce((sum, val) => sum + val, 0)] *)
Definition sum_from_zero (arr : list num) : num :=
  fold_left add arr zero.

(** The mean as the code computes it: the sum from 0, left to right,
    divided by the length. *)
Definition mean_of (arr : list num) : num :=
  (sum_from_zero arr / of_nat (length arr))%js.

Definition movingAverage (data : list num) (windowSize : Z) : list num :=
  imap (fun idx _ =>
          let start := window_start windowSize idx in
          mean_of (slice data start (idx + 1)))
       data.

(** [sum + p.value]: an [undefined] value makes the sum NaN. *)
Definition value_number (p : SeriesPoint num) : num :=
  match value p with
  | Some v => v
  | None => nan
  end.

Definition value_js (p : SeriesPoint num) : jsval num :=
  match value p with
  | Some v => JNum v
  | None => JUndefined
  end.

(** [hoursWindow * 60 * 60 * 1000] *)
Definition window_ms (hoursWindow : Z) : num :=
  (of_Z hoursWindow * of_Z 60 * of_Z 60 * of_Z 1000)%js.

(** The points the filter of [timeBasedMovingAverage] keeps for the point
    at index [idx]. *)
Definition windowPoints (dataPoints : list (SeriesPoint num))
  (hoursWindow : Z) (idx : nat) (point : SeriesPoint num)
  : list (SeriesPoint num) :=
  let currentTime := getTime (timestamp point) in
  let windowStart := (currentTime - window_ms hoursWindow)%js in
  filter_index
    (fun pIdx p => (pIdx <=? idx)%nat
                   && (getTime (timestamp p) >=? windowStart)%js)
    0 dataPoints.

Definition timeBasedMovingAverage (dataPoints : list (SeriesPoint num))
  (hoursWindow : Z) : list (jsval num) :=
  imap (fun idx point =>
          let wp := windowPoints dataPoints hoursWindow idx point in
          match wp with
          | [] => value_js point
          | _ :: _ => JNum (mean_of (map value_number wp))
          end)
       dataPoints.
End Smoother.

(** ** ZeroBaseliner: [makeRelativeToZero] and the inline step of
    [chartData] *)

Section ZeroBaseliner.
Context {num : Type} `{JsNumber num}.

(** The loop that looks for the first entry whose [Number] is not NaN;
    [None] is the [null] the variable starts with. *)
Fixpoint firstValid (values : list (jsval num)) : option num :=
  match values with
  | [] => None
  | v :: rest =>
      let n := Number v in
      if isNaN n then firstValid rest else Some n
  end.

(** The standalone utility: an entry that is not numeric is returned as
    it is. *)
Definition makeRelativeToZero (values : list (jsval num))
  : list (jsval num) :=
  match values with
  | [] => values
  | _ :: _ =>
      match firstValid values with
      | None => values
      | Some firstValidValue =>
          map (fun val =>
                 let n := Number val in
                 if isNaN n then val else JNum (n - firstValidValue)%js)
              values
      end
  end.

(** The step written out inside [chartData] for the single-axis traces,
    on the array of Numbers it is applied to: an entry that is not
    numeric becomes 0. *)
Definition inlineRelativeToZero (finalYValues : list num) : list num :=
  match finalYValues with
  | [] => finalYValues
  | _ :: _ =>
      match firstValid (map JNum finalYValues) with
      | None => finalYValues
      | Some firstValue =>
          map (fun val =>
                 let n := Number (JNum val) in
                 if isNaN n then zero else (n - firstValue)%js)
              finalYValues
      end
  end.

(** The step of the grouped dual-axis branch: the first entry alone
    decides whether the array is rebased. *)
Definition inlineRelativeToFirst (finalYValues : list num) : list num :=
  match finalYValues with
  | [] => finalYValues
  | first :: _ =>
      let firstValue := Number (JNum first) in
      if isNaN firstValue then finalYValues
      else
        map (fun val =>
               let n := Number (JNum val) in
               if isNaN n then zero else (n - firstValue)%js)
            finalYValues
  end.
End ZeroBaseliner.

(** ** StatisticsEngine: [calculateStatistics] *)

(** The object [calculateStatistics] returns.  For a non-empty input the
    five fields are the strings [toFixed(4)] produces, for the empty input
    the Number 0. *)
Record Statistics (num : Type) : Type := {
  stat_mean : jsval num;
  stat_stdDev : jsval num;
  stat_min : jsval num;
  stat_max : jsval num;
  stat_median : jsval num;
  stat_count : nat
}.

Arguments stat_mean {num} _.
Arguments stat_stdDev {num} _.
Arguments stat_min {num} _.
Arguments stat_max {num} _.
Arguments stat_median {num} _.
Arguments stat_count {num} _.

Section Sorting.
Context {num : Type} `{JsNumber num}.

(** The comparator [(a, b) => a - b] is positive: [a] goes after [b]. *)
Definition sorts_after (a b : num) : bool := (zero <? a - b)%js.

(** [Array.prototype.sort] is stable; with this comparator it is the
    stable insertion sort. *)
Fixpoint insert_sorted (x : num) (l : list num) : list num :=
  match l with
  | [] => [x]
  | y :: l' => if sorts_after x y then y :: insert_sorted x l' else x :: l
  end.

(** [[...data].sort((a, b) => a - b)] *)
Definition sort_numbers (data : list num) : list num :=
  foldr insert_sorted [] data.

(** [arr[i]], a Number array read inside its bounds; outside them the
    read is [undefined], which the callers never reach. *)
Definition at_index (arr : list num) (i : nat) : num :=
  nth i arr nan.
End Sorting.

Section Statistics.
Context {num : Type} `{JsNumber num} `{JsMath num}.

(** [Math.max(...data)] and [Math.min(...data)] *)
Definition Math_max (data : list num) : num :=
  fold_left max_step data (infinity true).

Definition Math_min (data : list num) : num :=
  fold_left min_step data (infinity false).

(** [data.reduce((sum, val) => sum + Math.pow(val - mean, 2), 0)
      / data.length] *)
Definition variance_of (data : list num) (mean : num) : num :=
  (fold_left (fun sum val => sum + square (val - mean)) data zero
   / of_nat (length data))%js.

(** The five statistics before they are rendered. *)
Definition median_of (data : list num) : num :=
  let sorted := sort_numbers data in
  at_index sorted (length sorted / 2).


Definition calculateStatistics (data : list num) : Statistics num :=
  match data with
  | [] =>
      {| stat_mean := JNum zero; stat_stdDev := JNum zero;
         stat_min := JNum zero; stat_max := JNum zero;
         stat_median := JNum zero; stat_count := 0 |}
  | _ :: _ =>
      let sorted := sort_numbers data in
      let mean := mean_of data in
      let variance := variance_of data mean in
      let stdDev := sqrt variance in
      {| stat_mean := JStr (toFixed mean 4);
         stat_stdDev := JStr (toFixed stdDev 4);
         stat_min := JStr (toFixed (Math_min data) 4);
         stat_max := JStr (toFixed (Math_max data) 4);
         stat_median :=
           JStr (toFixed (at_index sorted (length sorted / 2)) 4);
         stat_count := length data |}
  end.
End Statistics.

(** ** PatternDetector *)

Inductive Volatility : Type := VolLow | VolMedium | VolHigh.
Inductive Trend : Type :=
  TrendIncreasing | TrendDecreasing | TrendStable | TrendNone.
Inductive Scale : Type := ScaleSmall | ScaleMedium | ScaleLarge.

(** An entry of the array [detectOutliers] returns. *)
Record Outlier (num : Type) : Type := {
  out_index : nat;
  out_value : num;
  isOutlier : bool
}.

Arguments out_index {num} _.
Arguments out_value {num} _.
Arguments isOutlier {num} _.

Record Pattern (num : Type) : Type := {
  volatility : Volatility;
  trend : Trend;
  (** the period, or [None] for [false] *)
  seasonality : option nat;
  outliers : list (Outlier num);
  range : num;
  scale : Scale
}.

Arguments volatility {num} _.
Arguments trend {num} _.
Arguments seasonality {num} _.
Arguments outliers {num} _.
Arguments range {num} _.
Arguments scale {num} _.

(** A row of the parsed CSV: an object from column names to cells. *)
Abbreviation Row := (gmap string string).

Section PatternDetector.
Context {num : Type} `{JsNumber num} `{JsMath num}.

(** [row[col]]: the cell, or [undefined] for a column the row lacks. *)
Definition cell (row : Row) (col : string) : jsval num :=
  match row !! col with
  | Some s => JStr s
  | None => JUndefined
  end.

(** [data.map(row => parseFloat(row[col])).filter(val => !isNaN(val))] *)
Definition numeric_column (data : list Row) (col : string) : list num :=
  List.filter (fun val => negb (isNaN val))
    (map (fun row => parseFloat (cell row col)) data).

(** The loop of [detectTrend]: the numbers of rises and of falls between
    neighbours. *)
Fixpoint count_steps (prev : num) (values : list num) (inc dec : nat)
  : nat * nat :=
  match values with
  | [] => (inc, dec)
  | v :: rest =>
      if (v >? prev)%js then count_steps v rest (S inc) dec
      else if (v <? prev)%js then count_steps v rest inc (S dec)
      else count_steps v rest inc dec
  end.

Definition detectTrend (values : list num) : Trend :=
  if (length values <? 3)%nat then TrendNone
  else
    let '(increasing, decreasing) :=
      match values with
      | [] => (O, O)
      | v0 :: rest => count_steps v0 rest 0 0
      end in
    let total := (length values - 1)%nat in
    if (of_nat increasing / of_nat total >? of_decimal false 7 (-1))%js
    then TrendIncreasing
    else if (of_nat decreasing / of_nat total >? of_decimal false 7 (-1))%js
    then TrendDecreasing
    else TrendStable.

(** The values of one phase [i] of a period: [values[i + j * period]] for
    the cycles [j] that reach into the array. *)
Definition cycleValues (values : list num) (period cycles i : nat)
  : list num :=
  omap (fun j => values !! (i + j * period)%nat) (seq 0 cycles).

(** [cycleValues.reduce((a, b) => a + b)]: no initial value, so the fold
    starts at the first entry. *)
Definition sum_from_first (arr : list num) : num :=
  match arr with
  | [] => nan
  | a :: rest => fold_left add rest a
  end.

(** Whether a phase counts as a low-variance phase. *)
Definition low_variance (cv : list num) : bool :=
  if (1 <? length cv)%nat then
    let mean := (sum_from_first cv / of_nat (length cv))%js in
    let variance := variance_of cv mean in
    (variance <? mean * of_decimal false 1 (-1))%js
  else false.

Definition correlation_of (values : list num) (period cycles : nat) : nat :=
  if (1 <? cycles)%nat then
    length (List.filter
              (fun i => low_variance (cycleValues values period cycles i))
              (seq 0 period))
  else O.

Fixpoint first_period (values : list num) (periods : list nat)
  : option nat :=
  match periods with
  | [] => None
  | period :: rest =>
      if (period * 2 <=? length values)%nat then
        let cycles := (length values / period)%nat in
        let correlation := correlation_of values period cycles in
        if (of_nat correlation / of_nat period >? of_decimal false 6 (-1))%js
        then Some period
        else first_period values rest
      else first_period values rest
  end.

Definition detectSeasonality (values : list num) : option nat :=
  if (length values <? 12)%nat then None
  else first_period values [7; 12; 24; 30]%nat.

(** [floor(n * 0.25)] and [floor(n * 0.75)] for an array length [n]: the
    two products are exact, so the floors are the integer quotients. *)
Definition q1_index (n : nat) : nat := (n / 4)%nat.
Definition q3_index (n : nat) : nat := (3 * n / 4)%nat.

Definition lowerBound_of (q1 q3 : num) : num :=
  (q1 - of_decimal false 15 (-1) * (q3 - q1))%js.

Definition upperBound_of (q1 q3 : num) : num :=
  (q3 + of_decimal false 15 (-1) * (q3 - q1))%js.

Definition detectOutliers (values : list num) : list (Outlier num) :=
  if (length values <? 4)%nat then []
  else
    let sorted := sort_numbers values in
    let q1 := at_index sorted (q1_index (length sorted)) in
    let q3 := at_index sorted (q3_index (length sorted)) in
    let lowerBound := lowerBound_of q1 q3 in
    let upperBound := upperBound_of q1 q3 in
    List.filter (fun item => isOutlier item)
      (imap (fun idx val =>
               {| out_index := idx; out_value := val;
                  isOutlier := (val <? lowerBound)%js
                               || (val >? upperBound)%js |})
            values).

(** The coefficient of variation and the range as [detectDataPatterns]
    computes them: from the strings of the statistics object, parsed
    back. *)
Definition cv_of (stats : Statistics num) : num :=
  (parseFloat (stat_stdDev stats) / parseFloat (stat_mean stats))%js.

Definition range_of (stats : Statistics num) : num :=
  (parseFloat (stat_max stats) - parseFloat (stat_min stats))%js.

Definition classify_volatility (cv : num) : Volatility :=
  if (cv >? of_decimal false 5 (-1))%js then VolHigh
  else if (cv >? of_decimal false 2 (-1))%js then VolMedium
  else VolLow.

Definition classify_scale (range : num) : Scale :=
  if (range >? of_Z 1000)%js then ScaleLarge
  else if (range >? of_Z 100)%js then ScaleMedium
  else ScaleSmall.

(** The pattern of one column, for its non-empty array of values. *)
Definition pattern_of (values : list num) : Pattern num :=
  let stats := calculateStatistics values in
  let range := range_of stats in
  let cv := cv_of stats in
  {| volatility := classify_volatility cv;
     trend := detectTrend values;
     seasonality := detectSeasonality values;
     outliers := detectOutliers values;
     range := range;
     scale := classify_scale range |}.

(** [detectDataPatterns]: the object [patterns], filled column by column;
    a column without a numeric value is skipped. *)
Definition detectDataPatterns (data : list Row) (columns : list string)
  : gmap string (Pattern num) :=
  fold_left
    (fun patterns col =>
       let values := numeric_column data col in
       match values with
       | [] => patterns
       | _ :: _ => <[col := pattern_of values]> patterns
       end)
    columns ∅.
End PatternDetector.

(** ** TimestampNormalizer: [convertTimestamp] *)

(** What the host decides: the clock read by [new Date()], and
    [Date.parse], whose result on a string outside the ISO format is left
    to the implementation.  A host is the host at one moment: [now] is
    what the clock reads then.  The clock moves on, so calls at different
    moments are calls on different hosts, which agree on [Date_parse]. *)
Record Host : Type := {
  now : Z;
  Date_parse : string -> Date
}.

(** Days from 1970-01-01 to a day of the proleptic Gregorian calendar. *)
Definition days_from_civil (y m d : Z) : Z :=
  let y' := if m <=? 2 then y - 1 else y in
  let era := y' / 400 in
  let yoe := y' - era * 400 in
  let doy := (153 * (if 2 <? m then m - 3 else m + 9) + 2) / 5 + d - 1 in
  let doe := yoe * 365 + yoe / 4 - yoe / 100 + doy in
  era * 146097 + doe - 719468.

(** [new Date('1980-01-06T00:00:00Z').getTime()] *)
Definition gpsEpoch : Z := days_from_civil 1980 1 6 * 86400000.

Section TimestampNormalizer.
Context {num : Type} `{JsNumber num}.
Variable host : Host.

(** [new Date(v)] with one argument. *)
Definition Date_new (v : jsval num) : Date :=
  match v with
  | JStr s => Date_parse host s
  | JNum n => Date_of_number n
  | JNull => Some 0
  | JUndefined => None
  end.

(** The numeric branch of [convertTimestamp]. *)
Definition convertNumeric (n : num) : Date :=
  if (n <? of_Z 1000000000)%js then
    Date_of_number (of_Z gpsEpoch + n * of_Z 1000)%js
  else if (n <? of_Z 10000000000)%js then
    Date_of_number (n * of_Z 1000)%js
  else Date_of_number n.

Definition convertTimestamp (timestamp : jsval num) : Date :=
  if negb (truthy timestamp) then Some (now host)
  else
    let dateFromString :=
      match timestamp with
      | JStr s => Date_parse host s
      | _ => None
      end in
    match dateFromString with
    | Some t => Some t
    | None =>
        let n := parseFloat timestamp in
        if isNaN n then
          match Date_new timestamp with
          | Some t => Some t
          | None => Some (now host)
          end
        else convertNumeric n
    end.

(** ** RangeFilter: [filteredData] *)

Definition filteredData (data : list Row) (selectedX : string)
  (startDate endDate : option Date) : list Row :=
  match data, startDate, endDate with
  | [], _, _ => data
  | _, None, None => data
  | _, _, _ =>
      List.filter
        (fun row =>
           let date := convertTimestamp (cell row selectedX) in
           negb (match startDate with
                 | Some s => Date_ltb (num := num) date s
                 | None => false
                 end)
           && negb (match endDate with
                    | Some e => Date_gtb (num := num) date e
                    | None => false
                    end))
        data
  end.
End TimestampNormalizer.

(** ** TraceBuilder: [chartData] *)

Inductive ChartType : Type :=
  LINE | SCATTER | BAR | HISTOGRAM | BOX | DUAL_AXIS.

(** The strings of [CHART_TYPES]. *)
Definition chart_type_value (c : ChartType) : string :=
  match c with
  | LINE => "line"
  | SCATTER => "scatter"
  | BAR => "bar"
  | HISTOGRAM => "histogram"
  | BOX => "box"
  | DUAL_AXIS => "dual_axis"
  end.

Inductive SmoothingType : Type := SmoothCount | SmoothTime.

Definition COLOR_PALETTE : list string :=
  ["#038357"; "#FF6B6B"; "#4ECDC4"; "#45B7D1"; "#96CEB4"; "#FFEAA7";
   "#DDA0DD"; "#98D8C8"; "#F7DC6F"; "#BB8FCE"; "#85C1E9";
   "#FF8A80"; "#80CBC4"; "#81C784"; "#FFB74D"; "#F06292";
   "#9575CD"; "#64B5F6"; "#4DB6AC"; "#AED581"; "#FFD54F";
   "#A1887F"; "#90A4AE"; "#EF5350"; "#26A69A"; "#66BB6A";
   "#FFA726"; "#EC407A"; "#AB47BC"; "#42A5F5"; "#26C6DA"].

(** [COLOR_PALETTE[i % COLOR_PALETTE.length]] *)
Definition palette (i : nat) : string :=
  nth (i mod length COLOR_PALETTE) COLOR_PALETTE "".

(** A trace handed to the plot. *)
Record Trace (num : Type) : Type := {
  x : list Date;
  y : list (jsval num);
  type : string;
  mode : string;
  name : string;
  line_color : string;
  line_width : option Z;
  line_dash : option string;
  marker_color : option string;
  marker_symbol : option string;
  yaxis : option string;
  opacity : option num
}.

Arguments x {num} _.
Arguments y {num} _.
Arguments type {num} _.
Arguments mode {num} _.
Arguments name {num} _.
Arguments line_color {num} _.
Arguments line_width {num} _.
Arguments line_dash {num} _.
Arguments marker_color {num} _.
Arguments marker_symbol {num} _.
Arguments yaxis {num} _.
Arguments opacity {num} _.

(** The state [chartData] depends on. *)
Record Settings : Type := {
  selectedX : string;
  selectedY : string;
  selectedY2 : string;
  chartType : ChartType;
  showSmooth : bool;
  smoothingWindow : Z;
  smoothingType : SmoothingType;
  smoothingHours : Z;
  relativeToZero : bool;
  dataColumns : list string
}.

(** What [chartData] evaluates to: the traces, or the TypeError thrown
    while the rows are grouped. *)
Inductive Outcome (A : Type) : Type :=
| Returned (a : A)
| TypeError.

Arguments Returned {A} a.
Arguments TypeError {A}.

(** *** Strings *)

Definition lower_ascii (c : ascii) : ascii :=
  let n := N_of_ascii c in
  if ((65 <=? n) && (n <=? 90))%N then ascii_of_N (n + 32) else c.

Fixpoint toLowerCase (s : string) : string :=
  match s with
  | EmptyString => EmptyString
  | String c s' => String (lower_ascii c) (toLowerCase s')
  end.

(** [s.includes(sub)] *)
Definition includes (s sub : string) : bool :=
  match String.index 0 sub s with
  | Some _ => true
  | None => false
  end.

(** The test [dataColumns.find] applies to find the grouping column. *)
Definition is_grouping_name (col : string) : bool :=
  includes (toLowerCase col) "point"
  || includes (toLowerCase col) "name"
  || includes (toLowerCase col) "id"
  || includes (toLowerCase col) "station".

(** *** The object [groupedData] *)

(** The names every object inherits from [Object.prototype]: read on the
    empty object [{}] they give a value that is truthy and has no
    [push]. *)
Definition inherited_names : list string :=
  ["constructor"; "hasOwnProperty"; "isPrototypeOf";
   "propertyIsEnumerable"; "toLocaleString"; "toString"; "valueOf";
   "__proto__"; "__defineGetter__"; "__defineSetter__";
   "__lookupGetter__"; "__lookupSetter__"].

Definition is_inherited (key : string) : bool :=
  existsb (String.eqb key) inherited_names.

(** An array index: the canonical decimal string of an integer below
    [2^32 - 1].  [Object.entries] lists these keys first, in ascending
    order, and the other keys after them, in insertion order. *)
Definition array_index (key : string) : option N :=
  let l := list_ascii_of_string key in
  let '(v, n, rest) := scan_digits 0 0 l in
  match n, rest with
  | O, _ => None
  | _, _ :: _ => None
  | S _, [] =>
      if String.eqb (string_of_N v) key && (v <? 4294967295)%N
      then Some v else None
  end.

Section GroupedData.
Context {V : Type}.

(** Own properties in insertion order. *)
Definition Obj : Type := list (string * V).

Fixpoint obj_get (o : Obj) (key : string) : option V :=
  match o with
  | [] => None
  | (k, v) :: o' => if String.eqb k key then Some v else obj_get o' key
  end.

(** Replaces the value of an own property, or adds the property at the
    end. *)
Fixpoint obj_set (o : Obj) (key : string) (v : V) : Obj :=
  match o with
  | [] => [(key, v)]
  | (k, w) :: o' =>
      if String.eqb k key then (k, v) :: o' else (k, w) :: obj_set o' key v
  end.

Fixpoint insert_index (e : N * (string * V)) (l : list (N * (string * V)))
  : list (N * (string * V)) :=
  match l with
  | [] => [e]
  | e' :: l' =>
      if (fst e <=? fst e')%N then e :: l else e' :: insert_index e l'
  end.

(** [Object.entries(o)] *)
Definition Object_entries (o : Obj) : list (string * V) :=
  let indexed :=
    omap (fun kv => match array_index (fst kv) with
                    | Some i => Some (i, kv)
                    | None => None
                    end) o in
  let named :=
    List.filter (fun kv => match array_index (fst kv) with
                           | Some _ => false
                           | None => true
                           end) o in
  map snd (foldr insert_index [] indexed) ++ named.
End GroupedData.

Arguments Obj V : clear implicits.

Section TraceBuilder.
Context {num : Type} `{JsNumber num}.
Variable host : Host.
Variable st : Settings.

(** The property key [row[groupingColumn]] gives: the cell, or the string
    of [undefined]. *)
Definition group_key (groupingColumn : string) (row : Row) : string :=
  match row !! groupingColumn with
  | Some s => s
  | None => "undefined"
  end.

(** The body of the [forEach] that fills [groupedData].  On a key that
    [{}] inherits, no array is stored and the call of [push] throws. *)
Definition add_to_group (groupingColumn : string)
  (acc : Outcome (Obj (list Row))) (row : Row) : Outcome (Obj (list Row)) :=
  match acc with
  | TypeError => TypeError
  | Returned groupedData =>
      let groupKey := group_key groupingColumn row in
      match obj_get groupedData groupKey with
      | Some groupRows =>
          Returned (obj_set groupedData groupKey (groupRows ++ [row]))
      | None =>
          if is_inherited groupKey then TypeError
          else Returned (obj_set groupedData groupKey [row])
      end
  end.

Definition group_rows (groupingColumn : string) (rows : list Row)
  : Outcome (Obj (list Row)) :=
  fold_left (add_to_group groupingColumn) rows (Returned []).

(** [groupingColumn && filteredData.some(row => row[groupingColumn])] *)
Definition grouping_of (rows : list Row) : option string :=
  match List.find is_grouping_name (dataColumns st) with
  | Some groupingColumn =>
      if negb (String.eqb groupingColumn "")
         && existsb (fun row => truthy (cell (num := num) row groupingColumn))
                    rows
      then Some groupingColumn else None
  | None => None
  end.

Definition xValues_of (rows : list Row) : list Date :=
  map (fun row => convertTimestamp host (cell (num := num) row (selectedX st)))
      rows.

Definition base_type : string :=
  match chartType st with
  | LINE => "scatter"
  | c => chart_type_value c
  end.

Definition base_mode : string :=
  match chartType st with
  | LINE => "lines+markers"
  | _ => "markers"
  end.

(** *** Single axis, grouped *)

(** The traces of one group, and the colour index after it. *)
Definition group_traces (colorIndex : nat) (groupName : string)
  (groupRows : list Row) : list (Trace num) * nat :=
  let xValues := xValues_of groupRows in
  let yValues := numeric_column groupRows (selectedY st) in
  if (0 <? length xValues)%nat && (0 <? length yValues)%nat then
    let finalYValues :=
      if relativeToZero st && (0 <? length yValues)%nat
      then inlineRelativeToZero yValues else yValues in
    let baseTrace :=
      {| x := xValues; y := map JNum finalYValues;
         type := base_type; mode := base_mode;
         name := (groupName ++ " - " ++ selectedY st)%string;
         line_color := palette colorIndex;
         line_width := None; line_dash := None;
         marker_color := Some (palette colorIndex);
         marker_symbol := None; yaxis := None; opacity := None |} in
    let gate :=
      match smoothingType st with
      | SmoothCount => smoothingWindow st
      | SmoothTime => 2
      end in
    let smoothed :=
      if showSmooth st && (gate <? Z.of_nat (length yValues)) then
        let smoothedY :=
          match smoothingType st with
          | SmoothTime =>
              let dataPoints :=
                imap (fun idx timestamp =>
                        {| timestamp := timestamp;
                           value := finalYValues !! idx |})
                     xValues in
              timeBasedMovingAverage dataPoints (smoothingHours st)
          | SmoothCount =>
              map JNum (movingAverage finalYValues (smoothingWindow st))
          end in
        [ {| x := xValues; y := smoothedY;
             type := "scatter"; mode := "lines";
             name := (groupName ++ " - " ++ selectedY st
                      ++ " (Smoothed)")%string;
             line_color := palette colorIndex;
             line_width := Some 3; line_dash := Some "dash"%string;
             marker_color := None; marker_symbol := None;
             yaxis := None;
             opacity := Some (of_decimal false 7 (-1)) |} ]
      else [] in
    (baseTrace :: smoothed, S colorIndex)
  else ([], colorIndex).

(** *** Dual axis, grouped *)

Definition dual_group_traces (colorIndex : nat) (groupName : string)
  (groupRows : list Row) : list (Trace num) * nat :=
  let xValues := xValues_of groupRows in
  let y1Values := numeric_column groupRows (selectedY st) in
  let y2Values := numeric_column groupRows (selectedY2 st) in
  if (0 <? length xValues)%nat && (0 <? length y1Values)%nat then
    let finalY1Values :=
      if relativeToZero st then inlineRelativeToFirst y1Values
      else y1Values in
    let finalY2Values :=
      if relativeToZero st then inlineRelativeToFirst y2Values
      else y2Values in
    ([ {| x := xValues; y := map JNum finalY1Values;
          type := "scatter"; mode := "lines+markers";
          name := (groupName ++ " - " ++ selectedY st)%string;
          line_color := palette colorIndex;
          line_width := None; line_dash := None;
          marker_color := Some (palette colorIndex);
          marker_symbol := None; yaxis := Some "y"%string;
          opacity := None |};
       {| x := xValues;
          y := map JNum (if (0 <? length finalY2Values)%nat
                         then finalY2Values else y2Values);
          type := "scatter"; mode := "lines+markers";
          name := (groupName ++ " - " ++ selectedY2 st)%string;
          line_color := "#038357";
          line_width := None; line_dash := Some "dash"%string;
          marker_color := Some "#038357"%string;
          marker_symbol := Some "square"%string;
          yaxis := Some "y2"%string;
          opacity := None |} ],
     S colorIndex)
  else ([], colorIndex).

(** [Object.entries(groupedData).forEach(...)]: the traces of the groups
    one after the other, [colorIndex] carried along. *)
Definition traces_of_groups
  (per_group : nat -> string -> list Row -> list (Trace num) * nat)
  (groupedData : Obj (list Row)) : list (Trace num) :=
  fst (fold_left
         (fun '(traces, colorIndex) '(groupName, groupRows) =>
            let '(ts, colorIndex') :=
              per_group colorIndex groupName groupRows in
            (traces ++ ts, colorIndex'))
         (Object_entries groupedData) ([], O)).

(** *** Dual axis, no grouping *)

Definition dual_traces (rows : list Row) : list (Trace num) :=
  let xValues := xValues_of rows in
  let y1Values := numeric_column rows (selectedY st) in
  let y2Values := numeric_column rows (selectedY2 st) in
  let finalY1Values :=
    if relativeToZero st then makeRelativeToZero (map JNum y1Values)
    else map JNum y1Values in
  let finalY2Values :=
    if relativeToZero st then makeRelativeToZero (map JNum y2Values)
    else map JNum y2Values in
  [ {| x := xValues; y := finalY1Values;
       type := "scatter"; mode := "lines+markers";
       name := selectedY st;
       line_color := palette 0;
       line_width := None; line_dash := None;
       marker_color := Some (palette 0);
       marker_symbol := None; yaxis := Some "y"%string;
       opacity := None |};
    {| x := xValues; y := finalY2Values;
       type := "scatter"; mode := "lines+markers";
       name := selectedY2 st;
       line_color := palette 1;
       line_width := None; line_dash := Some "dash"%string;
       marker_color := Some (palette 1);
       marker_symbol := Some "square"%string;
       yaxis := Some "y2"%string;
       opacity := None |} ].

(** *** Single axis, no grouping *)

Definition single_traces (rows : list Row) : list (Trace num) :=
  let xValues := xValues_of rows in
  let yValues := numeric_column rows (selectedY st) in
  let finalYValues :=
    if relativeToZero st && (0 <? length yValues)%nat
    then inlineRelativeToZero yValues else yValues in
  let baseTrace :=
    {| x := xValues; y := map JNum finalYValues;
       type := base_type; mode := base_mode;
       name := selectedY st;
       line_color := palette 0;
       line_width := None; line_dash := None;
       marker_color := Some (palette 0);
       marker_symbol := None; yaxis := None; opacity := None |} in
  if showSmooth st && (smoothingWindow st <? Z.of_nat (length yValues)) then
    [ baseTrace;
      {| x := xValues;
         y := map JNum (movingAverage yValues (smoothingWindow st));
         type := "scatter"; mode := "lines";
         name := (selectedY st ++ " (Smoothed)")%string;
         line_color := palette 1;
         line_width := Some 3; line_dash := None;
         marker_color := None; marker_symbol := None;
         yaxis := None;
         opacity := Some (of_decimal false 8 (-1)) |} ]
  else [ baseTrace ].

Definition chartData (filteredData : list Row) : Outcome (list (Trace num)) :=
  match filteredData with
  | [] => Returned []
  | _ :: _ =>
      match chartType st, grouping_of filteredData with
      | DUAL_AXIS, Some groupingColumn =>
          match group_rows groupingColumn filteredData with
          | Returned groupedData =>
              Returned (traces_of_groups dual_group_traces groupedData)
          | TypeError => TypeError
          end
      | DUAL_AXIS, None => Returned (dual_traces filteredData)
      | _, Some groupingColumn =>
          match group_rows groupingColumn filteredData with
          | Returned groupedData =>
              Returned (traces_of_groups group_traces groupedData)
          | TypeError => TypeError
          end
      | _, None => Returned (single_traces filteredData)
      end
  end.
End TraceBuilder.

(** ** A host

    A host whose [Date.parse] reads the ISO date form [YYYY-MM-DD] (UTC
    midnight, as ECMAScript fixes it) and rejects every other string, which
    the standard allows. *)

Module SampleHost.
Definition two_digits (a b : ascii) : option Z :=
  match digit_of a, digit_of b with
  | Some p, Some q => Some (Z.of_N (10 * p + q))
  | _, _ => None
  end.

Definition days_in_month (y m : Z) : Z :=
  if m =? 2 then
    if ((y mod 4 =? 0) && negb (y mod 100 =? 0)) || (y mod 400 =? 0)
    then 29 else 28
  else if (m =? 4) || (m =? 6) || (m =? 9) || (m =? 11) then 30
  else 31.

Definition parse_iso_date (s : string) : Date :=
  match list_ascii_of_string s with
  | [y1; y2; y3; y4; d1; m1; m2; d2; a1; a2] =>
      if (N_of_ascii d1 =? 45)%N && (N_of_ascii d2 =? 45)%N then
        match two_digits y1 y2, two_digits y3 y4,
              two_digits m1 m2, two_digits a1 a2 with
        | Some yh, Some yl, Some m, Some d =>
            let y := 100 * yh + yl in
            if (1 <=? m) && (m <=? 12) && (1 <=? d)
               && (d <=? days_in_month y m)
            then Some (days_from_civil y m d * 86400000)
            else None
        | _, _, _, _ => None
        end
      else None
  | _ => None
  end.

(** The clock stands at 2025-01-01T00:00:00Z. *)
Definition host : Host :=
  {| now := 1735689600000; Date_parse := parse_iso_date |}.
End SampleHost.

(** ** Sample data *)

Module Samples.
(** A row with the columns [t], [v] and [PointName]. *)
Definition row (t v point : string) : Row :=
  {[ "t" := t; "v" := v; "PointName" := point ]}.

(** Three rows of two points, every cell valid. *)
Definition rows_valid : list Row :=
  [ row "2024-01-01" "10" "A";
    row "2024-01-02" "20" "A";
    row "2024-01-03" "30" "B" ].



(** A line chart of [v] over [t]; the columns are given, so that the
    rows are grouped by [PointName], or withheld, so that they are not. *)
Definition line_chart (columns : list string) : Settings :=
  {| selectedX := "t"; selectedY := "v"; selectedY2 := "w";
     chartType := LINE; showSmooth := false; smoothingWindow := 5;
     smoothingType := SmoothCount; smoothingHours := 24;
     relativeToZero := false; dataColumns := columns |}.
End Samples.

(** ** The specification's wording, for comparison *)

Section SpecWording.
Context {num : Type} `{JsNumber num} `{JsMath num}.

(** The window of the time-based smoother as the specification words it:
    the points at indices [j <= idx] whose instant lies in the closed
    interval from [instant - hours * 3600000] to [instant]. *)
Definition closedWindowPoints (dataPoints : list (SeriesPoint num))
  (hoursWindow : Z) (idx : nat) (point : SeriesPoint num)
  : list (SeriesPoint num) :=
  let currentTime := getTime (timestamp point) in
  let windowStart := (currentTime - window_ms hoursWindow)%js in
  filter_index
    (fun pIdx p => (pIdx <=? idx)%nat
                   && (getTime (timestamp p) >=? windowStart)%js
                   && (getTime (timestamp p) <=? currentTime)%js)
    0 dataPoints.

Definition timeBasedClosedInterval (dataPoints : list (SeriesPoint num))
  (hoursWindow : Z) : list (jsval num) :=
  imap (fun idx point =>
          let wp := closedWindowPoints dataPoints hoursWindow idx point in
          match wp with
          | [] => value_js point
          | _ :: _ => JNum (mean_of (map value_number wp))
          end)
       dataPoints.


End SpecWording.

(** The sum and the mean of rationals, without rounding. *)
Definition Qsum (qs : list Q) : Q := foldr Qplus 0%Q qs.

Definition Qmean (qs : list Q) : Q :=
  (Qsum qs / inject_Z (Z.of_nat (length qs)))%Q.



(** A value that is the Number 0. *)
Definition is_zero_value {num : Type} `{JsNumber num} (v : jsval num) : bool :=
  match v with
  | JNum n => ((n <=? zero) && (zero <=? n))%js
  | _ => false
  end.

(** ** Upload: the numeric columns and the list of recent files *)

(** The global [isFinite(v)]: [ToNumber(v)] is neither NaN nor an
    infinity. *)
Definition isFinite (v : jsval F64.t) : bool := F64.is_finite (Number v).

(** [columns.filter(col => data.some(row =>
      !isNaN(parseFloat(row[col])) && isFinite(row[col])))] *)
Definition numericColumns (data : list Row) (columns : list string)
  : list string :=
  List.filter
    (fun col =>
       existsb (fun row =>
                  negb (isNaN (parseFloat (cell (num := F64.t) row col)))
                  && isFinite (cell row col))
               data)
    columns.

(** An entry of [recentFiles]. *)
Record FileInfo : Type := {
  file_name : string;
  file_size : Z;
  file_lastModified : Z;
  file_timestamp : Z
}.

(** [[fileInfo, ...recentFiles.filter(f => f.name !== file.name)]
      .slice(0, 5)], where [recentFiles] is the list the callback
    sees. *)
Definition updatedRecentFiles (fileInfo : FileInfo)
  (recentFiles : list FileInfo) : list FileInfo :=
  take 5
    (fileInfo
     :: List.filter
          (fun f => negb (String.eqb (file_name f) (file_name fileInfo)))
          recentFiles).

(** The state [recentFiles] while the component is mounted.  It starts
    as the list read from the local storage.  [handleFileUpload] is
    memoised on [retryOperation] and [analyzeDataPatterns], which are
    memoised on values that never change: every upload runs the function
    of the first render, and the [recentFiles] that function sees is the
    list the state started with, whatever the state holds by then.  What
    changes the state: an upload that is stored, and the button that
    clears the list. *)
Inductive RecentEvent : Type :=
| Uploaded (fileInfo : FileInfo)
| ClearedRecent.

Definition recent_step (mounted recentFiles : list FileInfo)
  (ev : RecentEvent) : list FileInfo :=
  match ev with
  | Uploaded fileInfo => updatedRecentFiles fileInfo mounted
  | ClearedRecent => []
  end.

Definition recentFiles_after (mounted : list FileInfo)
  (evs : list RecentEvent) : list FileInfo :=
  fold_left (recent_step mounted) evs mounted.

(** What the [complete] callback of the upload does with the parsed file:
    it throws an error with a message, or stores the rows, the columns,
    the list of recent files and the patterns of the numeric columns.
    [columns] stands for [Object.keys(results.data[0])]. *)
Inductive Upload : Type :=
| UploadError (message : string)
| UploadStored (numeric : list string) (recent : list FileInfo)
    (patterns : gmap string (Pattern F64.t)).

Definition completeUpload (errors : list string) (data : list Row)
  (columns : list string) (fileInfo : FileInfo)
  (recentFiles : list FileInfo) : Upload :=
  match errors with
  | _ :: _ =>
      UploadError ("CSV parsing errors: " ++ String.concat ", " errors)
  | [] =>
      match data with
      | [] => UploadError "No data found in the uploaded file"
      | _ :: _ =>
          match numericColumns data columns with
          | [] => UploadError "No numeric columns found in the data"
          | numeric =>
              UploadStored numeric
                (updatedRecentFiles fileInfo recentFiles)
                (detectDataPatterns data numeric)
          end
      end
  end.

(** ** [retryOperation]

    The operation is given by the outcome of each of its calls: the call
    of attempt [k] resolves ([None]) or rejects with a message.  The
    function is modelled by what it does itself, in order: the state it
    sets, the calls of the operation and the delays it asks for.  What
    the operation does to the state during a call is not recorded. *)

Inductive RetryEvent : Type :=
| SetError (e : option (string * string))
| SetRetryCount (n : nat)
| SetLoading (b : bool)
| Call (attempt : nat)
| Wait (ms : Z).

(** [Math.pow(2, attempt - 1) * 1000]: a power of two times 1000, which
    a Number holds exactly up to the thousandth attempt and beyond. *)
Definition backoff (attempt : nat) : Z := 2 ^ Z.of_nat (attempt - 1) * 1000.

(** The loop, with [remaining] attempts to go: the attempt is
    [maxRetries - remaining + 1]. *)
Fixpoint retry_loop (operation : nat -> option string) (maxRetries : nat)
  (remaining : nat) : list RetryEvent :=
  match remaining with
  | O => []
  | S remaining' =>
      let attempt := (maxRetries - remaining')%nat in
      SetError None :: SetRetryCount attempt :: Call attempt ::
      match operation attempt with
      | None => [SetRetryCount 0]
      | Some message =>
          if (attempt =? maxRetries)%nat
          then [SetError (Some (message, "retry operation"%string));
                SetLoading false]
          else Wait (backoff attempt)
               :: retry_loop operation maxRetries remaining'
      end
  end.

Definition retryOperation (operation : nat -> option string)
  (maxRetries : nat) : list RetryEvent :=
  retry_loop operation maxRetries maxRetries.

(** The attempts made, the delays asked of [setTimeout], and the error
    left in the state, read off the events. *)
Definition calls_of (evs : list RetryEvent) : list nat :=
  omap (fun ev => match ev with Call k => Some k | _ => None end) evs.

Definition waits_of (evs : list RetryEvent) : list Z :=
  omap (fun ev => match ev with Wait ms => Some ms | _ => None end) evs.

Definition error_of (evs : list RetryEvent) : option (string * string) :=
  fold_left (fun e ev => match ev with SetError e' => e' | _ => e end)
            evs None.

Definition retryCount_of (evs : list RetryEvent) : nat :=
  fold_left (fun n ev => match ev with SetRetryCount n' => n' | _ => n end)
            evs O.

(** ** [calculateOptimalDateRange] and [calculateOptimalDataRange] *)

(** The object with [start] and [end]: a date, or [null]. *)
Record DateRange : Type := {
  range_start : option Date;
  range_end : option Date
}.

(** The object with [min] and [max]. *)
Record DataRange (num : Type) : Type := {
  range_min : num;
  range_max : num
}.

Arguments range_min {num} _.
Arguments range_max {num} _.

Section Ranges.
Context {num : Type} `{JsNumber num} `{JsMath num}.
Variable host : Host.

(** [dates.sort((a, b) => a - b)]: the comparator subtracts the time
    values. *)
Fixpoint insert_date (d : Date) (l : list Date) : list Date :=
  match l with
  | [] => [d]
  | d' :: l' =>
      if sorts_after (num := num) (getTime d) (getTime d')
      then d' :: insert_date d l' else d :: l
  end.

Definition sort_dates (dates : list Date) : list Date :=
  foldr insert_date [] dates.

(** The valid dates of the column, sorted. *)
Definition valid_dates (data : list Row) (xColumn : string) : list Date :=
  sort_dates
    (List.filter (fun d => negb (isNaN (getTime (num := num) d)))
       (map (fun row => convertTimestamp host (cell (num := num) row xColumn))
            data)).

Definition calculateOptimalDateRange (data : list Row) (xColumn : string)
  : DateRange :=
  match data with
  | [] => {| range_start := None; range_end := None |}
  | _ :: _ =>
      match valid_dates data xColumn with
      | [] => {| range_start := None; range_end := None |}
      | first :: rest =>
          let last := List.last rest first in
          let range := (getTime last - getTime first)%js in
          let padding := (range * of_decimal false 5 (-2))%js in
          {| range_start :=
               Some (Date_of_number (getTime first - padding)%js);
             range_end :=
               Some (Date_of_number (getTime last + padding)%js) |}
      end
  end.

Definition calculateOptimalDataRange (values : list num) : DataRange num :=
  match values with
  | [] => {| range_min := zero; range_max := of_Z 1 |}
  | _ :: _ =>
      let min := Math_min values in
      let max := Math_max values in
      let range := (max - min)%js in
      let padding := (range * of_decimal false 1 (-1))%js in
      {| range_min := (min - padding)%js; range_max := (max + padding)%js |}
  end.

(** The effect that applies the automatic range: both bounds are set when
    both are there, and left as they were otherwise. *)
Definition applyAutoDateRange (autoDateRange : bool) (data : list Row)
  (selectedX : string) (startDate endDate : option Date)
  : option Date * option Date :=
  if (0 <? length data)%nat && autoDateRange then
    match calculateOptimalDateRange data selectedX with
    | {| range_start := Some s; range_end := Some e |} => (Some s, Some e)
    | _ => (startDate, endDate)
    end
  else (startDate, endDate).
End Ranges.

(** ** Notions for the properties of the chart and of the range filter *)

(** The traces come in pairs: one on the axis [y], then one on the axis
    [y2] over the same instants. *)
Inductive paired {num : Type} : list (Trace num) -> Prop :=
| paired_nil : paired []
| paired_cons (a b : Trace num) (ts : list (Trace num)) :
    yaxis a = Some "y"%string -> yaxis b = Some "y2"%string ->
    x a = x b -> paired ts -> paired (a :: b :: ts).

(** A time value [TimeClip] accepts, and a host whose clock and
    [Date.parse] give such time values only. *)
Definition valid_time (t : Z) : Prop := Z.abs t <= 8640000000000000.

Definition valid_host (host : Host) : Prop :=
  valid_time (now host)
  /\ forall s t, Date_parse host s = Some t -> valid_time t.

(** A date lies within two bounds when its instant is not before the
    first and not after the second; an invalid date, a bound that is
    [null] or an invalid date excludes nothing. *)
Definition within (startDate endDate : option Date) (date : Date) : bool :=
  match date with
  | None => true
  | Some t =>
      match startDate with
      | Some (Some s) => s <=? t
      | _ => true
      end
      && match endDate with
         | Some (Some e) => t <=? e
         | _ => true
         end
  end.

(** Whether [convertTimestamp] reads the clock for a value: it does for
    a falsy value, and for a value in which the host reads no date and
    [parseFloat] no number. *)
Definition reads_clock {num : Type} `{JsNumber num} (host : Host)
  (timestamp : jsval num) : bool :=
  if negb (truthy timestamp) then true
  else
    let dateFromString :=
      match timestamp with
      | JStr s => Date_parse host s
      | _ => None
      end in
    match dateFromString with
    | Some _ => false
    | None =>
        if isNaN (parseFloat timestamp) then
          match Date_new host timestamp with
          | Some _ => false
          | None => true
          end
        else false
    end.

(** A base trace carries markers of its own; the overlay of a smoother
    has none. *)
Definition is_base_trace {num : Type} (t : Trace num) : bool :=
  match marker_color t with
  | Some _ => true
  | None => false
  end.

(** ** Notions for the entries of a trace *)



(** Values relative to the first of them, where [relativeToZero] is
    set. *)
Definition rebased {num : Type} `{JsNumber num} (st : Settings)
  (ys : list num) : list num :=
  if relativeToZero st then
    match ys with
    | [] => []
    | first :: _ => map (fun v => (v - first)%js) ys
    end
  else ys.






(** A finite Number in its binary64 representation: zero, or a mantissa
    and an exponent in canonical form. *)
Definition finite_number (x : F64.t) : bool :=
  F64.is_finite x && valid_binary F64.prec F64.emax x.

(** The value of a finite Number in units of [2^-1074], the smallest
    positive Number. *)
Definition scaled (x : F64.t) : Z :=
  match x with
  | S754_finite s m e =>
      let v := Zpos m * 2 ^ (e + 1074) in if s then - v else v
  | _ => 0
  end.

(** The mantissa and the exponent of the Number of a positive integer
    below [2^53]: the integer shifted to 53 bits. *)
Definition integer_mantissa (p : positive) : positive :=
  Z.to_pos (Zpos p * 2 ^ (53 - Zpos (digits2_pos p))).

Definition integer_exponent (p : positive) : Z :=
  Zpos (digits2_pos p) - 53.

(** * Properties *)

(** ** TimestampNormalizer *)

Section TimestampProperties.
Context {num : Type} `{JsNumber num}.
Variable host : Host.

(** A truthy value that is no date string and reads as a Number goes
    through the numeric branch. *)
Lemma convertTimestamp_numeric (v : jsval num) :
  truthy v = true ->
  (forall s, v = JStr s -> Date_parse host s = None) ->
  isNaN (parseFloat v) = false ->
  convertTimestamp host v = convertNumeric (parseFloat v).
Proof.
  intros Ht Hs Hn. unfold convertTimestamp. rewrite Ht. simpl.
  destruct v as [| | n | s]; simpl in *; try discriminate.
  - rewrite Hn. reflexivity.
  - rewrite (Hs s eq_refl). rewrite Hn. reflexivity.
Qed.
End TimestampProperties.

(** C4. A numeric timestamp below 1000000000 is read as GPS seconds since
    1980-01-06T00:00:00Z, one below 10000000000 as Unix seconds, any other
    as Unix milliseconds; 999999999 is GPS seconds, 1000000000 and
    9999999999 are Unix seconds, 10000000000 is Unix milliseconds. *)
Theorem convertTimestamp_thresholds :
  (forall (num : Type) (N : JsNumber num) (host : Host) (v : jsval num),
      truthy v = true ->
      (forall s, v = JStr s -> Date_parse host s = None) ->
      isNaN (parseFloat v) = false ->
      let n := parseFloat v in
      ((n <? of_Z 1000000000)%js = true ->
       convertTimestamp host v
       = Date_of_number (of_Z gpsEpoch + n * of_Z 1000)%js)
      /\ ((n <? of_Z 1000000000)%js = false ->
          (n <? of_Z 10000000000)%js = true ->
          convertTimestamp host v = Date_of_number (n * of_Z 1000)%js)
      /\ ((n <? of_Z 1000000000)%js = false ->
          (n <? of_Z 10000000000)%js = false ->
          convertTimestamp host v = Date_of_number n))
  /\ gpsEpoch = 315964800000
  /\ (forall host : Host,
         convertTimestamp host (JNum (of_Z 999999999 : F64.t))
         = Some (gpsEpoch + 999999999 * 1000)
         /\ convertTimestamp host (JNum (of_Z 1000000000 : F64.t))
            = Some (1000000000 * 1000)
         /\ convertTimestamp host (JNum (of_Z 9999999999 : F64.t))
            = Some (9999999999 * 1000)
         /\ convertTimestamp host (JNum (of_Z 10000000000 : F64.t))
            = Some 10000000000).
Proof.
  split; [| split; [reflexivity |]].
  - intros num N host v Ht Hs Hn n.
    pose proof (convertTimestamp_numeric host v Ht Hs Hn) as E.
    fold n in E. rewrite E. unfold convertNumeric.
    repeat split; intros; repeat match goal with
      | K : _ = _ :> bool |- _ => rewrite K; clear K end; reflexivity.
  - intros host. repeat split; vm_compute; reflexivity.
Qed.

(** The cell ["999999999"] on a host that reads no date in it. *)
Lemma convertTimestamp_thresholds_witness :
  convertTimestamp SampleHost.host (JStr "999999999" : jsval F64.t)
  = Some 1315964799000.
Proof.
  pose proof convertTimestamp_thresholds as [G _].
  specialize (G F64.t _ SampleHost.host (JStr "999999999")).
  destruct G as [G _].
  - reflexivity.
  - intros s E. injection E as <-. reflexivity.
  - reflexivity.
  - rewrite G; reflexivity.
Defined.

(** ** Sorting *)

Section SortingProperties.
Context {num : Type} `{JsNumber num}.

Lemma insert_sorted_Permutation (a : num) (l : list num) :
  Permutation (insert_sorted a l) (a :: l).
Proof.
  induction l as [| b l IH]; simpl; [reflexivity |].
  destruct (sorts_after a b); [| reflexivity].
  rewrite IH. apply perm_swap.
Qed.

(** The sorted copy holds the entries of the array, each as often. *)
Lemma sort_numbers_Permutation (data : list num) :
  Permutation (sort_numbers data) data.
Proof.
  induction data as [| a data IH]; simpl; [reflexivity |].
  rewrite insert_sorted_Permutation. now rewrite IH.
Qed.

Lemma sort_numbers_length (data : list num) :
  length (sort_numbers data) = length data.
Proof. apply Permutation_length, sort_numbers_Permutation. Qed.
End SortingProperties.

(** On rationals the comparator is the order, and the sorted copy
    ascends. *)
Lemma sorts_after_rat (p q : Q) :
  sorts_after (Exact.XRat p) (Exact.XRat q) = true <-> (q < p)%Q.
Proof.
  unfold sorts_after. cbn. unfold Exact.lt. cbn.
  change (Qred (inject_Z 0 * 1)) with 0%Q.
  destruct (Qcompare_spec 0 (Qred (p - q))) as [E | L | G];
    rewrite ?Qred_correct in *; split; intros K;
    try discriminate; try reflexivity; lra.
Qed.

Lemma insert_sorted_rat (p : Q) (qs : list Q) :
  exists rs, insert_sorted (Exact.XRat p) (map Exact.XRat qs)
             = map Exact.XRat rs
             /\ Permutation rs (p :: qs)
             /\ (StronglySorted Qle qs -> StronglySorted Qle rs).
Proof.
  induction qs as [| q qs (rs & E & P & S)].
  - exists [p]. repeat split; auto. repeat constructor.
  - cbn [map insert_sorted].
    destruct (sorts_after (Exact.XRat p) (Exact.XRat q)) eqn:A.
    + exists (q :: rs). rewrite E. split; [reflexivity |]. split.
      * rewrite P. apply perm_swap.
      * intros Hs. apply StronglySorted_inv in Hs as [Hs Hq].
        constructor; [auto |].
        apply sorts_after_rat in A.
        rewrite P. constructor; [lra | exact Hq].
    + exists (p :: q :: qs). repeat split; auto.
      intros Hs. constructor; [exact Hs |].
      assert (p <= q)%Q as L.
      { destruct (Qlt_le_dec q p) as [K | K]; [| exact K].
        apply sorts_after_rat in K. congruence. }
      apply StronglySorted_inv in Hs as [_ Hq].
      constructor; [exact L |].
      eapply Forall_impl; [exact Hq |]. cbn. intros; lra.
Qed.

Lemma sort_numbers_rat (qs : list Q) :
  exists rs, sort_numbers (map Exact.XRat qs) = map Exact.XRat rs
             /\ Permutation rs qs /\ StronglySorted Qle rs.
Proof.
  induction qs as [| q qs (rs & E & P & S)].
  - exists []. repeat split; auto. constructor.
  - cbn [map sort_numbers foldr].
    change (foldr insert_sorted [] (map Exact.XRat qs))
      with (sort_numbers (map Exact.XRat qs)).
    rewrite E.
    destruct (insert_sorted_rat q rs) as (rs' & E' & P' & S').
    exists rs'. split; [exact E' |]. split; [| auto].
    rewrite P'. now constructor.
Qed.

(** ** StatisticsEngine *)

(** C9. The median of a non-empty array is the entry at index
    [floor(N/2)] of the ascending-sorted copy, rendered by [toFixed(4)]:
    the upper of the two middle entries for an even [N], so 3 and not 2.5
    for [1,2,3,4].  For the empty array every field is 0 and the count
    is 0. *)
Theorem calculateStatistics_median :
  (forall (num : Type) (N : JsNumber num) (M : JsMath num)
          (d : num) (data : list num),
      let sorted := sort_numbers (d :: data) in
      stat_median (calculateStatistics (d :: data))
      = JStr (toFixed (at_index sorted (length (d :: data) / 2)) 4)
      /\ Permutation sorted (d :: data)
      /\ stat_count (calculateStatistics (d :: data)) = length (d :: data))
  /\ (forall qs : list Q,
         exists rs, sort_numbers (map Exact.XRat qs) = map Exact.XRat rs
                    /\ StronglySorted Qle rs)
  /\ (let data : list F64.t := map of_Z [1; 2; 3; 4] in
      sort_numbers data = data
      /\ at_index (sort_numbers data) (length data / 2) = of_Z 3
      /\ stat_median (calculateStatistics data) = JStr "3.0000"
      /\ stat_median (calculateStatistics data) <> JStr "2.5000")
  /\ (forall (num : Type) (N : JsNumber num) (M : JsMath num),
         calculateStatistics (@nil num)
         = {| stat_mean := JNum zero; stat_stdDev := JNum zero;
              stat_min := JNum zero; stat_max := JNum zero;
              stat_median := JNum zero; stat_count := 0 |}).
Proof.
  split; [| split; [| split]].
  - intros num N M d data sorted. split; [| split].
    + cbn [calculateStatistics stat_median]. unfold sorted.
      now rewrite sort_numbers_length.
    + apply sort_numbers_Permutation.
    + reflexivity.
  - intros qs. destruct (sort_numbers_rat qs) as (rs & E & _ & S).
    exists rs. auto.
  - cbv zeta. repeat split; try (vm_compute; reflexivity).
    vm_compute. discriminate.
  - reflexivity.
Qed.

(** ** ZeroBaseliner *)

(** C10. [Number("")] and [Number(null)] are 0, which is not NaN: a
    sequence that starts with the empty string or with [null] has that
    entry as its baseline, of value 0, and the entry itself becomes the
    Number 0. *)
Theorem makeRelativeToZero_empty_string_null :
  forall (v : jsval F64.t) (rest : list (jsval F64.t)),
    v = JStr "" \/ v = JNull ->
    Number v = zero
    /\ isNaN (Number v) = false
    /\ firstValid (v :: rest) = Some zero
    /\ makeRelativeToZero (v :: rest)
       = JNum zero
         :: map (fun val => if isNaN (Number val) then val
                            else JNum (Number val - zero)%js) rest.
Proof.
  intros v rest [-> | ->]; repeat split.
Qed.

Lemma makeRelativeToZero_empty_string_null_witness :
  makeRelativeToZero [JStr ""; JStr "5"; JStr "n/a"; JNull]
  = [JNum (zero : F64.t); JNum (of_Z 5); JStr "n/a"; JNum zero].
Proof.
  pose proof (makeRelativeToZero_empty_string_null
                (JStr "") [JStr "5"; JStr "n/a"; JNull] (or_introl eq_refl))
    as (_ & _ & _ & E).
  rewrite E. vm_compute. reflexivity.
Defined.

(** ** PatternDetector: outliers *)

Section OutlierProperties.
Context {num : Type} `{JsNumber num}.

(** An entry is kept by a filter over the indexed array exactly when it is
    the entry made at some index and passes the test. *)
Lemma elem_of_filter_imap {A B : Type} (mk : nat -> A -> B) (keep : B -> bool)
  (l : list A) (b : B) :
  b ∈ List.filter keep (imap mk l)
  <-> exists i a, l !! i = Some a /\ b = mk i a /\ keep b = true.
Proof.
  rewrite list_elem_of_In, filter_In, <- list_elem_of_In.
  rewrite elem_of_lookup_imap. split.
  - intros [(i & a & -> & Hl) K]. eauto.
  - intros (i & a & Hl & -> & K). eauto.
Qed.

Lemma filter_imap_indices {A B : Type} (mk : nat -> A -> B)
  (index : B -> nat) (keep : B -> bool) (l : list A) (k : nat) :
  (forall i a, index (mk i a) = i) ->
  StronglySorted lt
    (map index (List.filter keep (imap (fun i => mk (k + i)%nat) l)))
  /\ Forall (fun i => (k <= i)%nat)
       (map index (List.filter keep (imap (fun i => mk (k + i)%nat) l))).
Proof.
  intros Hi. revert k. induction l as [| a l IH]; intros k.
  - cbn. split; constructor.
  - rewrite imap_cons.
    assert (imap ((fun i => mk (k + i)%nat) ∘ S) l
            = imap (fun i => mk (S k + i)%nat) l) as ->.
    { apply imap_ext. intros i x _. cbn. f_equal. lia. }
    destruct (IH (S k)) as [S1 F1].
    cbn [List.filter]. destruct (keep (mk (k + 0)%nat a)).
    + cbn [map]. rewrite Hi. split.
      * constructor; [exact S1 |].
        eapply Forall_impl; [exact F1 |]. cbn. intros; lia.
      * constructor; [lia |].
        eapply Forall_impl; [exact F1 |]. cbn. intros; lia.
    + split; [exact S1 |].
      eapply Forall_impl; [exact F1 |]. cbn. intros; lia.
Qed.

Lemma detectOutliers_short (values : list num) :
  (length values < 4)%nat -> detectOutliers values = [].
Proof.
  intros L. unfold detectOutliers.
  destruct (Nat.ltb_spec (length values) 4) as [_ | K]; [reflexivity | lia].
Qed.

Lemma detectOutliers_long (values : list num) :
  (4 <= length values)%nat ->
  let sorted := sort_numbers values in
  let q1 := at_index sorted (q1_index (length values)) in
  let q3 := at_index sorted (q3_index (length values)) in
  detectOutliers values
  = List.filter (fun item => isOutlier item)
      (imap (fun idx val =>
               {| out_index := idx; out_value := val;
                  isOutlier := (val <? lowerBound_of q1 q3)%js
                               || (val >? upperBound_of q1 q3)%js |})
            values).
Proof.
  intros L. cbv zeta. unfold detectOutliers.
  destruct (Nat.ltb_spec (length values) 4) as [K | _]; [lia |].
  now rewrite sort_numbers_length.
Qed.
End OutlierProperties.

Lemma quartile_indices (n : nat) :
  Z.of_nat (q1_index n) = Qfloor ((1 # 4) * inject_Z (Z.of_nat n))
  /\ Z.of_nat (q3_index n) = Qfloor ((3 # 4) * inject_Z (Z.of_nat n)).
Proof.
  unfold q1_index, q3_index, Qfloor.
  rewrite !Nat2Z.inj_div, Nat2Z.inj_mul.
  unfold Qmult, inject_Z, Qnum, Qden.
  split; f_equal; lia.
Qed.

(** ** ZeroBaseliner: the two policies *)

Section BaselinerProperties.
Context {num : Type} `{JsNumber num}.

Lemma makeRelativeToZero_unfold (values : list (jsval num)) (b : num) :
  firstValid values = Some b ->
  makeRelativeToZero values
  = map (fun val => if isNaN (Number val) then val
                    else JNum (Number val - b)%js) values.
Proof.
  intros E. unfold makeRelativeToZero.
  destruct values; [discriminate |]. now rewrite E.
Qed.

Lemma makeRelativeToZero_no_valid (values : list (jsval num)) :
  firstValid values = None -> makeRelativeToZero values = values.
Proof.
  intros E. unfold makeRelativeToZero.
  destruct values; [reflexivity |]. now rewrite E.
Qed.

Lemma inlineRelativeToZero_unfold (ys : list num) (b : num) :
  firstValid (map JNum ys) = Some b ->
  inlineRelativeToZero ys
  = map (fun val => if isNaN val then zero else (val - b)%js) ys.
Proof.
  intros E. unfold inlineRelativeToZero.
  destruct ys; [discriminate |]. now rewrite E.
Qed.

Lemma inlineRelativeToZero_no_valid (ys : list num) :
  firstValid (map JNum ys) = None -> inlineRelativeToZero ys = ys.
Proof.
  intros E. unfold inlineRelativeToZero.
  destruct ys; [reflexivity |]. now rewrite E.
Qed.

Lemma makeRelativeToZero_length (values : list (jsval num)) :
  length (makeRelativeToZero values) = length values.
Proof.
  destruct (firstValid values) as [b |] eqn:E.
  - rewrite (makeRelativeToZero_unfold _ _ E). apply length_map.
  - now rewrite makeRelativeToZero_no_valid.
Qed.

Lemma inlineRelativeToZero_length (ys : list num) :
  length (inlineRelativeToZero ys) = length ys.
Proof.
  destruct (firstValid (map JNum ys)) as [b |] eqn:E.
  - rewrite (inlineRelativeToZero_unfold _ _ E). apply length_map.
  - now rewrite inlineRelativeToZero_no_valid.
Qed.

Lemma inlineRelativeToFirst_length (ys : list num) :
  length (inlineRelativeToFirst ys) = length ys.
Proof.
  unfold inlineRelativeToFirst. destruct ys as [| a ys]; [reflexivity |].
  destruct (isNaN (Number (JNum a))); [reflexivity | apply length_map].
Qed.

(** The loop stops at the first entry that reads as a Number: the entries
    before it do not, and its Number is the value found. *)
Lemma firstValid_first (values : list (jsval num)) (k : nat)
  (v0 : jsval num) :
  values !! k = Some v0 ->
  isNaN (Number v0) = false ->
  (forall j w, (j < k)%nat -> values !! j = Some w ->
               isNaN (Number w) = true) ->
  firstValid values = Some (Number v0).
Proof.
  revert k. induction values as [| v values IH]; intros k Hk Hv Hbefore.
  - now rewrite lookup_nil in Hk.
  - destruct k as [| k]; cbn in Hk.
    + injection Hk as ->. cbn [firstValid]. now rewrite Hv.
    + cbn [firstValid].
      rewrite (Hbefore 0%nat v) by (cbn; first [lia | reflexivity]).
      apply (IH k Hk Hv). intros j w Hj Hw.
      apply (Hbefore (S j) w); [lia | exact Hw].
Qed.

Lemma firstValid_Some (values : list (jsval num)) (b : num) :
  firstValid values = Some b ->
  exists (k : nat) (v0 : jsval num),
    values !! k = Some v0 /\ Number v0 = b /\ isNaN b = false
    /\ forall j w, (j < k)%nat -> values !! j = Some w ->
                   isNaN (Number w) = true.
Proof.
  induction values as [| v values IH]; [discriminate |].
  cbn [firstValid]. destruct (isNaN (Number v)) eqn:Hv.
  - intros E. destruct (IH E) as (k & v0 & Hk & Hb & Hn & Hbefore).
    exists (S k), v0. repeat split; auto.
    intros j w Hj Hw. destruct j as [| j]; cbn in Hw.
    + now injection Hw as <-.
    + apply (Hbefore j w); [lia | exact Hw].
  - intros E. injection E as <-. exists 0%nat, v. repeat split; auto.
    intros j w Hj. lia.
Qed.

Lemma firstValid_None (values : list (jsval num)) :
  firstValid values = None
  <-> forall w, w ∈ values -> isNaN (Number w) = true.
Proof.
  induction values as [| v values IH]; cbn [firstValid].
  - split; [intros _ w K; now apply elem_of_nil in K | reflexivity].
  - destruct (isNaN (Number v)) eqn:Hv.
    + rewrite IH. split.
      * intros K w Hw. apply elem_of_cons in Hw as [-> | Hw]; auto.
      * intros K w Hw. apply K. now right.
    + split; [discriminate |]. intros K.
      rewrite (K v) in Hv by left. discriminate Hv.
Qed.
End BaselinerProperties.

(** C6. The standalone [makeRelativeToZero] returns an entry that is not
    numeric as it is and shifts a numeric one by the first valid value,
    the Number of the first entry that reads as one; the step written
    inside [chartData] for the single-axis traces shifts in the same way
    and puts 0 in the place of an entry that is not numeric.  Without a
    valid entry either of them leaves the array as it is, which the step
    inside [chartData] never meets: it runs on a non-empty array without
    NaN, whose first valid value is its first entry.  The single-axis
    traces are built with the inline step, the ungrouped dual-axis traces
    with the standalone function. *)
Theorem baselining_policies :
  forall (num : Type) (N : JsNumber num),
    (forall (values : list (jsval num)) (k i : nat) (v0 v : jsval num),
        values !! k = Some v0 ->
        isNaN (Number v0) = false ->
        (forall j w, (j < k)%nat -> values !! j = Some w ->
                     isNaN (Number w) = true) ->
        values !! i = Some v ->
        firstValid values = Some (Number v0)
        /\ makeRelativeToZero values !! i
           = Some (if isNaN (Number v) then v
                   else JNum (Number v - Number v0)%js))
    /\ (forall (ys : list num) (k i : nat) (y0 v : num),
           ys !! k = Some y0 ->
           isNaN y0 = false ->
           (forall j w, (j < k)%nat -> ys !! j = Some w -> isNaN w = true) ->
           ys !! i = Some v ->
           firstValid (map JNum ys) = Some y0
           /\ inlineRelativeToZero ys !! i
              = Some (if isNaN v then zero else (v - y0)%js))
    /\ (forall values : list (jsval num),
           (forall w, w ∈ values -> isNaN (Number w) = true) ->
           firstValid values = None /\ makeRelativeToZero values = values)
    /\ (forall ys : list num,
           (forall w, w ∈ ys -> isNaN w = true) ->
           firstValid (map JNum ys) = None /\ inlineRelativeToZero ys = ys)
    /\ (forall (values : list (jsval num)) (b : num),
           firstValid values = Some b ->
           exists (k : nat) (v0 : jsval num),
             values !! k = Some v0 /\ Number v0 = b /\ isNaN b = false
             /\ forall j w, (j < k)%nat -> values !! j = Some w ->
                            isNaN (Number w) = true)
    /\ (forall (rows : list Row) (col : string) (first : num)
               (rest : list num),
           numeric_column rows col = first :: rest ->
           firstValid (map JNum (first :: rest)) = Some first
           /\ forall w, w ∈ first :: rest -> isNaN w = false)
    /\ (forall (host : Host) (st : Settings) (rows : list Row),
           relativeToZero st = true ->
           y <$> head (single_traces host st rows)
           = Some (map JNum (inlineRelativeToZero
                               (numeric_column rows (selectedY st))))
           /\ y <$> head (dual_traces host st rows)
              = Some (makeRelativeToZero
                        (map JNum (numeric_column rows (selectedY st))))
           /\ forall (colorIndex : nat) (groupName : string),
               rows <> [] ->
               numeric_column (num := num) rows (selectedY st) <> [] ->
               y <$> head (fst (group_traces host st colorIndex groupName rows))
               = Some (map JNum (inlineRelativeToZero
                                   (numeric_column rows (selectedY st))))).
Proof.
  intros num N.
  split; [| split; [| split; [| split; [| split; [| split]]]]].
  - intros values k i v0 v Hk Hv Hbefore L.
    pose proof (firstValid_first values k v0 Hk Hv Hbefore) as E.
    split; [exact E |].
    rewrite (makeRelativeToZero_unfold _ _ E), list_lookup_fmap, L.
    reflexivity.
  - intros ys k i y0 v Hk Hv Hbefore L.
    assert (firstValid (map JNum ys) = Some y0) as E.
    { apply (firstValid_first (map JNum ys) k (JNum y0)).
      - change (map JNum ys) with (JNum <$> ys).
        now rewrite list_lookup_fmap, Hk.
      - exact Hv.
      - intros j w Hj Hw. change (map JNum ys) with (JNum <$> ys) in Hw.
        rewrite list_lookup_fmap in Hw.
        destruct (ys !! j) as [u |] eqn:Hu; [| discriminate].
        injection Hw as <-. exact (Hbefore j u Hj Hu). }
    split; [exact E |].
    rewrite (inlineRelativeToZero_unfold _ _ E), list_lookup_fmap, L.
    reflexivity.
  - intros values Hall. apply firstValid_None in Hall.
    split; [exact Hall | now apply makeRelativeToZero_no_valid].
  - intros ys Hall.
    assert (firstValid (map JNum ys) = None) as E.
    { apply firstValid_None. intros w Hw.
      apply list_elem_of_fmap in Hw as (u & -> & Hu). now apply Hall. }
    split; [exact E | now apply inlineRelativeToZero_no_valid].
  - intros values b. apply firstValid_Some.
  - intros rows col first rest E.
    assert (forall w, w ∈ first :: rest -> isNaN w = false) as Hv.
    { intros w Hw. rewrite <- E in Hw. unfold numeric_column in Hw.
      apply list_elem_of_In, filter_In in Hw as [_ Hw].
      now apply negb_true_iff in Hw. }
    split; [| exact Hv].
    cbn [map firstValid Number]. now rewrite (Hv first) by left.
  - intros host st rows R. split; [| split].
    + unfold single_traces. rewrite R. cbn [andb].
      destruct (numeric_column rows (selectedY st)) as [| a ys] eqn:E.
      * cbn. destruct (showSmooth st && _); reflexivity.
      * cbn [length Nat.ltb Nat.leb].
        destruct (showSmooth st && _); reflexivity.
    + unfold dual_traces. rewrite R. reflexivity.
    + intros colorIndex groupName Hr Hy. unfold group_traces.
      destruct rows as [| r rows]; [congruence |].
      destruct (numeric_column (r :: rows) (selectedY st)) as [| a ys] eqn:E;
        [congruence |].
      rewrite R. unfold xValues_of. cbn [map length Nat.ltb Nat.leb andb].
      reflexivity.
Qed.

(** A string that is no number, then 5, 7 and another such string: the
    first valid value is 5; 7 becomes 2; the strings stay in the result
    of the standalone function, and their NaN becomes 0 in the inline
    step. *)
Lemma baselining_policies_witness :
  (let values := [JStr "n/a"; JNum (of_Z 5 : F64.t); JStr "7"; JStr "x"] in
   firstValid values = Some (of_Z 5)
   /\ makeRelativeToZero values
      = [JStr "n/a"; JNum zero; JNum (of_Z 2); JStr "x"])
  /\ (let ys := [nan; of_Z 5 : F64.t; of_Z 7; nan] in
      inlineRelativeToZero ys = [zero; zero; of_Z 2; zero]).
Proof.
  pose proof (baselining_policies F64.t _) as (G1 & G2 & _).
  assert (forall (A : Type) (l k : list A),
             length l = length k ->
             (forall i, (i < length l)%nat -> l !! i = k !! i) -> l = k)
    as Hext.
  { intros A l k Hlen Hi. apply list_eq. intros i.
    destruct (Nat.lt_ge_cases i (length l)) as [L | L]; [now apply Hi |].
    rewrite !lookup_ge_None_2 by lia. reflexivity. }
  split.
  - cbv zeta.
    set (values := [JStr "n/a"; JNum (of_Z 5 : F64.t); JStr "7"; JStr "x"]).
    assert (forall i v, values !! i = Some v ->
              firstValid values = Some (of_Z 5)
              /\ makeRelativeToZero values !! i
                 = Some (if isNaN (Number v) then v
                         else JNum (Number v - of_Z 5)%js)) as G.
    { intros i v Hv.
      apply (G1 values 1%nat i (JNum (of_Z 5)) v);
        [reflexivity | reflexivity | | exact Hv].
      intros j w Hj Hw. destruct j as [| j]; [| lia].
      injection Hw as <-. reflexivity. }
    split; [exact (proj1 (G 0%nat (JStr "n/a") eq_refl)) |].
    apply Hext; [now rewrite makeRelativeToZero_length |].
    rewrite makeRelativeToZero_length. intros i Hi.
    destruct i as [| [| [| [| i]]]]; [| | | | cbn in Hi; lia].
    + now rewrite (proj2 (G 0%nat (JStr "n/a") eq_refl)).
    + now rewrite (proj2 (G 1%nat (JNum (of_Z 5)) eq_refl)).
    + now rewrite (proj2 (G 2%nat (JStr "7") eq_refl)).
    + now rewrite (proj2 (G 3%nat (JStr "x") eq_refl)).
  - cbv zeta. set (ys := [nan; of_Z 5 : F64.t; of_Z 7; nan]).
    assert (forall i v, ys !! i = Some v ->
              inlineRelativeToZero ys !! i
              = Some (if isNaN v then zero else (v - of_Z 5)%js)) as G.
    { intros i v Hv.
      apply (G2 ys 1%nat i (of_Z 5) v);
        [reflexivity | reflexivity | | exact Hv].
      intros j w Hj Hw. destruct j as [| j]; [| lia].
      injection Hw as <-. reflexivity. }
    apply Hext; [now rewrite inlineRelativeToZero_length |].
    rewrite inlineRelativeToZero_length. intros i Hi.
    destruct i as [| [| [| [| i]]]]; [| | | | cbn in Hi; lia].
    + now rewrite (G 0%nat nan eq_refl).
    + now rewrite (G 1%nat (of_Z 5) eq_refl).
    + now rewrite (G 2%nat (of_Z 7) eq_refl).
    + now rewrite (G 3%nat nan eq_refl).
Defined.

(** ** Smoother: the time window *)

Section TimeWindowProperties.
Context {num : Type} `{JsNumber num}.

(** A filter that also bounds the index keeps what the test keeps in the
    prefix up to the bound. *)
Lemma filter_index_prefix {A : Type} (g : A -> bool) (idx k : nat)
  (l : list A) :
  filter_index (fun pIdx p => (pIdx <=? idx)%nat && g p) k l
  = List.filter g (take (S idx - k) l).
Proof.
  revert k. induction l as [| a l IH]; intros k.
  - now rewrite take_nil.
  - cbn [filter_index]. rewrite IH.
    destruct (Nat.leb_spec k idx) as [L | L].
    + replace (S idx - k)%nat with (S (S idx - S k)) by lia.
      cbn [take List.filter andb]. reflexivity.
    + replace (S idx - k)%nat with O by lia.
      replace (S idx - S k)%nat with O by lia.
      reflexivity.
Qed.

Lemma windowPoints_prefix (dataPoints : list (SeriesPoint num))
  (hoursWindow : Z) (idx : nat) (point : SeriesPoint num) :
  windowPoints dataPoints hoursWindow idx point
  = List.filter
      (fun p => (getTime (timestamp p)
                 >=? getTime (timestamp point) - window_ms hoursWindow)%js)
      (take (S idx) dataPoints).
Proof.
  unfold windowPoints. rewrite filter_index_prefix.
  now rewrite Nat.sub_0_r.
Qed.

Lemma closedWindowPoints_prefix (dataPoints : list (SeriesPoint num))
  (hoursWindow : Z) (idx : nat) (point : SeriesPoint num) :
  closedWindowPoints dataPoints hoursWindow idx point
  = List.filter
      (fun p => (getTime (timestamp p)
                 >=? getTime (timestamp point) - window_ms hoursWindow)%js
                && (getTime (timestamp p) <=? getTime (timestamp point))%js)
      (take (S idx) dataPoints).
Proof.
  unfold closedWindowPoints.
  rewrite <- (Nat.sub_0_r (S idx)), <- filter_index_prefix.
  generalize 0%nat. induction dataPoints as [| a l IH]; intros k;
    [reflexivity |].
  cbn [filter_index]. rewrite IH, andb_assoc. reflexivity.
Qed.

Lemma filter_ext_elem {A : Type} (f g : A -> bool) (l : list A) :
  (forall a, a ∈ l -> f a = g a) -> List.filter f l = List.filter g l.
Proof.
  induction l as [| a l IH]; intros E; [reflexivity |].
  cbn. rewrite (E a) by left. rewrite IH; [reflexivity |].
  intros b Hb. apply E. now right.
Qed.
End TimeWindowProperties.

(** C3, as amended.  The output of the time-based smoother is as long as
    the input.  Its entry at index [i] is the mean of the values at the
    indices [j <= i] whose instant is at least
    [instant_i - hours * 60 * 60 * 1000]: a point at a later index never
    contributes, and no upper bound on the instant is tested.  Where no
    point up to [i] has an instant after [instant_i], this is the closed
    interval of the specification. *)
Theorem timeBasedMovingAverage_window :
  forall (num : Type) (N : JsNumber num)
         (dataPoints : list (SeriesPoint num)) (hoursWindow : Z),
    length (timeBasedMovingAverage dataPoints hoursWindow)
    = length dataPoints
    /\ forall (i : nat) (point : SeriesPoint num),
        dataPoints !! i = Some point ->
        let windowStart :=
          (getTime (timestamp point) - window_ms hoursWindow)%js in
        let window :=
          List.filter
            (fun p => (getTime (timestamp p) >=? windowStart)%js)
            (take (S i) dataPoints) in
        timeBasedMovingAverage dataPoints hoursWindow !! i
        = Some (match window with
                | [] => value_js point
                | _ :: _ => JNum (mean_of (map value_number window))
                end)
        /\ ((forall p, p ∈ take (S i) dataPoints ->
                       (getTime (timestamp p)
                        <=? getTime (timestamp point))%js = true) ->
            timeBasedMovingAverage dataPoints hoursWindow !! i
            = timeBasedClosedInterval dataPoints hoursWindow !! i).
Proof.
  intros num N dataPoints hoursWindow. split.
  - apply length_imap.
  - intros i point L windowStart window.
    unfold timeBasedMovingAverage, timeBasedClosedInterval.
    rewrite !list_lookup_imap, L. cbn [fmap option_fmap option_map].
    rewrite windowPoints_prefix, closedWindowPoints_prefix.
    fold windowStart. fold window. split; [reflexivity |].
    intros Hle. f_equal.
    assert (List.filter
              (fun p => (getTime (timestamp p) >=? windowStart)%js
                        && (getTime (timestamp p)
                            <=? getTime (timestamp point))%js)
              (take (S i) dataPoints) = window) as ->.
    { apply filter_ext_elem. intros p Hp.
      rewrite (Hle p Hp). apply andb_true_r. }
    reflexivity.
Qed.

(** Three hourly points and a window of one hour. *)
Lemma timeBasedMovingAverage_window_witness :
  timeBasedMovingAverage
    [ {| timestamp := Some 0; value := Some (of_Z 10 : F64.t) |};
      {| timestamp := Some 3600000; value := Some (of_Z 20) |};
      {| timestamp := Some 7200000; value := Some (of_Z 60) |} ] 1
  !! 2%nat
  = Some (JNum (of_Z 40)).
Proof.
  pose proof (timeBasedMovingAverage_window F64.t _
                [ {| timestamp := Some 0; value := Some (of_Z 10 : F64.t) |};
                  {| timestamp := Some 3600000; value := Some (of_Z 20) |};
                  {| timestamp := Some 7200000; value := Some (of_Z 60) |} ]
                1) as [_ G].
  destruct (G 2%nat {| timestamp := Some 7200000; value := Some (of_Z 60) |}
              eq_refl) as [E _].
  rewrite E. vm_compute. reflexivity.
Defined.

(** C3 as stated fails: an earlier row with a later instant contributes.
    The second point, at instant 0, has the first point, two hours later,
    in its window of one hour: the output there is 50, the mean over the
    closed interval is 0. *)
Lemma timeBasedMovingAverage_later_instant :
  let dataPoints :=
    [ {| timestamp := Some 7200000; value := Some (of_Z 100 : F64.t) |};
      {| timestamp := Some 0; value := Some (of_Z 0) |} ] in
  timeBasedMovingAverage dataPoints 1 = [JNum (of_Z 100); JNum (of_Z 50)]
  /\ timeBasedClosedInterval dataPoints 1 = [JNum (of_Z 100); JNum (of_Z 0)]
  /\ timeBasedMovingAverage dataPoints 1
     <> timeBasedClosedInterval dataPoints 1.
Proof.
  cbv zeta. split; [| split].
  - vm_compute. reflexivity.
  - vm_compute. reflexivity.
  - vm_compute. discriminate.
Qed.

(** ** PatternDetector: the statistics it reads *)

Section PatternProperties.
Context {num : Type} `{JsNumber num} `{JsMath num}.

Lemma detectDataPatterns_step_other (data : list Row)
  (columns : list string) (acc : gmap string (Pattern num)) (col : string) :
  col ∉ columns \/ numeric_column data col = [] ->
  fold_left
    (fun patterns c =>
       match numeric_column data c with
       | [] => patterns
       | _ :: _ => <[c := pattern_of (numeric_column data c)]> patterns
       end) columns acc !! col
  = acc !! col.
Proof.
  revert acc. induction columns as [| c cs IH]; intros acc Hc;
    [reflexivity |].
  cbn [fold_left]. rewrite IH.
  - destruct (numeric_column data c) eqn:E; [reflexivity |].
    apply lookup_insert_ne. intros ->.
    destruct Hc as [Hc | Hc]; [| congruence].
    apply Hc. left.
  - destruct Hc as [Hc | Hc]; [left | now right].
    intros K. apply Hc. now right.
Qed.

Lemma detectDataPatterns_step_member (data : list Row)
  (columns : list string) (acc : gmap string (Pattern num)) (col : string) :
  col ∈ columns -> numeric_column data col <> [] ->
  fold_left
    (fun patterns c =>
       match numeric_column data c with
       | [] => patterns
       | _ :: _ => <[c := pattern_of (numeric_column data c)]> patterns
       end) columns acc !! col
  = Some (pattern_of (numeric_column data col)).
Proof.
  revert acc. induction columns as [| c cs IH]; intros acc Hc Hv.
  - now apply elem_of_nil in Hc.
  - cbn [fold_left]. destruct (decide (col ∈ cs)) as [K | K].
    + now apply IH.
    + apply elem_of_cons in Hc as [-> | Hc]; [| contradiction].
      rewrite detectDataPatterns_step_other by now left.
      destruct (numeric_column data c) eqn:E; [congruence |].
      apply lookup_insert_eq.
Qed.

Lemma detectDataPatterns_fold (data : list Row) (columns : list string) :
  detectDataPatterns data columns
  = fold_left
      (fun patterns c =>
         match numeric_column data c with
         | [] => patterns
         | _ :: _ => <[c := pattern_of (numeric_column data c)]> patterns
         end) columns ∅.
Proof.
  reflexivity.
Qed.
End PatternProperties.




(** ** Smoother: the point-count window in exact arithmetic *)

(** The exact Numbers of integers, and the sum and the mean of an array of
    rationals, are the rationals one expects. *)
Lemma Exact_rat_inject (z : Z) :
  Exact.rat (inject_Z z) = Exact.XRat (inject_Z z).
Proof.
  unfold Exact.rat. f_equal. apply Qcanon.Qred_identity. cbn.
  apply Z.gcd_1_r.
Qed.

Lemma Exact_of_Z (z : Z) : (of_Z z : Exact.t) = Exact.XRat (inject_Z z).
Proof.
  rewrite <- Exact_rat_inject. unfold of_Z. cbn.
  unfold Exact.round_decimal, Exact.rat.
  f_equal. apply Qred_complete.
  rewrite N2Z.inj_abs_N. cbn [Qpower].
  destruct (Z.ltb_spec z 0) as [L | L].
  - rewrite Z.abs_neq by lia. unfold Qeq, Qopp, Qmult, inject_Z. cbn. lia.
  - rewrite Z.abs_eq by lia. unfold Qeq, Qmult, inject_Z. cbn. lia.
Qed.

Lemma Exact_zero : (zero : Exact.t) = Exact.XRat 0.
Proof. apply Exact_of_Z. Qed.

Lemma Exact_sum_rat (qs : list Q) (a : Q) :
  exists s, fold_left add (map Exact.XRat qs) (Exact.XRat a) = Exact.XRat s
            /\ (s == a + Qsum qs)%Q.
Proof.
  revert a. induction qs as [| q qs IH]; intros a.
  - exists a. split; [reflexivity |]. change (Qsum []) with 0%Q. ring.
  - cbn [map fold_left]. cbn [add Exact.number Exact.plus]. unfold Exact.rat.
    destruct (IH (Qred (a + q))) as (s & E & Hs).
    exists s. split; [exact E |]. rewrite Hs, Qred_correct.
    change (Qsum (q :: qs)) with (q + Qsum qs)%Q. ring.
Qed.

Lemma Exact_mean_rat (qs : list Q) :
  qs <> [] ->
  exists m, mean_of (map Exact.XRat qs) = Exact.XRat m /\ (m == Qmean qs)%Q.
Proof.
  intros Hne. unfold mean_of, sum_from_zero. rewrite Exact_zero.
  destruct (Exact_sum_rat qs 0) as (s & E & Hs). rewrite E.
  unfold of_nat. rewrite Exact_of_Z, length_map.
  cbn [div Exact.number Exact.quot].
  assert (Exact.is_zero (inject_Z (Z.of_nat (length qs))) = false) as ->.
  { unfold Exact.is_zero. cbn. apply Z.eqb_neq.
    destruct qs; [congruence | cbn; lia]. }
  unfold Exact.rat. eexists. split; [reflexivity |].
  rewrite Qred_correct. unfold Qmean. rewrite Hs, Qplus_0_l. reflexivity.
Qed.

(** Means of rationals. *)
Lemma Qlen_pos (l : list Q) : l <> [] -> (0 < inject_Z (Z.of_nat (length l)))%Q.
Proof.
  destruct l; [congruence |]. intros _. unfold Qlt, inject_Z. cbn. lia.
Qed.

Lemma Qlen_cons (q : Q) (l : list Q) :
  (inject_Z (Z.of_nat (length (q :: l)))
   == 1 + inject_Z (Z.of_nat (length l)))%Q.
Proof.
  replace (Z.of_nat (length (q :: l))) with (1 + Z.of_nat (length l))%Z
    by (cbn [length]; lia).
  now rewrite inject_Z_plus.
Qed.

Lemma Qsum_le (l : list Q) (hi : Q) :
  (forall q, q ∈ l -> q <= hi)%Q ->
  (Qsum l <= inject_Z (Z.of_nat (length l)) * hi)%Q.
Proof.
  induction l as [| q l IH]; intros Hb.
  - change (Qsum []) with 0%Q.
    change (inject_Z (Z.of_nat (length []))) with 0%Q. lra.
  - change (Qsum (q :: l)) with (q + Qsum l)%Q. rewrite Qlen_cons.
    assert (q <= hi)%Q by (apply Hb; now left).
    assert (Qsum l <= inject_Z (Z.of_nat (length l)) * hi)%Q
      by (apply IH; intros; apply Hb; now right).
    lra.
Qed.

Lemma Qsum_ge (l : list Q) (lo : Q) :
  (forall q, q ∈ l -> lo <= q)%Q ->
  (inject_Z (Z.of_nat (length l)) * lo <= Qsum l)%Q.
Proof.
  induction l as [| q l IH]; intros Hb.
  - change (Qsum []) with 0%Q.
    change (inject_Z (Z.of_nat (length []))) with 0%Q. lra.
  - change (Qsum (q :: l)) with (q + Qsum l)%Q. rewrite Qlen_cons.
    assert (lo <= q)%Q by (apply Hb; now left).
    assert (inject_Z (Z.of_nat (length l)) * lo <= Qsum l)%Q
      by (apply IH; intros; apply Hb; now right).
    lra.
Qed.

Lemma Qmean_le (l : list Q) (hi : Q) :
  l <> [] -> (forall q, q ∈ l -> q <= hi)%Q -> (Qmean l <= hi)%Q.
Proof.
  intros Hne Hb. apply Qle_shift_div_r; [now apply Qlen_pos |].
  pose proof (Qsum_le l hi Hb). lra.
Qed.

Lemma Qmean_ge (l : list Q) (lo : Q) :
  l <> [] -> (forall q, q ∈ l -> lo <= q)%Q -> (lo <= Qmean l)%Q.
Proof.
  intros Hne Hb. apply Qle_shift_div_l; [now apply Qlen_pos |].
  pose proof (Qsum_ge l lo Hb). lra.
Qed.

Lemma Qmean_sum (l : list Q) :
  l <> [] -> (Qsum l == Qmean l * inject_Z (Z.of_nat (length l)))%Q.
Proof.
  intros Hne. unfold Qmean. field.
  pose proof (Qlen_pos l Hne). lra.
Qed.

Lemma Qsum_app (l k : list Q) : (Qsum (l ++ k) == Qsum l + Qsum k)%Q.
Proof.
  induction l as [| q l IH]; cbn [app].
  - change (Qsum []) with 0%Q. ring.
  - change (Qsum (q :: l ++ k)) with (q + Qsum (l ++ k))%Q.
    change (Qsum (q :: l)) with (q + Qsum l)%Q. rewrite IH. ring.
Qed.

Lemma Qmean_snoc (l : list Q) (x : Q) :
  l <> [] -> (forall q, q ∈ l -> q <= x)%Q -> (Qmean l <= Qmean (l ++ [x]))%Q.
Proof.
  intros Hne Hb.
  pose proof (Qmean_le l x Hne Hb) as Hm.
  pose proof (Qmean_sum l Hne) as Hs.
  pose proof (Qlen_pos l Hne) as Hn.
  unfold Qmean at 2. rewrite Qsum_app, length_app, Nat2Z.inj_add, inject_Z_plus.
  change (Qsum [x]) with (x + 0)%Q.
  change (inject_Z (Z.of_nat (length [x]))) with 1%Q.
  apply Qle_shift_div_l; [lra |]. rewrite Hs. lra.
Qed.

Lemma Qmean_tail (y : Q) (l : list Q) :
  l <> [] -> (forall q, q ∈ l -> y <= q)%Q -> (Qmean (y :: l) <= Qmean l)%Q.
Proof.
  intros Hne Hb.
  pose proof (Qmean_ge l y Hne Hb) as Hm.
  pose proof (Qmean_sum l Hne) as Hs.
  pose proof (Qlen_pos l Hne) as Hn.
  unfold Qmean at 1. change (Qsum (y :: l)) with (y + Qsum l)%Q.
  rewrite Qlen_cons.
  apply Qle_shift_div_r; [lra |]. rewrite Hs. lra.
Qed.

Lemma sorted_lookup (qs : list Q) :
  StronglySorted Qle qs ->
  forall (i j : nat) (a b : Q),
    (i <= j)%nat -> qs !! i = Some a -> qs !! j = Some b -> (a <= b)%Q.
Proof.
  induction 1 as [| q qs S IH F]; intros i j a b L Ha Hb.
  - now rewrite lookup_nil in Ha.
  - destruct i as [| i], j as [| j]; cbn in Ha, Hb.
    + injection Ha as <-. injection Hb as <-. lra.
    + injection Ha as <-. rewrite Forall_forall in F. apply F.
      eapply list_elem_of_lookup_2. exact Hb.
    + lia.
    + apply (IH i j); auto. lia.
Qed.

Lemma slice_nonempty {A : Type} (l : list A) (W : Z) (i : nat) :
  1 <= W -> (i < length l)%nat -> slice l (window_start W i) (i + 1) <> [].
Proof.
  intros HW Hi E. apply (f_equal length) in E. unfold slice in E.
  rewrite length_take, length_drop in E. cbn [length] in E.
  unfold window_start in E. lia.
Qed.

Lemma slice_elem {A : Type} (l : list A) (a b : nat) (x : A) :
  x ∈ slice l a b -> exists j, (a <= j < b)%nat /\ l !! j = Some x.
Proof.
  unfold slice. intros Hx. apply elem_of_take in Hx as (k & Hk & Lk).
  rewrite lookup_drop in Hk. exists (a + k)%nat. split; [lia | exact Hk].
Qed.

Lemma window_step (qs : list Q) (W : Z) (i : nat) :
  StronglySorted Qle qs -> 2 <= W -> (S i < length qs)%nat ->
  (Qmean (slice qs (window_start W i) (i + 1))
   <= Qmean (slice qs (window_start W (S i)) (S i + 1)))%Q.
Proof.
  intros Hs HW Hi.
  destruct (lookup_lt_is_Some_2 qs (S i) Hi) as [x Hx].
  destruct (Z.le_gt_cases (Z.of_nat i - W + 1) (-1)) as [C | C].
  - (* the window still grows *)
    assert (window_start W i = 0%nat) as -> by (unfold window_start; lia).
    assert (window_start W (S i) = 0%nat) as -> by (unfold window_start; lia).
    unfold slice. rewrite !drop_0, !Nat.sub_0_r.
    replace (S i + 1)%nat with (S (i + 1)) by lia.
    replace (i + 1)%nat with (S i) by lia.
    rewrite (take_S_r qs (S i) x Hx).
    apply Qmean_snoc.
    + intros E. apply (f_equal length) in E. rewrite length_take in E.
      cbn [length] in E. lia.
    + intros q Hq. apply elem_of_take in Hq as (j & Hj & Lj).
      apply (sorted_lookup qs Hs j (S i)); auto. lia.
  - (* the window slides *)
    set (s := window_start W i).
    assert (window_start W (S i) = S s) as -> by (unfold s, window_start; lia).
    assert (i + 1 - s = S (Z.to_nat (W - 1)))%nat as E1
      by (unfold s, window_start; lia).
    assert (S i + 1 - S s = S (Z.to_nat (W - 1)))%nat as E2
      by (unfold s, window_start; lia).
    assert (s < length qs)%nat as Ls by (unfold s, window_start; lia).
    destruct (lookup_lt_is_Some_2 qs s Ls) as [y Hy].
    unfold slice. rewrite E1, E2.
    rewrite (drop_S qs y s Hy). cbn [take].
    set (R := drop (S s) qs).
    assert (R !! Z.to_nat (W - 1) = Some x) as HR.
    { unfold R. rewrite lookup_drop. rewrite <- Hx. f_equal.
      unfold s, window_start. lia. }
    rewrite (take_S_r R _ x HR).
    set (mid := take (Z.to_nat (W - 1)) R).
    assert (mid <> []) as Hmid.
    { intros E. apply (f_equal length) in E. unfold mid in E.
      rewrite length_take in E. unfold R in E. rewrite length_drop in E.
      cbn [length] in E. unfold s, window_start in E. lia. }
    assert (forall q, q ∈ mid ->
                      exists j, (S s <= j <= i)%nat /\ qs !! j = Some q) as Hin.
    { intros q Hq. unfold mid in Hq.
      apply elem_of_take in Hq as (k & Hk & Lk).
      unfold R in Hk. rewrite lookup_drop in Hk.
      exists (S s + k)%nat. split; [| exact Hk].
      unfold s, window_start in *. lia. }
    apply Qle_trans with (Qmean mid).
    + apply Qmean_tail; [exact Hmid |].
      intros q Hq. destruct (Hin q Hq) as (j & Lj & Hj).
      apply (sorted_lookup qs Hs s j); auto. lia.
    + apply Qmean_snoc; [exact Hmid |].
      intros q Hq. destruct (Hin q Hq) as (j & Lj & Hj).
      apply (sorted_lookup qs Hs j (S i)); auto. lia.
Qed.

Lemma window_mono (qs : list Q) (W : Z) :
  StronglySorted Qle qs -> 2 <= W ->
  forall i j : nat, (i <= j)%nat -> (j < length qs)%nat ->
    (Qmean (slice qs (window_start W i) (i + 1))
     <= Qmean (slice qs (window_start W j) (j + 1)))%Q.
Proof.
  intros Hs HW i j L. induction L as [| j L IH]; intros Hj.
  - apply Qle_refl.
  - apply Qle_trans with (Qmean (slice qs (window_start W j) (j + 1))).
    + apply IH. lia.
    + apply window_step; auto.
Qed.

Lemma movingAverage_lookup_rat (qs : list Q) (W : Z) (i : nat) :
  1 <= W -> (i < length qs)%nat ->
  exists m, movingAverage (map Exact.XRat qs) W !! i = Some (Exact.XRat m)
            /\ (m == Qmean (slice qs (window_start W i) (i + 1)))%Q.
Proof.
  intros HW Hi. unfold movingAverage.
  rewrite list_lookup_imap.
  destruct (lookup_lt_is_Some_2 (map Exact.XRat qs) i) as [v Hv];
    [now rewrite length_map |].
  rewrite Hv. cbn [fmap option_fmap option_map].
  assert (slice (map Exact.XRat qs) (window_start W i) (i + 1)
          = map Exact.XRat (slice qs (window_start W i) (i + 1))) as ->.
  { unfold slice. now rewrite <- fmap_drop, <- fmap_take. }
  destruct (Exact_mean_rat (slice qs (window_start W i) (i + 1)))
    as (m & E & Hm); [now apply slice_nonempty |].
  exists m. rewrite E. auto.
Qed.

(** The strict versions, for a strictly increasing input. *)
Lemma Qmean_lt (l : list Q) (hi : Q) :
  l <> [] -> (forall q, q ∈ l -> q < hi)%Q -> (Qmean l < hi)%Q.
Proof.
  intros Hne Hb. destruct l as [| a l]; [congruence |].
  apply Qlt_shift_div_r; [now apply Qlen_pos |].
  change (Qsum (a :: l)) with (a + Qsum l)%Q. rewrite Qlen_cons.
  assert (a < hi)%Q by (apply Hb; now left).
  assert (Qsum l <= inject_Z (Z.of_nat (length l)) * hi)%Q.
  { apply Qsum_le. intros q Hq. apply Qlt_le_weak, Hb. now right. }
  lra.
Qed.

Lemma Qmean_gt (l : list Q) (lo : Q) :
  l <> [] -> (forall q, q ∈ l -> lo < q)%Q -> (lo < Qmean l)%Q.
Proof.
  intros Hne Hb. destruct l as [| a l]; [congruence |].
  apply Qlt_shift_div_l; [now apply Qlen_pos |].
  change (Qsum (a :: l)) with (a + Qsum l)%Q. rewrite Qlen_cons.
  assert (lo < a)%Q by (apply Hb; now left).
  assert (inject_Z (Z.of_nat (length l)) * lo <= Qsum l)%Q.
  { apply Qsum_ge. intros q Hq. apply Qlt_le_weak, Hb. now right. }
  lra.
Qed.

Lemma Qmean_snoc_lt (l : list Q) (x : Q) :
  l <> [] -> (forall q, q ∈ l -> q < x)%Q -> (Qmean l < Qmean (l ++ [x]))%Q.
Proof.
  intros Hne Hb.
  pose proof (Qmean_lt l x Hne Hb) as Hm.
  pose proof (Qmean_sum l Hne) as Hs.
  pose proof (Qlen_pos l Hne) as Hn.
  unfold Qmean at 2.
  rewrite Qsum_app, length_app, Nat2Z.inj_add, inject_Z_plus.
  change (Qsum [x]) with (x + 0)%Q.
  change (inject_Z (Z.of_nat (length [x]))) with 1%Q.
  apply Qlt_shift_div_l; [lra |]. rewrite Hs. lra.
Qed.

Lemma Qmean_tail_lt (y : Q) (l : list Q) :
  l <> [] -> (forall q, q ∈ l -> y < q)%Q -> (Qmean (y :: l) < Qmean l)%Q.
Proof.
  intros Hne Hb.
  pose proof (Qmean_gt l y Hne Hb) as Hm.
  pose proof (Qmean_sum l Hne) as Hs.
  pose proof (Qlen_pos l Hne) as Hn.
  unfold Qmean at 1. change (Qsum (y :: l)) with (y + Qsum l)%Q.
  rewrite Qlen_cons.
  apply Qlt_shift_div_r; [lra |]. rewrite Hs. lra.
Qed.

Lemma sorted_lookup_lt (qs : list Q) :
  StronglySorted Qlt qs ->
  forall (i j : nat) (a b : Q),
    (i < j)%nat -> qs !! i = Some a -> qs !! j = Some b -> (a < b)%Q.
Proof.
  induction 1 as [| q qs S IH F]; intros i j a b L Ha Hb.
  - now rewrite lookup_nil in Ha.
  - destruct i as [| i], j as [| j]; cbn in Ha, Hb; try lia.
    + injection Ha as <-. rewrite Forall_forall in F. apply F.
      eapply list_elem_of_lookup_2. exact Hb.
    + apply (IH i j); auto. lia.
Qed.

Lemma window_step_lt (qs : list Q) (W : Z) (i : nat) :
  StronglySorted Qlt qs -> 2 <= W -> (S i < length qs)%nat ->
  (Qmean (slice qs (window_start W i) (i + 1))
   < Qmean (slice qs (window_start W (S i)) (S i + 1)))%Q.
Proof.
  intros Hs HW Hi.
  destruct (lookup_lt_is_Some_2 qs (S i) Hi) as [x Hx].
  destruct (Z.le_gt_cases (Z.of_nat i - W + 1) (-1)) as [C | C].
  - assert (window_start W i = 0%nat) as -> by (unfold window_start; lia).
    assert (window_start W (S i) = 0%nat) as -> by (unfold window_start; lia).
    unfold slice. rewrite !drop_0, !Nat.sub_0_r.
    replace (S i + 1)%nat with (S (i + 1)) by lia.
    replace (i + 1)%nat with (S i) by lia.
    rewrite (take_S_r qs (S i) x Hx).
    apply Qmean_snoc_lt.
    + intros E. apply (f_equal length) in E. rewrite length_take in E.
      cbn [length] in E. lia.
    + intros q Hq. apply elem_of_take in Hq as (j & Hj & Lj).
      apply (sorted_lookup_lt qs Hs j (S i)); auto.
  - set (s := window_start W i).
    assert (window_start W (S i) = S s) as -> by (unfold s, window_start; lia).
    assert (i + 1 - s = S (Z.to_nat (W - 1)))%nat as E1
      by (unfold s, window_start; lia).
    assert (S i + 1 - S s = S (Z.to_nat (W - 1)))%nat as E2
      by (unfold s, window_start; lia).
    assert (s < length qs)%nat as Ls by (unfold s, window_start; lia).
    destruct (lookup_lt_is_Some_2 qs s Ls) as [y Hy].
    unfold slice. rewrite E1, E2.
    rewrite (drop_S qs y s Hy). cbn [take].
    set (R := drop (S s) qs).
    assert (R !! Z.to_nat (W - 1) = Some x) as HR.
    { unfold R. rewrite lookup_drop. rewrite <- Hx. f_equal.
      unfold s, window_start. lia. }
    rewrite (take_S_r R _ x HR).
    set (mid := take (Z.to_nat (W - 1)) R).
    assert (mid <> []) as Hmid.
    { intros E. apply (f_equal length) in E. unfold mid in E.
      rewrite length_take in E. unfold R in E. rewrite length_drop in E.
      cbn [length] in E. unfold s, window_start in E. lia. }
    assert (forall q, q ∈ mid ->
                      exists j, (S s <= j <= i)%nat /\ qs !! j = Some q) as Hin.
    { intros q Hq. unfold mid in Hq.
      apply elem_of_take in Hq as (k & Hk & Lk).
      unfold R in Hk. rewrite lookup_drop in Hk.
      exists (S s + k)%nat. split; [| exact Hk].
      unfold s, window_start in *. lia. }
    apply Qlt_trans with (Qmean mid).
    + apply Qmean_tail_lt; [exact Hmid |].
      intros q Hq. destruct (Hin q Hq) as (j & Lj & Hj).
      apply (sorted_lookup_lt qs Hs s j); auto. lia.
    + apply Qmean_snoc_lt; [exact Hmid |].
      intros q Hq. destruct (Hin q Hq) as (j & Lj & Hj).
      apply (sorted_lookup_lt qs Hs j (S i)); auto. lia.
Qed.

Lemma window_mono_lt (qs : list Q) (W : Z) :
  StronglySorted Qlt qs -> 2 <= W ->
  forall i j : nat, (i < j)%nat -> (j < length qs)%nat ->
    (Qmean (slice qs (window_start W i) (i + 1))
     < Qmean (slice qs (window_start W j) (j + 1)))%Q.
Proof.
  intros Hs HW i j L. induction L as [| j L IH]; intros Hj.
  - apply window_step_lt; auto.
  - apply Qlt_trans with (Qmean (slice qs (window_start W j) (j + 1))).
    + apply IH. lia.
    + apply window_step_lt; auto.
Qed.

(** C7, as amended.  In exact arithmetic, for a window of at least 3
    points: the moving average has the length of the input, its entry at
    [i] is the mean of the inputs at the indices [max(0, i - W + 1)] to
    [i]; on a non-decreasing input it is non-decreasing, on an increasing
    one increasing; and every entry lies between any two bounds of the
    input, so between its minimum and its maximum. *)
Theorem movingAverage_exact :
  forall (qs : list Q) (W : Z),
    3 <= W ->
    let out := movingAverage (map Exact.XRat qs) W in
    length out = length qs
    /\ (forall i : nat,
           (i < length qs)%nat ->
           exists m, out !! i = Some (Exact.XRat m)
                     /\ (m == Qmean (slice qs (window_start W i) (i + 1)))%Q)
    /\ (StronglySorted Qle qs ->
        forall (i j : nat) (a b : Exact.t),
          (i <= j)%nat -> out !! i = Some a -> out !! j = Some b ->
          Exact.xle a b)
    /\ (StronglySorted Qlt qs ->
        forall (i j : nat) (a b : Exact.t),
          (i < j)%nat -> out !! i = Some a -> out !! j = Some b ->
          Exact.xlt a b)
    /\ (forall lo hi : Q,
           (forall q, q ∈ qs -> lo <= q /\ q <= hi)%Q ->
           forall a : Exact.t,
             a ∈ out ->
             Exact.xle (Exact.XRat lo) a /\ Exact.xle a (Exact.XRat hi)).
Proof.
  intros qs W HW out.
  assert (length out = length qs) as Hlen.
  { unfold out, movingAverage. now rewrite length_imap, length_map. }
  assert (forall i a, out !! i = Some a ->
                      (i < length qs)%nat
                      /\ exists m, a = Exact.XRat m
                         /\ (m == Qmean (slice qs (window_start W i) (i + 1)))%Q)
    as Hout.
  { intros i a Ha.
    assert (i < length qs)%nat as Hi
      by (rewrite <- Hlen; eapply lookup_lt_Some; exact Ha).
    split; [exact Hi |].
    destruct (movingAverage_lookup_rat qs W i) as (m & E & Hm); [lia | auto |].
    fold out in E. rewrite E in Ha. injection Ha as <-. eauto. }
  split; [exact Hlen |]. split; [| split; [| split]].
  - intros i Hi. apply movingAverage_lookup_rat; [lia | exact Hi].
  - intros Hs i j a b L Ha Hb.
    destruct (Hout i a Ha) as (_ & ma & -> & Ea).
    destruct (Hout j b Hb) as (Hj & mb & -> & Eb).
    cbn. rewrite Ea, Eb. apply window_mono; auto. lia.
  - intros Hs i j a b L Ha Hb.
    destruct (Hout i a Ha) as (_ & ma & -> & Ea).
    destruct (Hout j b Hb) as (Hj & mb & -> & Eb).
    cbn. rewrite Ea, Eb. apply window_mono_lt; auto. lia.
  - intros lo hi Hb a Ha.
    apply list_elem_of_lookup in Ha as [i Ha].
    destruct (Hout i a Ha) as (Hi & m & -> & Em).
    cbn. rewrite Em.
    assert (slice qs (window_start W i) (i + 1) <> []) as Hne
      by (apply slice_nonempty; [lia | exact Hi]).
    split.
    + apply Qmean_ge; [exact Hne |].
      intros q Hq. apply slice_elem in Hq as (j & _ & Hj).
      apply Hb. eapply list_elem_of_lookup_2. exact Hj.
    + apply Qmean_le; [exact Hne |].
      intros q Hq. apply slice_elem in Hq as (j & _ & Hj).
      apply Hb. eapply list_elem_of_lookup_2. exact Hj.
Qed.

(** The input 1, 2, 4, 8 with a window of 3. *)
Lemma movingAverage_exact_witness :
  exists a b : Exact.t,
    movingAverage (map Exact.XRat [1; 2; 4; 8]%Q) 3 !! 2%nat = Some a
    /\ movingAverage (map Exact.XRat [1; 2; 4; 8]%Q) 3 !! 3%nat = Some b
    /\ Exact.xlt a b.
Proof.
  destruct (movingAverage_exact [1; 2; 4; 8]%Q 3) as (_ & _ & _ & G & _);
    [lia |].
  eexists. eexists.
  split; [vm_compute; reflexivity |].
  split; [vm_compute; reflexivity |].
  apply (G ltac:(repeat (constructor;
                         [| repeat (constructor; [reflexivity |]);
                            constructor]); constructor)
           2%nat 3%nat); [lia | vm_compute; reflexivity ..].
Defined.

(** C7 as stated fails in binary64: the sum rounds.  On the constant input
    0.1, 0.1, 0.1, 0.1 with a window of 4 the third entry of the output is
    0.10000000000000002, above the maximum of the input and above the
    fourth entry, which is 0.1.  On eleven increasing Numbers next to one
    another near 1.465, with a window of 11, the last entry of the output
    is below the one before it. *)
Lemma movingAverage_binary64_rounds :
  (let tenth : F64.t := of_decimal false 1 (-1) in
   let data := [tenth; tenth; tenth; tenth] in
   let out := movingAverage data 4 in
   exists a : F64.t,
     out !! 2%nat = Some a
     /\ out !! 3%nat = Some tenth
     /\ (tenth <? a)%js = true
     /\ Forall (fun v => (v <? a)%js = true) data
     /\ Forall (fun v => (v <=? tenth)%js = true) data)
  /\ (let data : list F64.t :=
        map (fun m => S754_finite false m (-52))
          [6598316239492395; 6598316239492396; 6598316239492397;
           6598316239492400; 6598316239492401; 6598316239492402;
           6598316239492403; 6598316239492404; 6598316239492405;
           6598316239492406; 6598316239492407]%positive in
      let out := movingAverage data 11 in
      Forall (fun x => F64.is_finite x = true
                       /\ valid_binary F64.prec F64.emax x = true) data
      /\ (forall (i : nat) (a b : F64.t),
             data !! i = Some a -> data !! S i = Some b ->
             (a <? b)%js = true)
      /\ exists a b : F64.t,
          out !! 9%nat = Some a /\ out !! 10%nat = Some b
          /\ (b <? a)%js = true).
Proof.
  split; cbv zeta.
  - eexists. split; [vm_compute; reflexivity |].
    split; [vm_compute; reflexivity |].
    split; [vm_compute; reflexivity |].
    split; repeat constructor.
  - split; [repeat constructor |]. split.
    + intros i a b Ha Hb.
      do 10 (destruct i as [| i];
             [injection Ha as <-; injection Hb as <-; reflexivity |]).
      destruct i; discriminate.
    + eexists. eexists. repeat split; vm_compute; reflexivity.
Qed.

(** ** ZeroBaseliner: rebasing twice, and translations *)

Section Idempotence.
Context {num : Type} `{JsNumber num}.

(** The two facts about the arithmetic that rebasing twice rests on. *)
Hypothesis zero_valid : isNaN (zero : num) = false.
Hypothesis sub_zero : forall x b : num, (x - b - zero)%js = (x - b)%js.

Lemma firstValid_rebased (values : list (jsval num)) (b c : num) :
  firstValid values = Some b ->
  (b - c)%js = zero ->
  firstValid (map (fun val => if isNaN (Number val) then val
                              else JNum (Number val - c)%js) values)
  = Some zero.
Proof.
  intros E Hb. induction values as [| v values IH]; [discriminate |].
  cbn [map firstValid] in *.
  destruct (isNaN (Number v)) eqn:Hv.
  - rewrite Hv. now apply IH.
  - injection E as ->. cbn [Number]. rewrite Hb, zero_valid. reflexivity.
Qed.

Lemma makeRelativeToZero_twice (values : list (jsval num)) (b : num) :
  firstValid values = Some b ->
  (b - b)%js = zero ->
  makeRelativeToZero (makeRelativeToZero values) = makeRelativeToZero values.
Proof.
  intros E Hb.
  rewrite (makeRelativeToZero_unfold values b E).
  rewrite (makeRelativeToZero_unfold _ zero (firstValid_rebased _ _ _ E Hb)).
  rewrite map_map. apply map_ext. intros v.
  destruct (isNaN (Number v)) eqn:Hv.
  - now rewrite Hv.
  - cbn [Number]. rewrite sub_zero.
    now destruct (isNaN (Number v - b)%js).
Qed.
End Idempotence.

(** The binary64 facts. *)
Lemma F64_sub_zero (y : F64.t) : (y - zero)%js = y.
Proof. now destruct y as [[] | [] | | [] m e]. Qed.

Lemma F64_sub_self (b : F64.t) :
  F64.is_finite b = true -> (b - b)%js = zero.
Proof.
  destruct b as [[] | [] | | s m e]; try discriminate; try reflexivity.
  intros _. cbn [sub F64.number]. unfold SFsub.
  rewrite Z.min_id. unfold shl_align. rewrite Z.sub_diag. cbn [fst].
  rewrite ?Z.sub_diag. reflexivity.
Qed.

(** The exact facts. *)
Lemma Exact_sub_zero (x b : Exact.t) : (x - b - zero)%js = (x - b)%js.
Proof.
  rewrite Exact_zero. cbn [sub Exact.number].
  destruct x as [| sx | p], b as [| sb | q]; cbn [Exact.minus];
    try reflexivity.
  - now destruct (Bool.eqb sx sb).
  - unfold Exact.rat. cbn [Exact.minus]. unfold Exact.rat. f_equal.
    rewrite <- (Qcanon.Qred_involutive (p - q)) at 2.
    apply Qred_complete. ring.
Qed.

Lemma Exact_sub_self (p : Q) :
  (Exact.XRat p - Exact.XRat p)%js = (zero : Exact.t).
Proof.
  rewrite Exact_zero. cbn. unfold Exact.rat. f_equal.
  change 0%Q with (Qred 0). apply Qred_complete. ring.
Qed.

(** Adding a rational to every entry does not change the rebased
    array. *)
Lemma Exact_translate_sub (y b : Exact.t) (c : Q) :
  isNaN b = false ->
  ((y + Exact.XRat c) - (b + Exact.XRat c))%js = (y - b)%js.
Proof.
  intros Hb. cbn [add sub Exact.number].
  destruct y as [| sy | p], b as [| sb | q]; try discriminate;
    cbn [Exact.plus Exact.minus]; try reflexivity.
  unfold Exact.rat. cbn [Exact.minus]. unfold Exact.rat. f_equal.
  apply Qred_complete. rewrite !Qred_correct. ring.
Qed.

Lemma Exact_translate_isNaN (y : Exact.t) (c : Q) :
  isNaN (y + Exact.XRat c)%js = isNaN y.
Proof. now destruct y. Qed.

Lemma Exact_translate_firstValid (ys : list Exact.t) (c : Q) :
  firstValid (map JNum (map (fun y => (y + Exact.XRat c)%js) ys))
  = (fun b => (b + Exact.XRat c)%js) <$> firstValid (map JNum ys).
Proof.
  induction ys as [| y ys IH]; [reflexivity |].
  cbn [map firstValid Number]. rewrite Exact_translate_isNaN.
  destruct (isNaN y); [exact IH | reflexivity].
Qed.

Lemma firstValid_valid {num : Type} `{JsNumber num}
  (values : list (jsval num)) (b : num) :
  firstValid values = Some b -> isNaN b = false.
Proof.
  induction values as [| v values IH]; [discriminate |].
  cbn [firstValid]. destruct (isNaN (Number v)) eqn:Hv; [exact IH |].
  intros E. injection E as <-. exact Hv.
Qed.

Lemma Exact_translate (ys : list Exact.t) (c : Q) :
  makeRelativeToZero (map JNum (map (fun y => (y + Exact.XRat c)%js) ys))
  = makeRelativeToZero (map JNum ys).
Proof.
  pose proof (Exact_translate_firstValid ys c) as E.
  destruct (firstValid (map JNum ys)) as [b |] eqn:Eb.
  - rewrite (makeRelativeToZero_unfold _ _ Eb).
    rewrite (makeRelativeToZero_unfold _ _ E).
    rewrite !map_map. apply map_ext. intros y. cbn [Number].
    rewrite Exact_translate_isNaN.
    destruct (isNaN y) eqn:Hy.
    + destruct y; try discriminate. reflexivity.
    + rewrite Exact_translate_sub; [reflexivity |].
      eapply firstValid_valid. exact Eb.
  - rewrite (makeRelativeToZero_no_valid _ Eb).
    rewrite (makeRelativeToZero_no_valid _ E).
    f_equal. clear E. induction ys as [| y ys IH]; [reflexivity |].
    cbn [map firstValid Number] in *.
    destruct (isNaN y) eqn:Hy; [| discriminate].
    destruct y; try discriminate. cbn. f_equal. now apply IH.
Qed.

(** C5, as amended.  When the first entry reads as a finite Number, the
    rebased array has the Number 0 at index 0.  When the first valid value
    is finite, rebasing a rebased array returns it as it is; this is exact
    in binary64.  In exact arithmetic, adding one rational to every entry
    of a Number array does not change the rebased array, and rebasing
    twice is rebasing once. *)
Theorem makeRelativeToZero_rebase :
  (forall (v : jsval F64.t) (rest : list (jsval F64.t)),
      F64.is_finite (Number v) = true ->
      head (makeRelativeToZero (v :: rest)) = Some (JNum zero))
  /\ (forall (values : list (jsval F64.t)) (b : F64.t),
         firstValid values = Some b ->
         F64.is_finite b = true ->
         makeRelativeToZero (makeRelativeToZero values)
         = makeRelativeToZero values)
  /\ (forall (ys : list Exact.t) (c : Q),
         makeRelativeToZero
           (map JNum (map (fun y => (y + Exact.XRat c)%js) ys))
         = makeRelativeToZero (map JNum ys))
  /\ (forall (values : list (jsval Exact.t)) (p : Q),
         firstValid values = Some (Exact.XRat p) ->
         makeRelativeToZero (makeRelativeToZero values)
         = makeRelativeToZero values).
Proof.
  split; [| split; [| split]].
  - intros v rest Hv.
    assert (isNaN (Number v) = false) as Hn by now destruct (Number v).
    rewrite (makeRelativeToZero_unfold (v :: rest) (Number v)).
    + cbn [map head]. rewrite Hn, F64_sub_self by exact Hv. reflexivity.
    + cbn [firstValid]. now rewrite Hn.
  - intros values b E Hb.
    apply (@makeRelativeToZero_twice F64.t F64.number eq_refl
             (fun x c => F64_sub_zero (x - c)%js) values b E).
    now apply F64_sub_self.
  - apply Exact_translate.
  - intros values p E.
    apply (@makeRelativeToZero_twice Exact.t Exact.number eq_refl
             Exact_sub_zero
             values _ E).
    apply Exact_sub_self.
Qed.

Lemma makeRelativeToZero_rebase_witness :
  makeRelativeToZero
    (makeRelativeToZero [JStr "n/a"; JStr "7.5"; JNum (of_Z 10 : F64.t)])
  = [JStr "n/a"; JNum zero; JNum (of_decimal false 25 (-1))].
Proof.
  destruct makeRelativeToZero_rebase as (_ & G & _).
  rewrite (G [JStr "n/a"; JStr "7.5"; JNum (of_Z 10 : F64.t)]
             (of_decimal false 75 (-1)));
    [| vm_compute; reflexivity | vm_compute; reflexivity].
  vm_compute. reflexivity.
Defined.

(** C5 as stated fails where the first entry is an infinity, which the
    validity test accepts: [Infinity - Infinity] is NaN, so index 0 holds
    NaN, and a second rebasing turns the [-Infinity] of the second entry
    into NaN. *)
Lemma makeRelativeToZero_infinite_baseline :
  let seq : list (jsval F64.t) := [JStr "Infinity"; JNum (of_Z 1)] in
  isNaN (Number (JStr "Infinity" : jsval F64.t)) = false
  /\ makeRelativeToZero seq = [JNum nan; JNum (infinity true)]
  /\ (is_zero_value <$> head (makeRelativeToZero seq)) = Some false
  /\ makeRelativeToZero (makeRelativeToZero seq) = [JNum nan; JNum nan]
  /\ makeRelativeToZero (makeRelativeToZero seq) <> makeRelativeToZero seq.
Proof.
  cbv zeta. repeat split; try (vm_compute; reflexivity).
  vm_compute. discriminate.
Qed.

(** ** TraceBuilder: groups and lengths *)

Section GroupProperties.
Context {V : Type}.


End GroupProperties.

Section TraceProperties.
Context {num : Type} `{JsNumber num}.
Variable host : Host.
Variable st : Settings.



End TraceProperties.

Section TraceLengths.
Context {num : Type} `{JsNumber num}.
Variable host : Host.
Variable st : Settings.

End TraceLengths.

(** * Further properties *)

(** ** RangeFilter *)

Lemma List_filter_sublist {A : Type} (f : A -> bool) (l : list A) :
  sublist (List.filter f l) l.
Proof.
  induction l as [| a l IH]; [constructor |].
  cbn [List.filter]. destruct (f a); now constructor.
Qed.

Lemma filteredData_filter {num : Type} `{JsNumber num} (host : Host)
  (data : list Row) (selectedX : string) (startDate endDate : option Date) :
  filteredData host data selectedX startDate endDate
  = List.filter
      (fun row =>
         let date := convertTimestamp host (cell row selectedX) in
         negb (match startDate with
               | Some s => Date_ltb (num := num) date s
               | None => false
               end)
         && negb (match endDate with
                  | Some e => Date_gtb (num := num) date e
                  | None => false
                  end))
      data.
Proof.
  destruct data as [| r data]; [reflexivity |].
  destruct startDate, endDate; try reflexivity.
  cbn [filteredData negb andb]. symmetry.
  clear. generalize (r :: data). intros l.
  induction l as [| a l IH]; [reflexivity |]. cbn [List.filter]. now f_equal.
Qed.

(** ** TimestampNormalizer *)

(** X1. [convertTimestamp] falls back to the clock and prefers a date
    string.  A falsy value gives the current instant; a non-empty string
    the host reads as a date gives that date, whatever number it starts
    with; a value that does not read as a Number never gives an invalid
    date; an invalid date comes from the numeric branch only, for a
    Number whose instant lies outside the range of [Date]. *)
Theorem convertTimestamp_fallbacks :
  forall (num : Type) (N : JsNumber num) (host : Host) (v : jsval num),
    (truthy v = false -> convertTimestamp host v = Some (now host))
    /\ (forall s t, v = JStr s -> s <> ""%string ->
                    Date_parse host s = Some t ->
                    convertTimestamp host v = Some t)
    /\ (isNaN (parseFloat v) = true -> convertTimestamp host v <> None)
    /\ (convertTimestamp host v = None ->
        isNaN (parseFloat v) = false
        /\ convertNumeric (parseFloat v) = None).
Proof.
  intros num N host v. split; [| split; [| split]].
  - intros Ht. unfold convertTimestamp. now rewrite Ht.
  - intros s t -> Hs Hp. unfold convertTimestamp. cbn [truthy].
    destruct (String.eqb_spec s ""); [contradiction |].
    cbn [negb]. now rewrite Hp.
  - intros Hn. unfold convertTimestamp.
    destruct (negb (truthy v)); [discriminate |].
    destruct (match v with JStr s => Date_parse host s | _ => None end);
      [discriminate |].
    rewrite Hn. destruct (Date_new host v); discriminate.
  - unfold convertTimestamp.
    destruct (negb (truthy v)); [discriminate |].
    destruct (match v with JStr s => Date_parse host s | _ => None end);
      [discriminate |].
    destruct (isNaN (parseFloat v)).
    + destruct (Date_new host v); discriminate.
    + intros E. now split.
Qed.

Lemma convertTimestamp_fallbacks_witness :
  convertTimestamp SampleHost.host (JStr "" : jsval F64.t)
  = Some (now SampleHost.host)
  /\ convertTimestamp SampleHost.host (JStr "2024-01-02" : jsval F64.t)
     = Some 1704153600000
  /\ convertTimestamp SampleHost.host (JStr "n/a" : jsval F64.t) <> None
  /\ convertNumeric (parseFloat (JStr "1e300" : jsval F64.t)) = None.
Proof.
  split; [| split; [| split]].
  - apply (proj1 (convertTimestamp_fallbacks F64.t _ SampleHost.host
                    (JStr ""))).
    reflexivity.
  - apply (proj1 (proj2 (convertTimestamp_fallbacks F64.t _ SampleHost.host
                           (JStr "2024-01-02"))) "2024-01-02"%string).
    + reflexivity.
    + discriminate.
    + vm_compute. reflexivity.
  - apply (proj1 (proj2 (proj2 (convertTimestamp_fallbacks F64.t _
                                  SampleHost.host (JStr "n/a"))))).
    vm_compute. reflexivity.
  - apply (proj2 (proj2 (proj2 (convertTimestamp_fallbacks F64.t _
                                  SampleHost.host (JStr "1e300"))))).
    vm_compute. reflexivity.
Defined.

(** ** Grouping *)

Section ObjProperties.
Context {V : Type}.

Lemma obj_get_set (o : Obj V) (key k : string) (v : V) :
  obj_get (obj_set o key v) k
  = if String.eqb key k then Some v else obj_get o k.
Proof.
  induction o as [| [k0 w] o IH]; cbn [obj_set obj_get].
  - reflexivity.
  - destruct (String.eqb_spec k0 key) as [-> | Hne]; cbn [obj_get].
    + destruct (String.eqb_spec key k); reflexivity.
    + rewrite IH. destruct (String.eqb_spec k0 k) as [-> | _];
        [| reflexivity].
      destruct (String.eqb_spec key k) as [-> | _]; [congruence |].
      reflexivity.
Qed.

Lemma obj_get_keys (o : Obj V) (k : string) :
  obj_get o k = None <-> k ∉ map fst o.
Proof.
  induction o as [| [k0 w] o IH]; cbn [obj_get map fst].
  - split; [intros _ K; now apply elem_of_nil in K | reflexivity].
  - destruct (String.eqb_spec k0 k) as [-> | Hne].
    + split; [discriminate |]. intros K. exfalso. apply K. left.
    + rewrite IH. rewrite not_elem_of_cons. split; [| tauto].
      intros K. split; [congruence | exact K].
Qed.

Lemma obj_set_keys (o : Obj V) (key : string) (v : V) :
  map fst (obj_set o key v)
  = match obj_get o key with
    | Some _ => map fst o
    | None => map fst o ++ [key]
    end.
Proof.
  induction o as [| [k0 w] o IH]; cbn [obj_set obj_get map fst app];
    [reflexivity |].
  destruct (String.eqb_spec k0 key) as [-> | Hne]; [reflexivity |].
  cbn [map fst]. rewrite IH. now destruct (obj_get o key).
Qed.

Lemma insert_index_Permutation (e : N * (string * V))
  (l : list (N * (string * V))) :
  insert_index e l ≡ₚ e :: l.
Proof.
  induction l as [| e' l IH]; cbn [insert_index]; [reflexivity |].
  destruct (fst e <=? fst e')%N; [reflexivity |].
  rewrite IH. apply Permutation_swap.
Qed.

Lemma Object_entries_Permutation (o : Obj V) : Object_entries o ≡ₚ o.
Proof.
  unfold Object_entries.
  assert (forall l : list (N * (string * V)),
             foldr insert_index [] l ≡ₚ l) as Hsort.
  { induction l as [| e l IH]; [reflexivity |].
    cbn [foldr]. now rewrite insert_index_Permutation, IH. }
  rewrite Hsort. clear Hsort.
  induction o as [| kv o IH]; [reflexivity |].
  cbn [omap list_omap List.filter].
  destruct (array_index (fst kv)); cbn [fmap list_fmap snd app].
  - now constructor.
  - rewrite <- Permutation_middle. now constructor.
Qed.
End ObjProperties.

(** The rows of a key, in the order of the input. *)
Lemma fold_add_TypeError (col : string) (rows : list Row) :
  fold_left (add_to_group col) rows TypeError = TypeError.
Proof. induction rows as [| r rows IH]; [reflexivity | exact IH]. Qed.

Lemma group_rows_fold (col : string) (rows : list Row) :
  forall o0 : Obj (list Row),
    NoDup (map fst o0) ->
    (forall k, k ∈ map fst o0 -> is_inherited k = false) ->
    match fold_left (add_to_group col) rows (Returned o0) with
    | TypeError =>
        exists row, row ∈ rows /\ is_inherited (group_key col row) = true
    | Returned o =>
        (forall row, row ∈ rows -> is_inherited (group_key col row) = false)
        /\ NoDup (map fst o)
        /\ forall k,
            obj_get o k
            = match obj_get o0 k,
                    List.filter (fun r => String.eqb (group_key col r) k) rows
              with
              | Some g, l => Some (g ++ l)
              | None, [] => None
              | None, l => Some l
              end
    end.
Proof.
  induction rows as [| r rows IH]; intros o0 Hnd Hinh.
  - cbn [fold_left List.filter]. split; [| split; [exact Hnd |]].
    + intros row K. now apply elem_of_nil in K.
    + intros k. destruct (obj_get o0 k); [now rewrite app_nil_r | easy].
  - cbn [fold_left add_to_group].
    destruct (obj_get o0 (group_key col r)) as [g |] eqn:G.
    + assert (is_inherited (group_key col r) = false) as Hr.
      { apply Hinh. destruct (decide (group_key col r ∈ map fst o0)) as [K|K];
          [exact K |]. apply obj_get_keys in K. congruence. }
      specialize (IH (obj_set o0 (group_key col r) (g ++ [r]))).
      rewrite obj_set_keys, G in IH. specialize (IH Hnd Hinh).
      destruct (fold_left _ rows _) as [o |].
      * destruct IH as (Hrows & Hnd' & Hget). split; [| split; [exact Hnd' |]].
        { intros row K. apply elem_of_cons in K as [-> | K]; auto. }
        intros k. rewrite Hget, obj_get_set. cbn [List.filter].
        destruct (String.eqb_spec (group_key col r) k) as [<- | Hne].
        -- rewrite G. now rewrite <- app_assoc.
        -- reflexivity.
      * destruct IH as (row & K & Hi). exists row. split; [now right | exact Hi].
    + destruct (is_inherited (group_key col r)) eqn:Hr.
      * rewrite fold_add_TypeError. exists r. split; [left | exact Hr].
      * specialize (IH (obj_set o0 (group_key col r) [r])).
        rewrite obj_set_keys, G in IH.
        assert (NoDup (map fst o0 ++ [group_key col r])) as Hnd1.
        { apply NoDup_app. split; [exact Hnd |]. split; [| apply NoDup_singleton].
          intros k Hk K. apply list_elem_of_singleton in K as ->.
          now apply obj_get_keys in G. }
        assert (forall k, k ∈ map fst o0 ++ [group_key col r] ->
                          is_inherited k = false) as Hinh1.
        { intros k K. apply elem_of_app in K as [K | K]; [now apply Hinh |].
          now apply list_elem_of_singleton in K as ->. }
        specialize (IH Hnd1 Hinh1).
        destruct (fold_left _ rows _) as [o |].
        -- destruct IH as (Hrows & Hnd' & Hget).
           split; [| split; [exact Hnd' |]].
           { intros row K. apply elem_of_cons in K as [-> | K]; auto. }
           intros k. rewrite Hget, obj_get_set. cbn [List.filter].
           destruct (String.eqb_spec (group_key col r) k) as [<- | Hne].
           ++ rewrite G. reflexivity.
           ++ reflexivity.
        -- destruct IH as (row & K & Hi). exists row.
           split; [now right | exact Hi].
Qed.

(** X2. Grouping throws a TypeError exactly when the grouping cell of
    some row is a name every object inherits from [Object.prototype]
    (such as [constructor] or [toString]): [groupedData[groupKey]] is then
    truthy without being an array.  [chartData] throws exactly when the
    rows are grouped by a column and some row has such a key. *)
Theorem chartData_TypeError_iff :
  forall (num : Type) (N : JsNumber num) (host : Host) (st : Settings)
         (rows : list Row),
    (forall col,
        group_rows col rows = TypeError
        <-> exists row,
            row ∈ rows /\ is_inherited (group_key col row) = true)
    /\ (chartData host st rows = TypeError
        <-> exists col row,
            grouping_of (num := num) st rows = Some col
            /\ row ∈ rows /\ is_inherited (group_key col row) = true).
Proof.
  intros num N host st rows.
  assert (forall col,
             group_rows col rows = TypeError
             <-> exists row,
                 row ∈ rows /\ is_inherited (group_key col row) = true)
    as Hg.
  { intros col.
    pose proof (group_rows_fold col rows [] (NoDup_nil_2)) as Hf.
    specialize (Hf (fun k K => False_ind _ (proj1 (elem_of_nil k) K))).
    change (fold_left (add_to_group col) rows (Returned []))
      with (group_rows col rows) in Hf.
    destruct (group_rows col rows) as [o |].
    - split; [discriminate |]. intros (row & K & Hi).
      destruct Hf as [Hrows _]. rewrite (Hrows row K) in Hi. discriminate.
    - split; [intros _; exact Hf | reflexivity]. }
  split; [exact Hg |].
  unfold chartData. destruct rows as [| r rows].
  - split; [discriminate |]. intros (col & row & _ & K & _).
    now apply elem_of_nil in K.
  - destruct (grouping_of st (r :: rows)) as [col |].
    + assert ((match group_rows col (r :: rows) with
               | Returned _ => false | TypeError => true end) = true
              <-> exists col0 row,
                  Some col = Some col0 /\ row ∈ r :: rows
                  /\ is_inherited (group_key col0 row) = true) as Hc.
      { destruct (Hg col) as [H1 H2]. split.
        - intros E. destruct (group_rows col (r :: rows)); [discriminate |].
          destruct (H1 eq_refl) as (row & K & Hi). now exists col, row.
        - intros (col0 & row & E & K & Hi). injection E as <-.
          now rewrite H2 by now exists row. }
      destruct (chartType st); destruct (group_rows col (r :: rows));
        (split; [intros E; try discriminate E; now apply Hc
                | intros K; apply Hc in K; try discriminate K; reflexivity]).
    + destruct (chartType st);
        (split; [discriminate | intros (col & row & E & _); discriminate E]).
Qed.

(** X3. When grouping succeeds, the group stored under a key is the
    list of the rows with that key, in the order of the input, and there
    is no group for a key without rows; the keys are distinct; and
    [Object.entries] lists every group exactly once. *)
Theorem group_rows_partition :
  forall (col : string) (rows : list Row) (o : Obj (list Row)),
    group_rows col rows = Returned o ->
    (forall k,
        obj_get o k
        = match List.filter (fun r => String.eqb (group_key col r) k) rows
          with
          | [] => None
          | g => Some g
          end)
    /\ NoDup (map fst o)
    /\ Object_entries o ≡ₚ o.
Proof.
  intros col rows o E.
  pose proof (group_rows_fold col rows [] (NoDup_nil_2)) as Hf.
  specialize (Hf (fun k K => False_ind _ (proj1 (elem_of_nil k) K))).
  change (fold_left (add_to_group col) rows (Returned []))
    with (group_rows col rows) in Hf.
  rewrite E in Hf. destruct Hf as (_ & Hnd & Hget).
  split; [| split; [exact Hnd | apply Object_entries_Permutation]].
  intros k. rewrite Hget. reflexivity.
Qed.

Lemma group_rows_partition_witness :
  exists o : Obj (list Row),
    group_rows "PointName" Samples.rows_valid = Returned o
    /\ obj_get o "A"
       = Some [Samples.row "2024-01-01" "10" "A";
               Samples.row "2024-01-02" "20" "A"]
    /\ obj_get o "C" = None.
Proof.
  destruct (group_rows "PointName" Samples.rows_valid) as [o |] eqn:E;
    [| vm_compute in E; discriminate E].
  exists o. split; [reflexivity |].
  destruct (group_rows_partition _ _ _ E) as (Hget & _ & _).
  rewrite !Hget. split; vm_compute; reflexivity.
Defined.

(** ** Dual axis *)

Section DualPairs.
Context {num : Type} `{JsNumber num}.
Variable host : Host.
Variable st : Settings.

Lemma paired_app (ts us : list (Trace num)) :
  paired ts -> paired us -> paired (ts ++ us).
Proof.
  induction 1 as [| a b ts Ha Hb Hx Hts IH]; intros Hus; [exact Hus |].
  cbn [app]. constructor; auto.
Qed.

Lemma dual_group_traces_paired (ci : nat) (k : string) (g : list Row) :
  paired (fst (dual_group_traces host st ci k g)).
Proof.
  unfold dual_group_traces.
  destruct (_ && _); cbn [fst]; repeat constructor.
Qed.

Lemma traces_of_groups_paired (o : Obj (list Row)) :
  paired (traces_of_groups (dual_group_traces host st) o).
Proof.
  unfold traces_of_groups. generalize (Object_entries o). intros entries.
  assert (forall acc ci,
             paired acc ->
             paired (fst (fold_left
                            (fun '(traces, colorIndex) '(groupName, groupRows) =>
                               let '(ts, colorIndex') :=
                                 dual_group_traces host st colorIndex
                                   groupName groupRows in
                               (traces ++ ts, colorIndex'))
                            entries (acc, ci)))) as Hfold.
  { induction entries as [| [k g] entries IH]; intros acc ci Hacc;
      [exact Hacc |].
    cbn [fold_left].
    pose proof (dual_group_traces_paired ci k g) as Hp.
    destruct (dual_group_traces host st ci k g) as [ts ci'].
    apply IH. now apply paired_app. }
  apply Hfold. constructor.
Qed.
End DualPairs.

(** X4. In a dual-axis chart the traces come in pairs: a trace on the
    axis [y] followed by a trace on the axis [y2] over the same instants.
    Without grouping there are exactly two traces for non-empty data,
    whether or not a value parses. *)
Theorem chartData_dual_axis_pairs :
  forall (num : Type) (N : JsNumber num) (host : Host) (st : Settings)
         (rows : list Row) (ts : list (Trace num)),
    chartType st = DUAL_AXIS ->
    chartData host st rows = Returned ts ->
    paired ts
    /\ (grouping_of (num := num) st rows = None -> rows <> [] ->
        length ts = 2%nat).
Proof.
  intros num N host st rows ts Hc E. unfold chartData in E.
  destruct rows as [| r rows].
  - injection E as <-. split; [constructor | congruence].
  - rewrite Hc in E.
    destruct (grouping_of st (r :: rows)) as [col |].
    + destruct (group_rows col (r :: rows)) as [o |]; [| discriminate].
      injection E as <-. split; [apply traces_of_groups_paired | discriminate].
    + injection E as <-. split; [| reflexivity].
      unfold dual_traces. repeat constructor.
Qed.

Lemma chartData_dual_axis_pairs_witness :
  let st := {| selectedX := "t"; selectedY := "v"; selectedY2 := "w";
               chartType := DUAL_AXIS; showSmooth := false;
               smoothingWindow := 5; smoothingType := SmoothCount;
               smoothingHours := 24; relativeToZero := false;
               dataColumns := ["t"; "v"] |} in
  exists ts : list (Trace F64.t),
    chartData SampleHost.host st Samples.rows_valid = Returned ts
    /\ paired ts /\ length ts = 2%nat.
Proof.
  intros st.
  destruct (chartData (num := F64.t) SampleHost.host st Samples.rows_valid)
    as [ts |] eqn:E; [| vm_compute in E; discriminate E].
  exists ts. split; [reflexivity |].
  destruct (chartData_dual_axis_pairs F64.t _ SampleHost.host st
              Samples.rows_valid ts eq_refl E) as [Hp Hl].
  split; [exact Hp |]. apply Hl; [reflexivity | discriminate].
Defined.

(** ** The colours of the groups *)

Section GroupColours.
Context {num : Type} `{JsNumber num}.
Variable host : Host.
Variable st : Settings.

(** The traces of one group: none, and the colour index stays; or a base
    trace in the colour of the index, with or without an overlay in the
    same colour, and the index moves on. *)
Lemma group_traces_colour (ci : nat) (k : string) (g : list Row) :
  (group_traces host st ci k g = ([], ci))
  \/ exists base overlay,
      group_traces host st ci k g = (base :: overlay, S ci)
      /\ is_base_trace base = true /\ line_color base = palette ci
      /\ Forall (fun t => is_base_trace t = false
                          /\ line_color t = palette ci) overlay.
Proof.
  unfold group_traces. destruct (_ && _); [| now left]. right.
  destruct (showSmooth st && _); eexists _, _;
    (split; [reflexivity |]); repeat split; repeat constructor.
Qed.

Lemma filter_overlay (overlay : list (Trace num)) (c : string) :
  Forall (fun t => is_base_trace t = false /\ line_color t = c) overlay ->
  List.filter is_base_trace overlay = [].
Proof.
  induction 1 as [| t overlay [Ht _] _ IH]; [reflexivity |].
  cbn [List.filter]. now rewrite Ht.
Qed.

Lemma traces_of_groups_colours (entries : list (string * list Row)) :
  forall (acc : list (Trace num)) (ci : nat),
    map line_color (List.filter is_base_trace acc)
    = map palette (seq 0 ci) ->
    let '(traces, ci') :=
      fold_left
        (fun '(traces, colorIndex) '(groupName, groupRows) =>
           let '(ts, colorIndex') :=
             group_traces host st colorIndex groupName groupRows in
           (traces ++ ts, colorIndex'))
        entries (acc, ci) in
    map line_color (List.filter is_base_trace traces)
    = map palette (seq 0 ci').
Proof.
  induction entries as [| [k g] entries IH]; intros acc ci Hacc;
    [exact Hacc |].
  cbn [fold_left].
  destruct (group_traces_colour ci k g)
    as [-> | (base & overlay & -> & Hb & Hc & Ho)].
  - apply IH. now rewrite app_nil_r.
  - apply IH. rewrite List.filter_app, map_app, Hacc.
    cbn [List.filter]. rewrite Hb, (filter_overlay overlay _ Ho).
    cbn [map]. rewrite Hc, seq_S, map_app. reflexivity.
Qed.
End GroupColours.

(** X5. In a grouped single-axis chart the base traces take the colours
    of the palette in order, starting at the first: a group without
    values uses up no colour, and the overlay of a smoother does not
    either.  With at most as many groups as the palette has colours, no
    two base traces share a colour. *)
Theorem traces_of_groups_palette :
  forall (num : Type) (N : JsNumber num) (host : Host) (st : Settings)
         (groupedData : Obj (list Row)),
    let traces := traces_of_groups (group_traces host st) groupedData in
    let base := List.filter is_base_trace traces in
    map line_color base = map palette (seq 0 (length base))
    /\ ((length base <= length COLOR_PALETTE)%nat ->
        NoDup (map line_color base)).
Proof.
  intros num N host st groupedData traces base.
  assert (exists n, map line_color base = map palette (seq 0 n)) as [n Hn].
  { subst base traces. unfold traces_of_groups.
    pose proof (traces_of_groups_colours host st
                  (Object_entries groupedData) [] 0 eq_refl) as Hf.
    destruct (fold_left _ (Object_entries groupedData) ([], 0%nat))
      as [ts ci]. now exists ci. }
  assert (length base = n) as Hl.
  { apply (f_equal length) in Hn.
    now rewrite !length_map, length_seq in Hn. }
  rewrite Hl. split; [exact Hn |].
  intros Hle. rewrite Hn.
  assert (forall k, (k <= length COLOR_PALETTE)%nat ->
                    NoDup (map palette (seq 0 k))) as Hnd.
  { intros k Hk.
    assert (NoDup (map palette (seq 0 (length COLOR_PALETTE)))) as Hall.
    { apply (bool_decide_unpack _). vm_compute. exact I. }
    replace (length COLOR_PALETTE) with (k + (length COLOR_PALETTE - k))%nat
      in Hall by lia.
    rewrite seq_app, map_app in Hall. now apply NoDup_app in Hall as [? _]. }
  now apply Hnd.
Qed.

Lemma traces_of_groups_palette_witness :
  exists o : Obj (list Row),
    group_rows "PointName" Samples.rows_valid = Returned o
    /\ NoDup (map line_color
                (List.filter is_base_trace
                   (traces_of_groups
                      (group_traces (num := F64.t) SampleHost.host
                         (Samples.line_chart ["t"; "v"; "PointName"])) o))).
Proof.
  destruct (group_rows "PointName" Samples.rows_valid) as [o |] eqn:E;
    [| vm_compute in E; discriminate E].
  exists o. split; [reflexivity |].
  apply (proj2 (traces_of_groups_palette F64.t _ SampleHost.host
                  (Samples.line_chart ["t"; "v"; "PointName"]) o)).
  injection E as <-. vm_compute. lia.
Defined.

(** ** Smoother *)

Section SmootherProperties.
Context {num : Type} `{JsNumber num}.

Lemma slice_app_prefix {A : Type} (l k : list A) (a b : nat) :
  (b <= length l)%nat -> slice (l ++ k) a b = slice l a b.
Proof.
  intros Hb. unfold slice.
  destruct (decide (a <= length l)%nat) as [Ha | Ha].
  - rewrite drop_app_le by exact Ha.
    rewrite take_app_le; [reflexivity |]. rewrite length_drop. lia.
  - replace (b - a)%nat with O by lia. now rewrite !take_0.
Qed.

Lemma movingAverage_app (data more : list num) (W : Z) :
  take (length data) (movingAverage (data ++ more) W) = movingAverage data W.
Proof.
  unfold movingAverage. rewrite imap_app.
  rewrite take_app_le by now rewrite length_imap.
  rewrite take_ge by now rewrite length_imap.
  apply imap_ext. intros i v Hi. cbn beta zeta.
  apply lookup_lt_Some in Hi.
  rewrite slice_app_prefix by lia. reflexivity.
Qed.

Lemma movingAverage_lookup (data : list num) (W : Z) (i : nat) :
  (i < length data)%nat ->
  movingAverage data W !! i
  = Some (mean_of (slice data (window_start W i) (i + 1))).
Proof.
  intros Hi. unfold movingAverage. rewrite list_lookup_imap.
  destruct (lookup_lt_is_Some_2 data i Hi) as [v ->]. reflexivity.
Qed.
End SmootherProperties.

(** X6. [movingAverage] keeps the length of its input and looks
    backwards only: the average at an index is the mean of the window
    that ends there, and data appended after an index leaves it as it
    is. *)
Theorem movingAverage_causal :
  forall (num : Type) (N : JsNumber num) (data more : list num) (W : Z),
    length (movingAverage data W) = length data
    /\ take (length data) (movingAverage (data ++ more) W)
       = movingAverage data W
    /\ forall i,
        (i < length data)%nat ->
        movingAverage (data ++ more) W !! i
        = Some (mean_of (slice data (window_start W i) (i + 1))).
Proof.
  intros num N data more W. split; [apply length_imap |].
  split; [apply movingAverage_app |].
  intros i Hi. rewrite <- (movingAverage_lookup data W i Hi).
  rewrite <- (movingAverage_app data more W).
  now rewrite lookup_take_lt.
Qed.

Lemma movingAverage_causal_witness :
  movingAverage ([of_Z 1; of_Z 2; of_Z 4] ++ [of_Z 100 : F64.t]) 2 !! 2%nat
  = Some (of_Z 3).
Proof.
  rewrite (proj2 (proj2 (movingAverage_causal F64.t _
                           [of_Z 1; of_Z 2; of_Z 4] [of_Z 100] 2)) 2%nat).
  - vm_compute. reflexivity.
  - cbn. lia.
Defined.

(** X7. In binary64, with a window size of zero or less every window
    is empty, and every average is [0 / 0], that is NaN. *)
Theorem movingAverage_nonpositive_window :
  forall (data : list F64.t) (W : Z),
    W <= 0 -> movingAverage data W = map (fun _ => nan) data.
Proof.
  intros data W HW. unfold movingAverage.
  change (map (fun _ : F64.t => nan) data)
    with ((fun _ : F64.t => (nan : F64.t)) <$> data).
  rewrite <- imap_const.
  apply imap_ext. intros i v _. cbn beta zeta.
  unfold slice, window_start.
  replace (i + 1 - Z.to_nat (Z.max 0 (Z.of_nat i - W + 1)))%nat with O by lia.
  rewrite take_0. reflexivity.
Qed.

Lemma movingAverage_nonpositive_window_witness :
  movingAverage [of_Z 1; of_Z 2; of_Z 4 : F64.t] 0 = [nan; nan; nan].
Proof.
  rewrite (movingAverage_nonpositive_window [of_Z 1; of_Z 2; of_Z 4] 0);
    [reflexivity | lia].
Defined.

(** ** Rebasing inside [chartData] *)

Section RebaseProperties.
Context {num : Type} `{JsNumber num}.

Lemma numeric_column_valid (rows : list Row) (col : string) :
  Forall (fun v => isNaN v = false) (numeric_column (num := num) rows col).
Proof.
  unfold numeric_column. apply Forall_forall. intros v Hv.
  apply list_elem_of_In, filter_In in Hv as [_ Hv].
  now apply negb_true_iff in Hv.
Qed.

Lemma rebase_valid (first : num) (ys : list num) :
  Forall (fun v => isNaN v = false) ys ->
  map (fun val => let n := Number (JNum val) in
                  if isNaN n then zero else (n - first)%js) ys
  = map (fun v => (v - first)%js) ys
  /\ map (fun val => let n := Number val in
                     if isNaN n then val else JNum (n - first)%js)
         (map JNum ys)
     = map JNum (map (fun v => (v - first)%js) ys).
Proof.
  induction 1 as [| v ys Hv _ [IH1 IH2]]; [now split |].
  cbn [map Number]. cbn zeta. rewrite Hv. split; f_equal; assumption.
Qed.
End RebaseProperties.

(** X8. On the arrays [chartData] rebases, which hold no NaN because
    the values that are NaN were filtered out, the three rebasing steps
    agree: each subtracts the first value from every entry.  The
    replacement by 0 and the pass-through of non-numeric entries never
    apply there. *)
Theorem chartData_rebasing_agrees :
  forall (num : Type) (N : JsNumber num) (rows : list Row) (col : string),
    let ys := numeric_column (num := num) rows col in
    let rebased :=
      match ys with
      | [] => []
      | first :: _ => map (fun v => (v - first)%js) ys
      end in
    inlineRelativeToZero ys = rebased
    /\ inlineRelativeToFirst ys = rebased
    /\ makeRelativeToZero (map JNum ys) = map JNum rebased.
Proof.
  intros num N rows col ys rebased.
  pose proof (numeric_column_valid rows col) as Hv. fold ys in Hv.
  subst rebased. destruct ys as [| first ys]; [now repeat split |].
  pose proof (Forall_inv Hv) as Hf.
  destruct (rebase_valid first (first :: ys) Hv) as [E1 E2].
  unfold inlineRelativeToZero, inlineRelativeToFirst, makeRelativeToZero.
  cbv beta in Hf.
  cbn [map firstValid Number] in *. cbn zeta in *. rewrite Hf in *.
  repeat split; assumption.
Qed.

(** ** TraceBuilder: the entries of a trace *)

Section TraceEntries.
Context {num : Type} `{JsNumber num}.
Variable host : Host.
Variable st : Settings.

















End TraceEntries.







(** ** Seasonality *)

Section SeasonalityProperties.
Context {num : Type} `{JsNumber num} `{JsMath num}.

Lemma first_period_Some (values : list num) (periods : list nat) (p : nat) :
  first_period values periods = Some p ->
  p ∈ periods /\ (p * 2 <= length values)%nat.
Proof.
  induction periods as [| q periods IH]; [discriminate |].
  cbn [first_period].
  destruct (q * 2 <=? length values)%nat eqn:E.
  - destruct (_ >? _)%js.
    + intros K. injection K as <-. split; [left |].
      now apply Nat.leb_le in E.
    + intros K. destruct (IH K). split; [now right | assumption].
  - intros K. destruct (IH K). split; [now right | assumption].
Qed.
End SeasonalityProperties.

(** X9. [detectSeasonality] reports no period for fewer than 14 values,
    although it lets arrays from 12 values on through; a period it
    reports is 7, 12, 24 or 30 and fits at least twice into the array. *)
Theorem detectSeasonality_periods :
  forall (num : Type) (N : JsNumber num) (M : JsMath num)
         (values : list num),
    ((length values < 14)%nat -> detectSeasonality values = None)
    /\ forall p, detectSeasonality values = Some p ->
                 (p = 7 \/ p = 12 \/ p = 24 \/ p = 30)%nat
                 /\ (2 * p <= length values)%nat.
Proof.
  intros num N M values.
  assert (forall p, detectSeasonality values = Some p ->
                    (p = 7 \/ p = 12 \/ p = 24 \/ p = 30)%nat
                    /\ (2 * p <= length values)%nat) as Hs.
  { intros p. unfold detectSeasonality.
    destruct (length values <? 12)%nat; [discriminate |].
    intros K. apply first_period_Some in K as [Hp Hl]. split; [| lia].
    repeat (apply elem_of_cons in Hp as [-> | Hp]; [tauto |]).
    now apply elem_of_nil in Hp. }
  split; [| exact Hs].
  intros Hl. destruct (detectSeasonality values) as [p |] eqn:E;
    [| reflexivity].
  destruct (Hs p eq_refl) as [Hp Hlen]. lia.
Qed.

Lemma detectSeasonality_periods_witness :
  detectSeasonality (repeat (of_Z 5 : F64.t) 13) = None
  /\ (2 * 7 <= length (repeat (of_Z 5 : F64.t) 14))%nat.
Proof.
  pose proof (detectSeasonality_periods F64.t _ _ (repeat (of_Z 5) 13))
    as [G1 _].
  pose proof (detectSeasonality_periods F64.t _ _ (repeat (of_Z 5) 14))
    as [_ G2].
  split.
  - apply G1. cbn. lia.
  - apply (G2 7%nat). vm_compute. reflexivity.
Defined.

(** ** Upload *)

Lemma other_names_sublist (fileInfo : FileInfo) (recentFiles : list FileInfo) :
  sublist
    (List.filter
       (fun f => negb (String.eqb (file_name f) (file_name fileInfo)))
       recentFiles)
    recentFiles.
Proof. apply List_filter_sublist. Qed.

Lemma sublist_NoDup_map {A B : Type} (f : A -> B) (l k : list A) :
  sublist l k -> NoDup (map f k) -> NoDup (map f l).
Proof.
  intros Hs Hnd. eapply sublist_NoDup; [exact Hnd |].
  change (map f l) with (f <$> l). change (map f k) with (f <$> k).
  now apply fmap_sublist.
Qed.

(** X10. The list of recent files after an upload, whatever was
    uploaded or cleared before it since the component was mounted: the
    uploaded file comes first, followed by entries of the list the
    component was mounted with, in their order and without the name of the
    uploaded file; the list has at most five entries; names that were
    distinct in the mounted list are distinct; with fewer than five
    entries in the mounted list none of them with another name is
    missing.  The entry of an earlier upload that was not in the mounted
    list is lost, and entries that were cleared are back. *)
Theorem recentFiles_after_upload :
  forall (mounted : list FileInfo) (evs : list RecentEvent)
         (fileInfo : FileInfo),
    let updated := recentFiles_after mounted (evs ++ [Uploaded fileInfo]) in
    updated
    = take 5
        (fileInfo
         :: List.filter
              (fun f => negb (String.eqb (file_name f) (file_name fileInfo)))
              mounted)
    /\ head updated = Some fileInfo
    /\ (length updated <= 5)%nat
    /\ sublist (tail updated) mounted
    /\ Forall (fun f => file_name f <> file_name fileInfo) (tail updated)
    /\ (NoDup (map file_name mounted) -> NoDup (map file_name updated))
    /\ ((length mounted < 5)%nat ->
        forall f, f ∈ mounted ->
                  file_name f <> file_name fileInfo -> f ∈ updated)
    /\ (forall earlier,
           Uploaded earlier ∈ evs ->
           earlier <> fileInfo -> earlier ∉ mounted -> earlier ∉ updated).
Proof.
  intros mounted evs fileInfo updated. subst updated.
  unfold recentFiles_after. rewrite fold_left_app.
  cbn [fold_left recent_step]. unfold updatedRecentFiles.
  set (others := List.filter _ mounted).
  assert (sublist others mounted) as Hsub
      by apply other_names_sublist.
  assert (Forall (fun f => file_name f <> file_name fileInfo) others) as Hne.
  { apply Forall_forall. intros f Hf.
    apply list_elem_of_In, filter_In in Hf as [_ Hf].
    apply negb_true_iff in Hf. now apply String.eqb_neq in Hf. }
  split; [reflexivity |].
  change (take 5 (fileInfo :: others)) with (fileInfo :: take 4%nat others).
  cbn [head tail]. split; [reflexivity |]. split.
  { cbn [length]. rewrite length_take. lia. }
  assert (sublist (take 4%nat others) mounted) as Hsub4
      by (etransitivity; [apply sublist_take | exact Hsub]).
  split; [exact Hsub4 |].
  split. { now apply Forall_take. }
  split; [| split].
  - intros Hnd. cbn [map]. apply NoDup_cons. split.
    + intros K. apply list_elem_of_fmap in K as (f & E & Hf).
      apply (Forall_take _ 4%nat) in Hne.
      rewrite Forall_forall in Hne. now apply (Hne f Hf).
    + now apply (sublist_NoDup_map file_name _ mounted).
  - intros Hl f Hf Hn. right.
    rewrite take_ge.
    + apply list_elem_of_In, filter_In. split; [now apply list_elem_of_In |].
      apply negb_true_iff. now apply String.eqb_neq.
    + pose proof (sublist_length _ _ Hsub). lia.
  - intros earlier _ Hne' Hm K.
    apply elem_of_cons in K as [-> | K]; [congruence |].
    apply Hm. eapply elem_of_sublist; eassumption.
Qed.

(** Mounted with an empty list, [a.csv] and then [b.csv] are uploaded:
    the list holds [b.csv] alone.  Mounted with [c.csv], the list is
    cleared and [b.csv] uploaded: [c.csv] is back. *)
Lemma recentFiles_after_upload_witness :
  let a := {| file_name := "a.csv"; file_size := 10;
              file_lastModified := 1; file_timestamp := 2 |} in
  let b := {| file_name := "b.csv"; file_size := 20;
              file_lastModified := 3; file_timestamp := 4 |} in
  let c := {| file_name := "c.csv"; file_size := 30;
              file_lastModified := 5; file_timestamp := 6 |} in
  recentFiles_after [] [Uploaded a; Uploaded b] = [b]
  /\ ~ a ∈ recentFiles_after [] [Uploaded a; Uploaded b]
  /\ c ∈ recentFiles_after [c] [ClearedRecent; Uploaded b]
  /\ NoDup (map file_name (recentFiles_after [c] [ClearedRecent; Uploaded b])).
Proof.
  intros a b c.
  pose proof (recentFiles_after_upload [] [Uploaded a] b)
    as (G0 & _ & _ & _ & _ & _ & _ & G1).
  pose proof (recentFiles_after_upload [c] [ClearedRecent] b)
    as (_ & _ & _ & _ & _ & G2 & G3 & _).
  split; [exact G0 |]. split; [| split].
  - apply G1; [left | discriminate | apply not_elem_of_nil].
  - apply G3; [cbn; lia | left | discriminate].
  - apply G2. cbn [map file_name]. apply NoDup_singleton.
Defined.

Section PatternKeys.
Context {num : Type} `{JsNumber num} `{JsMath num}.

Lemma detectDataPatterns_lookup (data : list Row) (columns : list string)
  (col : string) :
  detectDataPatterns data columns !! col
  = if decide (col ∈ columns) then
      match numeric_column data col with
      | [] => None
      | values => Some (pattern_of values)
      end
    else None.
Proof.
  rewrite detectDataPatterns_fold.
  destruct (decide (col ∈ columns)) as [Hc | Hc].
  - destruct (numeric_column data col) as [| v values] eqn:E.
    + rewrite detectDataPatterns_step_other by now right.
      apply lookup_empty.
    + rewrite detectDataPatterns_step_member; [now rewrite E | exact Hc |].
      now rewrite E.
  - rewrite detectDataPatterns_step_other by now left. apply lookup_empty.
Qed.
End PatternKeys.

Lemma numericColumns_spec (data : list Row) (columns : list string)
  (col : string) :
  col ∈ numericColumns data columns
  <-> col ∈ columns
      /\ exists row, row ∈ data
                     /\ isNaN (parseFloat (cell (num := F64.t) row col)) = false
                     /\ isFinite (cell row col) = true.
Proof.
  unfold numericColumns. rewrite list_elem_of_In, filter_In.
  rewrite <- list_elem_of_In, existsb_exists.
  split; intros [Hc (row & Hr & K)]; (split; [exact Hc |]); exists row.
  - apply list_elem_of_In in Hr. apply andb_true_iff in K as [K1 K2].
    apply negb_true_iff in K1. auto.
  - destruct K as [K1 K2]. split; [now apply list_elem_of_In |].
    now rewrite K1, K2.
Qed.

Lemma numericColumns_values (data : list Row) (columns : list string)
  (col : string) :
  col ∈ numericColumns data columns ->
  numeric_column (num := F64.t) data col <> [].
Proof.
  intros Hc. apply numericColumns_spec in Hc as (_ & row & Hr & Hn & _).
  unfold numeric_column. intros E.
  assert (parseFloat (cell (num := F64.t) row col)
          ∈ List.filter (fun val => negb (isNaN val))
              (map (fun row => parseFloat (cell row col)) data)) as K.
  { apply list_elem_of_In, filter_In. split.
    - apply in_map_iff. exists row. split; [reflexivity |].
      now apply list_elem_of_In.
    - now rewrite Hn. }
  rewrite E in K. now apply elem_of_nil in K.
Qed.

(** X11. An upload is stored only without parse errors, with at least
    one row and with at least one numeric column; the numeric columns are
    columns of the file, and the patterns computed on upload have exactly
    the numeric columns as keys. *)
Theorem completeUpload_patterns :
  forall (errors : list string) (data : list Row) (columns : list string)
         (fileInfo : FileInfo) (recentFiles : list FileInfo)
         (numeric : list string) (recent : list FileInfo)
         (patterns : gmap string (Pattern F64.t)),
    completeUpload errors data columns fileInfo recentFiles
    = UploadStored numeric recent patterns ->
    errors = [] /\ data <> [] /\ numeric <> []
    /\ numeric = numericColumns data columns
    /\ (forall col, col ∈ numeric -> col ∈ columns)
    /\ (forall col, is_Some (patterns !! col) <-> col ∈ numeric).
Proof.
  intros errors data columns fileInfo recentFiles numeric recent patterns.
  unfold completeUpload.
  destruct errors; [| discriminate].
  destruct data as [| r data]; [discriminate |].
  destruct (numericColumns (r :: data) columns) as [| c cs] eqn:E;
    [discriminate |].
  intros K. injection K as <- _ <-.
  split; [reflexivity |]. split; [discriminate |]. split; [discriminate |].
  split; [reflexivity |]. rewrite <- E. split.
  - intros col Hc. now apply numericColumns_spec in Hc as [Hc _].
  - intros col. rewrite detectDataPatterns_lookup.
    destruct (decide (col ∈ numericColumns (r :: data) columns)) as [Hc | Hc].
    + pose proof (numericColumns_values _ _ _ Hc) as Hv.
      destruct (numeric_column (r :: data) col); [congruence |].
      split; [intros _; exact Hc | intros _; eexists; reflexivity].
    + split; [intros [p K]; discriminate K | contradiction].
Qed.

Lemma completeUpload_patterns_witness :
  exists numeric recent patterns,
    completeUpload [] Samples.rows_valid ["t"; "v"; "PointName"]
      {| file_name := "a.csv"; file_size := 10;
         file_lastModified := 1; file_timestamp := 2 |} []
    = UploadStored numeric recent patterns
    /\ numeric = ["v"]
    /\ is_Some (patterns !! "v")
    /\ patterns !! "t" = None.
Proof.
  destruct (completeUpload [] Samples.rows_valid ["t"; "v"; "PointName"]
              {| file_name := "a.csv"; file_size := 10;
                 file_lastModified := 1; file_timestamp := 2 |} [])
    as [m | numeric recent patterns] eqn:E;
    [vm_compute in E; discriminate E |].
  exists numeric, recent, patterns. split; [reflexivity |].
  destruct (completeUpload_patterns _ _ _ _ _ _ _ _ E)
    as (_ & _ & _ & Hn & _ & Hp).
  assert (numeric = ["v"]) as Hv by (rewrite Hn; vm_compute; reflexivity).
  split; [exact Hv |]. split.
  - apply Hp. rewrite Hv. left.
  - destruct (patterns !! "t") as [p |] eqn:K; [| reflexivity].
    assert (is_Some (patterns !! "t")) as Ks by (rewrite K; now eexists).
    apply Hp in Ks. rewrite Hv in Ks.
    apply list_elem_of_singleton in Ks. discriminate Ks.
Defined.

(** ** [retryOperation] *)

Lemma sum_backoff (n : nat) :
  foldr Z.add 0 (map backoff (seq 1 n)) = 1000 * (2 ^ Z.of_nat n - 1).
Proof.
  induction n as [| n IH]; [reflexivity |].
  rewrite seq_S, map_app, foldr_app. cbn [map foldr].
  assert (forall (l : list Z) (a : Z),
             foldr Z.add a l = foldr Z.add 0 l + a) as Hacc.
  { induction l as [| z l IHl]; intros a; cbn [foldr]; [lia |].
    rewrite IHl. lia. }
  rewrite Hacc, IH. unfold backoff.
  replace (Z.of_nat (1 + n - 1)) with (Z.of_nat n) by lia.
  rewrite Nat2Z.inj_succ, Z.pow_succ_r by lia. lia.
Qed.

Lemma calls_of_step (a : nat) (w : Z) (rest : list RetryEvent) :
  calls_of (SetError None :: SetRetryCount a :: Call a :: Wait w :: rest)
  = a :: calls_of rest.
Proof. reflexivity. Qed.

Lemma waits_of_step (a : nat) (w : Z) (rest : list RetryEvent) :
  waits_of (SetError None :: SetRetryCount a :: Call a :: Wait w :: rest)
  = w :: waits_of rest.
Proof. reflexivity. Qed.

(** The loop from attempt [a] on, when the attempts before [k] reject and
    attempt [k] resolves. *)
Lemma retry_loop_success (operation : nat -> option string)
  (maxRetries k : nat) :
  (k <= maxRetries)%nat -> operation k = None ->
  forall remaining : nat,
    let a := (maxRetries - remaining + 1)%nat in
    (1 <= remaining <= maxRetries)%nat -> (a <= k)%nat ->
    (forall j, (a <= j < k)%nat -> operation j <> None) ->
    let evs := retry_loop operation maxRetries remaining in
    calls_of evs = seq a (k - a + 1)
    /\ waits_of evs = map backoff (seq a (k - a))
    /\ (forall e, fold_left (fun e ev => match ev with
                                         | SetError e' => e'
                                         | _ => e
                                         end) evs e = None)
    /\ (forall n, fold_left (fun n ev => match ev with
                                         | SetRetryCount n' => n'
                                         | _ => n
                                         end) evs n = O).
Proof.
  intros Hk Hok. induction remaining as [| r IH]; intros a Hr Ha Hrej evs;
    [lia |].
  subst evs. cbn [retry_loop].
  replace (maxRetries - r)%nat with a by (subst a; lia).
  destruct (decide (a = k)) as [-> | Hne].
  - rewrite Hok. replace (k - k + 1)%nat with 1%nat by lia.
    rewrite Nat.sub_diag. repeat split; reflexivity.
  - destruct (operation a) as [message |] eqn:Ea;
      [| exfalso; apply (Hrej a); [lia | exact Ea]].
    destruct (Nat.eqb_spec a maxRetries) as [Em | _]; [lia |].
    assert (1 <= r)%nat as Hr1 by (subst a; lia).
    specialize (IH ltac:(lia)).
    replace (maxRetries - r + 1)%nat with (S a) in IH by (subst a; lia).
    specialize (IH ltac:(lia)).
    destruct IH as (Hc & Hw & He & Hn).
    { intros j Hj. apply Hrej. lia. }
    replace (k - a + 1)%nat with (S (k - S a + 1)) by lia.
    replace (k - a)%nat with (S (k - S a)) by lia.
    rewrite calls_of_step, waits_of_step, Hc, Hw.
    cbn [seq map fold_left]. repeat split; auto.
Qed.

(** The loop from attempt [a] on, when every attempt rejects. *)
Lemma retry_loop_exhausted (operation : nat -> option string)
  (maxRetries : nat) :
  forall remaining : nat,
    let a := (maxRetries - remaining + 1)%nat in
    (1 <= remaining <= maxRetries)%nat ->
    (forall j, (a <= j <= maxRetries)%nat -> operation j <> None) ->
    let evs := retry_loop operation maxRetries remaining in
    calls_of evs = seq a remaining
    /\ waits_of evs = map backoff (seq a (remaining - 1))
    /\ (forall e, fold_left (fun e ev => match ev with
                                         | SetError e' => e'
                                         | _ => e
                                         end) evs e
                  = match operation maxRetries with
                    | Some message =>
                        Some (message, "retry operation"%string)
                    | None => None
                    end)
    /\ (forall n, fold_left (fun n ev => match ev with
                                         | SetRetryCount n' => n'
                                         | _ => n
                                         end) evs n = maxRetries)
    /\ last evs = Some (SetLoading false).
Proof.
  induction remaining as [| r IH]; intros a Hr Hrej evs; [lia |].
  subst evs. cbn [retry_loop].
  replace (maxRetries - r)%nat with a by (subst a; lia).
  destruct (operation a) as [message |] eqn:Ea;
    [| exfalso; apply (Hrej a); [subst a; lia | exact Ea]].
  destruct (Nat.eqb_spec a maxRetries) as [Em | Hne].
  - assert (r = O) as -> by (subst a; lia).
    rewrite <- Em, Ea. repeat split; reflexivity.
  - assert (1 <= r)%nat as Hr1 by (subst a; lia).
    specialize (IH ltac:(lia)).
    replace (maxRetries - r + 1)%nat with (S a) in IH by (subst a; lia).
    destruct IH as (Hc & Hw & He & Hn & Hl).
    { intros j Hj. apply Hrej. lia. }
    replace (S r - 1)%nat with (S (r - 1)) by lia.
    rewrite calls_of_step, waits_of_step, Hc, Hw.
    cbn [seq map fold_left]. repeat split; auto.
    destruct (retry_loop operation maxRetries r); [discriminate Hl |].
    exact Hl.
Qed.

(** X12. [retryOperation], for up to 1000 attempts, stops at the first
    attempt that succeeds: the operation is called for the attempts 1 to
    [k] and no more, the waits before the retries are 1000, 2000, 4000,
    ... milliseconds ([1000 * 2^(k-1) - 1000] in all), no error is left
    and the retry count is back at 0. *)
Theorem retryOperation_stops_at_first_success :
  forall (operation : nat -> option string) (maxRetries k : nat),
    (1 <= k <= maxRetries)%nat -> (maxRetries <= 1000)%nat ->
    operation k = None ->
    (forall j, (1 <= j < k)%nat -> operation j <> None) ->
    let evs := retryOperation operation maxRetries in
    calls_of evs = seq 1 k
    /\ waits_of evs = map backoff (seq 1 (k - 1))
    /\ foldr Z.add 0 (waits_of evs) = 1000 * (2 ^ Z.of_nat (k - 1) - 1)
    /\ error_of evs = None
    /\ retryCount_of evs = O.
Proof.
  intros operation maxRetries k Hk _ Hok Hrej evs. subst evs.
  unfold retryOperation, error_of, retryCount_of.
  destruct (retry_loop_success operation maxRetries k ltac:(lia) Hok
              maxRetries) as (Hc & Hw & He & Hn).
  - lia.
  - lia.
  - intros j Hj. apply Hrej. lia.
  - replace (maxRetries - maxRetries + 1)%nat with 1%nat in * by lia.
    replace (k - 1 + 1)%nat with k in Hc by lia.
    rewrite Hc, Hw, sum_backoff, He, Hn. repeat split.
Qed.

Lemma retryOperation_stops_at_first_success_witness :
  let operation := fun attempt : nat =>
    if (attempt <? 3)%nat then Some "parse error"%string else None in
  calls_of (retryOperation operation 5) = [1; 2; 3]%nat
  /\ waits_of (retryOperation operation 5) = [1000; 2000]
  /\ error_of (retryOperation operation 5) = None.
Proof.
  intros operation.
  destruct (retryOperation_stops_at_first_success operation 5 3)
    as (Hc & Hw & _ & He & _).
  - lia.
  - lia.
  - reflexivity.
  - intros j Hj. destruct j as [| [| [| j]]]; try lia; discriminate.
  - rewrite Hc, Hw, He. repeat split; reflexivity.
Defined.

(** X13. When every attempt fails, [retryOperation] (for up to 1000
    attempts) calls the operation [maxRetries] times, waits
    [maxRetries - 1] times (with the default of three attempts 1000 and
    2000 milliseconds, and never 4000), reports the error of the last
    attempt under the operation name [retry operation], leaves the retry
    count at [maxRetries] and switches the loading state off. *)
Theorem retryOperation_gives_up :
  forall (operation : nat -> option string) (maxRetries : nat)
         (message : string),
    (1 <= maxRetries <= 1000)%nat ->
    (forall j, (1 <= j <= maxRetries)%nat -> operation j <> None) ->
    operation maxRetries = Some message ->
    let evs := retryOperation operation maxRetries in
    calls_of evs = seq 1 maxRetries
    /\ waits_of evs = map backoff (seq 1 (maxRetries - 1))
    /\ foldr Z.add 0 (waits_of evs)
       = 1000 * (2 ^ Z.of_nat (maxRetries - 1) - 1)
    /\ error_of evs = Some (message, "retry operation"%string)
    /\ retryCount_of evs = maxRetries
    /\ last evs = Some (SetLoading false).
Proof.
  intros operation maxRetries message Hm Hrej Hlast evs. subst evs.
  unfold retryOperation, error_of, retryCount_of.
  destruct (retry_loop_exhausted operation maxRetries maxRetries)
    as (Hc & Hw & He & Hn & Hl).
  - lia.
  - intros j Hj. apply Hrej. lia.
  - replace (maxRetries - maxRetries + 1)%nat with 1%nat in * by lia.
    rewrite Hc, Hw, sum_backoff, He, Hn, Hlast. repeat split. exact Hl.
Qed.

Lemma retryOperation_gives_up_witness :
  let operation := fun _ : nat => Some "No data found in the uploaded file"%string in
  calls_of (retryOperation operation 3) = [1; 2; 3]%nat
  /\ waits_of (retryOperation operation 3) = [1000; 2000]
  /\ error_of (retryOperation operation 3)
     = Some ("No data found in the uploaded file"%string,
             "retry operation"%string).
Proof.
  intros operation.
  destruct (retryOperation_gives_up operation 3
              "No data found in the uploaded file")
    as (Hc & Hw & _ & He & _).
  - lia.
  - intros j _. discriminate.
  - reflexivity.
  - rewrite Hc, Hw, He. repeat split; reflexivity.
Defined.

(** ** Integers in binary64 *)

Lemma digits2_pos_iter (p k : positive) :
  digits2_pos (Pos.iter xO p k) = (digits2_pos p + k)%positive.
Proof.
  induction k as [| k IH] using Pos.peano_ind.
  - cbn. now rewrite Pos.add_1_r.
  - rewrite Pos.iter_succ. cbn [digits2_pos]. rewrite IH. lia.
Qed.

Lemma iter_xO_pow (p k : positive) :
  Zpos (Pos.iter xO p k) = Zpos p * 2 ^ Zpos k.
Proof.
  induction k as [| k IH] using Pos.peano_ind.
  - cbn. lia.
  - rewrite Pos.iter_succ, Pos2Z.inj_succ, Z.pow_succ_r by lia.
    rewrite Pos2Z.inj_xO, IH. lia.
Qed.

Lemma digits2_bounds (m : positive) :
  2 ^ (Zpos (digits2_pos m) - 1) <= Zpos m < 2 ^ Zpos (digits2_pos m).
Proof.
  induction m as [m IH | m IH |]; cbn [digits2_pos].
  - rewrite Pos2Z.inj_succ, Z.pow_succ_r by lia.
    replace (Z.succ (Zpos (digits2_pos m)) - 1)
      with (Z.succ (Zpos (digits2_pos m) - 1)) by lia.
    rewrite Z.pow_succ_r by lia. lia.
  - rewrite Pos2Z.inj_succ, Z.pow_succ_r by lia.
    replace (Z.succ (Zpos (digits2_pos m)) - 1)
      with (Z.succ (Zpos (digits2_pos m) - 1)) by lia.
    rewrite Z.pow_succ_r by lia. lia.
  - cbn. lia.
Qed.

(** A mantissa of 53 bits with an exponent in range is not rounded. *)
Lemma binary_round_aux_canonical (s : bool) (m : positive) (e : Z) :
  Zpos (digits2_pos m) = 53 -> -1074 <= e <= 971 ->
  binary_round_aux F64.prec F64.emax s (Zpos m) e loc_Exact
  = S754_finite s m e.
Proof.
  intros Hd He. unfold binary_round_aux, shr_fexp.
  cbn [Zdigits2 shr_record_of_loc]. rewrite Hd.
  assert (fexp F64.prec F64.emax (53 + e) - e = 0) as ->.
  { unfold fexp, emin, F64.prec, F64.emax. lia. }
  cbn [shr shr_m loc_of_shr_record round_nearest_even Zdigits2
       shr_record_of_loc].
  rewrite Hd.
  assert (fexp F64.prec F64.emax (53 + e) - e = 0) as ->.
  { unfold fexp, emin, F64.prec, F64.emax. lia. }
  cbn [shr shr_m].
  replace (e <=? F64.emax - F64.prec) with true; [reflexivity |].
  symmetry. apply Z.leb_le. unfold F64.emax, F64.prec. lia.
Qed.

(** The Number of a positive integer below [2^53]: the integer itself,
    with a mantissa of 53 bits. *)
Lemma F64_round_integer (s : bool) (p : positive) :
  Zpos p < 2 ^ 53 ->
  exists (m : positive) (e : Z),
    F64.round_decimal s (Npos p) 0 = S754_finite s m e
    /\ Zpos (digits2_pos m) = 53
    /\ -52 <= e <= 0
    /\ Zpos m = Zpos p * 2 ^ (- e).
Proof.
  intros Hp. pose proof (digits2_bounds p) as [Hlo Hhi].
  assert (Zpos (digits2_pos p) <= 53) as Hd.
  { destruct (Z.le_gt_cases (Zpos (digits2_pos p)) 53) as [K | K];
      [exact K |].
    assert (2 ^ 53 <= 2 ^ (Zpos (digits2_pos p) - 1))
      by (apply Z.pow_le_mono_r; lia).
    lia. }
  unfold F64.round_decimal. cbn [Z.leb Z.compare].
  change (Z.to_pos (10 ^ 0)) with 1%positive. rewrite Pos.mul_1_r.
  unfold binary_round.
  assert (fexp F64.prec F64.emax (Zpos (digits2_pos p) + 0)
          = Zpos (digits2_pos p) - 53) as ->.
  { unfold fexp, emin, F64.prec, F64.emax. lia. }
  unfold shl_align. rewrite Z.sub_0_r.
  destruct (Zpos (digits2_pos p) - 53) as [| k | k] eqn:E; [| lia |].
  - exists p, 0. rewrite binary_round_aux_canonical by lia.
    repeat split; lia.
  - exists (Pos.iter xO p k), (Zneg k).
    assert (Zpos (digits2_pos (Pos.iter xO p k)) = 53) as Hk.
    { rewrite digits2_pos_iter. lia. }
    rewrite binary_round_aux_canonical by lia.
    repeat split; try lia.
    rewrite iter_xO_pow. reflexivity.
Qed.

Lemma F64_of_Z_zero : (of_Z 0 : F64.t) = S754_zero false.
Proof. reflexivity. Qed.

Lemma F64_of_Z_pos (p : positive) :
  (of_Z (Zpos p) : F64.t) = F64.round_decimal false (Npos p) 0.
Proof. reflexivity. Qed.

Lemma F64_of_Z_neg (p : positive) :
  (of_Z (Zneg p) : F64.t) = F64.round_decimal true (Npos p) 0.
Proof. reflexivity. Qed.

(** Truncation gives the integer back. *)
Lemma F64_trunc_of_Z (z : Z) :
  Z.abs z < 2 ^ 53 -> truncZ (of_Z z : F64.t) = Some z.
Proof.
  intros Hz.
  assert (forall s p, Zpos p < 2 ^ 53 ->
            F64.trunc (F64.round_decimal s (Npos p) 0)
            = Some (if s then - Zpos p else Zpos p)) as Hp.
  { intros s p Hp. destruct (F64_round_integer s p Hp)
      as (m & e & -> & _ & He & Hm).
    cbn [F64.trunc]. f_equal.
    assert (match e with
            | Zneg q => Z.shiftr (Zpos m) (Zpos q)
            | _ => Z.shiftl (Zpos m) e
            end = Zpos p) as ->; [| reflexivity].
    destruct e as [| q | q]; [| lia |].
    - change (Z.shiftl (Zpos m) 0) with (Zpos m).
      change (2 ^ (- 0)) with 1 in Hm. lia.
    - rewrite Z.shiftr_div_pow2 by lia. rewrite Hm.
      change (- Zneg q) with (Zpos q). apply Z.div_mul.
      apply Z.pow_nonzero; lia. }
  destruct z as [| p | p].
  - reflexivity.
  - rewrite F64_of_Z_pos. cbn [truncZ F64.number]. now rewrite Hp.
  - rewrite F64_of_Z_neg. cbn [truncZ F64.number]. now rewrite Hp.
Qed.

(** The order of two positive integers below [2^53] is the order of their
    Numbers. *)
Lemma F64_compare_pos (s : bool) (p q : positive) :
  Zpos p < 2 ^ 53 -> Zpos q < 2 ^ 53 ->
  SFcompare (F64.round_decimal s (Npos p) 0)
            (F64.round_decimal s (Npos q) 0)
  = Some (if s then (Zpos q ?= Zpos p) else (Zpos p ?= Zpos q)).
Proof.
  intros Hp Hq.
  destruct (F64_round_integer s p Hp) as (m1 & e1 & -> & Hd1 & He1 & Hm1).
  destruct (F64_round_integer s q Hq) as (m2 & e2 & -> & Hd2 & He2 & Hm2).
  pose proof (digits2_bounds m1) as B1. pose proof (digits2_bounds m2) as B2.
  rewrite Hd1 in B1. rewrite Hd2 in B2.
  assert (e1 < e2 -> Zpos p < Zpos q) as Hlt.
  { intros K.
    assert (2 ^ (- e1) = 2 ^ (- e2) * 2 ^ (e2 - e1)) as Hpow.
    { rewrite <- Z.pow_add_r by lia. f_equal. lia. }
    assert (2 <= 2 ^ (e2 - e1)).
    { change 2 with (2 ^ 1) at 1. apply Z.pow_le_mono_r; lia. }
    assert (0 < 2 ^ (- e2)) by (apply Z.pow_pos_nonneg; lia).
    assert (0 < 2 ^ (- e1)) by (apply Z.pow_pos_nonneg; lia).
    nia. }
  assert (e2 < e1 -> Zpos q < Zpos p) as Hgt.
  { intros K.
    assert (2 ^ (- e2) = 2 ^ (- e1) * 2 ^ (e1 - e2)) as Hpow.
    { rewrite <- Z.pow_add_r by lia. f_equal. lia. }
    assert (2 <= 2 ^ (e1 - e2)).
    { change 2 with (2 ^ 1) at 1. apply Z.pow_le_mono_r; lia. }
    assert (0 < 2 ^ (- e2)) by (apply Z.pow_pos_nonneg; lia).
    assert (0 < 2 ^ (- e1)) by (apply Z.pow_pos_nonneg; lia).
    nia. }
  assert (e1 = e2 -> (Zpos m1 ?= Zpos m2) = (Zpos p ?= Zpos q)) as Heq.
  { intros ->. assert (0 < 2 ^ (- e2)) by (apply Z.pow_pos_nonneg; lia).
    rewrite Hm1, Hm2.
    destruct (Z.compare_spec (Zpos p) (Zpos q));
      [apply Z.compare_eq_iff | apply Z.compare_lt_iff
       | apply Z.compare_gt_iff]; nia. }
  destruct s; cbn [SFcompare]; f_equal;
    change (Pos.compare_cont Eq m1 m2) with (Zpos m1 ?= Zpos m2);
    destruct (Z.compare_spec e1 e2) as [E | E | E].
  - rewrite (Heq E). symmetry. apply Z.compare_antisym.
  - specialize (Hlt E). symmetry. apply Z.compare_gt_iff. lia.
  - specialize (Hgt E). symmetry. apply Z.compare_lt_iff. lia.
  - now rewrite (Heq E).
  - specialize (Hlt E). symmetry. apply Z.compare_lt_iff. lia.
  - specialize (Hgt E). symmetry. apply Z.compare_gt_iff. lia.
Qed.

Lemma F64_compare_of_Z (a b : Z) :
  Z.abs a < 2 ^ 53 -> Z.abs b < 2 ^ 53 ->
  SFcompare (of_Z a : F64.t) (of_Z b) = Some (a ?= b).
Proof.
  intros Ha Hb.
  assert (forall s p, Zpos p < 2 ^ 53 ->
            exists m e, F64.round_decimal s (Npos p) 0 = S754_finite s m e)
    as Hfin.
  { intros s p Hp. destruct (F64_round_integer s p Hp) as (m & e & E & _).
    now exists m, e. }
  destruct a as [| p | p], b as [| q | q];
    rewrite ?F64_of_Z_zero, ?F64_of_Z_pos, ?F64_of_Z_neg.
  - reflexivity.
  - destruct (Hfin false q ltac:(lia)) as (m & e & ->). reflexivity.
  - destruct (Hfin true q ltac:(lia)) as (m & e & ->). reflexivity.
  - destruct (Hfin false p ltac:(lia)) as (m & e & ->). reflexivity.
  - apply (F64_compare_pos false); lia.
  - destruct (Hfin false p ltac:(lia)) as (m & e & ->).
    destruct (Hfin true q ltac:(lia)) as (m' & e' & ->). reflexivity.
  - destruct (Hfin true p ltac:(lia)) as (m & e & ->). reflexivity.
  - destruct (Hfin true p ltac:(lia)) as (m & e & ->).
    destruct (Hfin false q ltac:(lia)) as (m' & e' & ->). reflexivity.
  - rewrite (F64_compare_pos true) by lia. f_equal.
    cbn [Z.compare]. apply Pos.compare_antisym.
Qed.

Lemma F64_ltb_of_Z (a b : Z) :
  Z.abs a < 2 ^ 53 -> Z.abs b < 2 ^ 53 ->
  ((of_Z a : F64.t) <? of_Z b)%js = (a <? b).
Proof.
  intros Ha Hb. cbn [ltb F64.number]. unfold SFltb.
  rewrite F64_compare_of_Z by assumption. unfold Z.ltb.
  now destruct (a ?= b).
Qed.

Lemma F64_leb_of_Z (a b : Z) :
  Z.abs a < 2 ^ 53 -> Z.abs b < 2 ^ 53 ->
  ((of_Z a : F64.t) <=? of_Z b)%js = (a <=? b).
Proof.
  intros Ha Hb. cbn [leb F64.number]. unfold SFleb.
  rewrite F64_compare_of_Z by assumption. unfold Z.leb.
  now destruct (a ?= b).
Qed.

(** ** The order of binary64 *)

Lemma SFcompare_antisym (a b : F64.t) :
  SFcompare b a = option_map CompOpp (SFcompare a b).
Proof.
  destruct a as [[] | [] | | [] m1 e1], b as [[] | [] | | [] m2 e2];
    try reflexivity; cbn [SFcompare option_map]; f_equal;
    rewrite (Z.compare_antisym e1 e2);
    destruct (e1 ?= e2); cbn [CompOpp]; try reflexivity;
    change (Pos.compare_cont Eq m2 m1) with (m2 ?= m1)%positive;
    change (Pos.compare_cont Eq m1 m2) with (m1 ?= m2)%positive;
    rewrite (Pos.compare_antisym m1 m2); reflexivity.
Qed.

Lemma SFltb_asym (a b : F64.t) : SFltb a b = true -> SFltb b a = false.
Proof.
  unfold SFltb. rewrite (SFcompare_antisym a b).
  now destruct (SFcompare a b) as [[] |].
Qed.

Lemma SFcompare_refl (a : F64.t) :
  F64.is_nan a = false -> SFcompare a a = Some Eq.
Proof.
  destruct a as [[] | [] | | [] m e]; try reflexivity; try discriminate;
    intros _; cbn [SFcompare]; rewrite Z.compare_refl;
    change (Pos.compare_cont Eq m m) with (m ?= m)%positive;
    now rewrite Pos.compare_refl.
Qed.

Lemma SFltb_irrefl (a : F64.t) : SFltb a a = false.
Proof.
  unfold SFltb. destruct (F64.is_nan a) eqn:E.
  - now destruct a.
  - now rewrite SFcompare_refl.
Qed.

Lemma Z_div_eucl_pair (a b : Z) : Z.div_eucl a b = (a / b, a mod b).
Proof.
  unfold Z.div, Z.modulo. now destruct (Z.div_eucl a b).
Qed.

(** A normal Number divided by itself is 1. *)
Lemma F64_div_self (s : bool) (m : positive) (e : Z) :
  Zpos (digits2_pos m) = 53 ->
  @div F64.t _ (S754_finite s m e) (S754_finite s m e) = of_Z 1.
Proof.
  intros Hd. cbn [div F64.number]. unfold SFdiv, SFdiv_core_binary.
  cbn [Zdigits2]. rewrite Hd.
  replace (53 + e - (53 + e)) with 0 by lia.
  replace (e - e) with 0 by lia.
  change (Z.min (fexp F64.prec F64.emax 0) 0) with (-53).
  change (0 - -53) with 53.
  rewrite Z.shiftl_mul_pow2 by lia.
  rewrite Z_div_eucl_pair.
  rewrite Z.mul_comm, Z.div_mul, Z.mod_mul by lia.
  assert (new_location (Zpos m) 0 = loc_Exact) as ->.
  { unfold new_location. destruct (Z.even (Zpos m)); reflexivity. }
  destruct s; vm_compute; reflexivity.
Qed.

Lemma F64_of_nat_normal (n : nat) :
  (0 < n)%nat -> Z.of_nat n < 2 ^ 53 ->
  exists m e, (of_nat n : F64.t) = S754_finite false m e
              /\ Zpos (digits2_pos m) = 53.
Proof.
  intros Hn Hb. unfold of_nat.
  destruct (Z.of_nat n) as [| p | p] eqn:E; [lia | | lia].
  rewrite F64_of_Z_pos.
  destruct (F64_round_integer false p Hb) as (m & e & -> & Hd & _).
  now exists m, e.
Qed.

(** ** Trend *)

Lemma count_steps_rising (prev : F64.t) (values : list F64.t)
  (inc dec : nat) :
  (forall i a b, (prev :: values) !! i = Some a ->
                 (prev :: values) !! S i = Some b -> (a <? b)%js = true) ->
  count_steps prev values inc dec = ((inc + length values)%nat, dec).
Proof.
  revert prev inc. induction values as [| v values IH]; intros prev inc Hr.
  - cbn. now rewrite Nat.add_0_r.
  - cbn [count_steps]. unfold gtb.
    rewrite (Hr O prev v eq_refl eq_refl). rewrite IH.
    + cbn [length]. f_equal. lia.
    + intros i a b Ha Hb. exact (Hr (S i) a b Ha Hb).
Qed.

Lemma count_steps_falling (prev : F64.t) (values : list F64.t)
  (inc dec : nat) :
  (forall i a b, (prev :: values) !! i = Some a ->
                 (prev :: values) !! S i = Some b -> (b <? a)%js = true) ->
  count_steps prev values inc dec = (inc, (dec + length values)%nat).
Proof.
  revert prev dec. induction values as [| v values IH]; intros prev dec Hr.
  - cbn. now rewrite Nat.add_0_r.
  - cbn [count_steps]. unfold gtb.
    pose proof (Hr O prev v eq_refl eq_refl) as Hlt.
    cbn [ltb F64.number] in *. rewrite (SFltb_asym _ _ Hlt), Hlt. rewrite IH.
    + cbn [length]. f_equal. lia.
    + intros i a b Ha Hb. exact (Hr (S i) a b Ha Hb).
Qed.

Lemma count_steps_level (prev : F64.t) (values : list F64.t)
  (inc dec : nat) :
  Forall (fun v => v = prev) values ->
  count_steps prev values inc dec = (inc, dec).
Proof.
  induction 1 as [| v values -> _ IH]; [reflexivity |].
  cbn [count_steps]. unfold gtb. cbn [ltb F64.number].
  rewrite SFltb_irrefl. exact IH.
Qed.

(** X14. In binary64, for at least three values: a strictly rising
    series has the trend [increasing], a strictly falling one
    [decreasing], a constant one [stable]. *)
Theorem detectTrend_monotone :
  forall values : list F64.t,
    (3 <= length values)%nat -> Z.of_nat (length values) < 2 ^ 53 ->
    ((forall i a b, values !! i = Some a -> values !! S i = Some b ->
                    (a <? b)%js = true) ->
     detectTrend values = TrendIncreasing)
    /\ ((forall i a b, values !! i = Some a -> values !! S i = Some b ->
                       (b <? a)%js = true) ->
        detectTrend values = TrendDecreasing)
    /\ ((forall i a b, values !! i = Some a -> values !! S i = Some b ->
                       a = b) ->
        detectTrend values = TrendStable).
Proof.
  intros values Hl Hb. unfold detectTrend.
  destruct (Nat.ltb_spec (length values) 3) as [K | _]; [lia |].
  destruct values as [| v0 rest]; [cbn in Hl; lia |].
  cbn [length] in *.
  replace (S (length rest) - 1)%nat with (length rest) by lia.
  destruct (F64_of_nat_normal (length rest)) as (m & e & En & Hd);
    [lia | lia |].
  split; [| split]; intros Hm.
  - rewrite (count_steps_rising v0 rest 0 0 Hm).
    cbv beta iota zeta. cbn [Nat.add].
    rewrite En, (F64_div_self false m e Hd). reflexivity.
  - rewrite (count_steps_falling v0 rest 0 0 Hm).
    cbv beta iota zeta. cbn [Nat.add].
    rewrite En, (F64_div_self false m e Hd). reflexivity.
  - rewrite (count_steps_level v0 rest 0 0).
    + cbv beta iota zeta. rewrite En. reflexivity.
    + assert (forall (l : list F64.t) (a : F64.t),
                 (forall i x y, (a :: l) !! i = Some x ->
                                (a :: l) !! S i = Some y -> x = y) ->
                 Forall (fun v => v = a) l) as Hall.
      { induction l as [| b l IHl]; intros a Ha; [constructor |].
        pose proof (Ha O a b eq_refl eq_refl) as <-.
        constructor; [reflexivity |]. apply IHl.
        intros i x y Hx Hy. exact (Ha (S i) x y Hx Hy). }
      now apply Hall.
Qed.

Lemma detectTrend_monotone_witness :
  detectTrend [of_Z 1; of_Z 2; of_Z 3; of_Z 5 : F64.t] = TrendIncreasing
  /\ detectTrend [of_Z 4; of_Z 4; of_Z 4 : F64.t] = TrendStable.
Proof.
  split.
  - apply (proj1 (detectTrend_monotone [of_Z 1; of_Z 2; of_Z 3; of_Z 5]
                    ltac:(cbn; lia) ltac:(cbn; lia))).
    intros i a b Ha Hb.
    do 3 (destruct i as [| i];
          [cbn in Ha, Hb; injection Ha as <-; injection Hb as <-;
           vm_compute; reflexivity |]).
    destruct i; discriminate Hb.
  - apply (proj2 (proj2 (detectTrend_monotone [of_Z 4; of_Z 4; of_Z 4]
                           ltac:(cbn; lia) ltac:(cbn; lia)))).
    intros i a b Ha Hb.
    do 2 (destruct i as [| i];
          [cbn in Ha, Hb; injection Ha as <-; injection Hb as <-;
           reflexivity |]).
    destruct i; discriminate Hb.
Defined.

(** ** Dates in binary64 *)

Lemma valid_time_small (t : Z) : valid_time t -> Z.abs t < 2 ^ 53.
Proof. unfold valid_time. change (2 ^ 53) with 9007199254740992. lia. Qed.

Lemma Date_of_number_valid {num : Type} `{JsNumber num} (n : num) (t : Z) :
  Date_of_number n = Some t -> valid_time t.
Proof.
  unfold Date_of_number, valid_time. destruct (truncZ n) as [t' |];
    [| discriminate].
  destruct (Z.leb_spec (Z.abs t') 8640000000000000); [| discriminate].
  intros E. now injection E as <-.
Qed.

Lemma convertTimestamp_valid {num : Type} `{JsNumber num} (host : Host)
  (v : jsval num) (t : Z) :
  valid_host host -> convertTimestamp host v = Some t -> valid_time t.
Proof.
  intros [Hnow Hparse]. unfold convertTimestamp.
  destruct (negb (truthy v)); [intros E; now injection E as <- |].
  destruct (match v with JStr s => Date_parse host s | _ => None end)
    as [t0 |] eqn:E0.
  - intros E. injection E as <-. destruct v; try discriminate.
    now apply (Hparse s).
  - destruct (isNaN (parseFloat v)).
    + destruct (Date_new host v) as [t1 |] eqn:E1.
      * intros E. injection E as <-. destruct v as [| | n | s];
          cbn [Date_new] in E1.
        -- discriminate.
        -- injection E1 as <-. unfold valid_time. cbn. lia.
        -- now apply Date_of_number_valid in E1.
        -- now apply (Hparse s).
      * intros E. now injection E as <-.
    + unfold convertNumeric.
      destruct (_ <? _)%js; [apply Date_of_number_valid |].
      destruct (_ <? _)%js; apply Date_of_number_valid.
Qed.

(** The comparison of two dates is the comparison of their instants. *)
Lemma Date_ltb_instants (a b : Z) :
  valid_time a -> valid_time b ->
  Date_ltb (num := F64.t) (Some a) (Some b) = (a <? b).
Proof.
  intros Ha Hb. unfold Date_ltb. cbn [getTime].
  apply F64_ltb_of_Z; now apply valid_time_small.
Qed.

Lemma Date_ltb_invalid (d : Date) :
  Date_ltb (num := F64.t) None d = false
  /\ Date_ltb (num := F64.t) d None = false.
Proof.
  unfold Date_ltb. cbn [getTime ltb F64.number]. split; [reflexivity |].
  unfold SFltb. now destruct (getTime d) as [[] | [] | | [] m e].
Qed.

Lemma filteredData_keep (startDate endDate : option Date) (date : Date) :
  (forall s, startDate = Some (Some s) -> valid_time s) ->
  (forall e, endDate = Some (Some e) -> valid_time e) ->
  (forall t, date = Some t -> valid_time t) ->
  negb (match startDate with
        | Some s => Date_ltb (num := F64.t) date s
        | None => false
        end)
  && negb (match endDate with
           | Some e => Date_gtb (num := F64.t) date e
           | None => false
           end)
  = within startDate endDate date.
Proof.
  intros Hs He Ht. unfold within, Date_gtb.
  change (fun a b : Date => (getTime (num := F64.t) a >? getTime b)%js)
    with (fun a b : Date => Date_ltb (num := F64.t) b a).
  destruct date as [t |].
  - specialize (Ht t eq_refl). f_equal.
    + destruct startDate as [[s |] |]; [| | reflexivity].
      * rewrite Date_ltb_instants by auto. symmetry. apply Z.leb_antisym.
      * now rewrite (proj2 (Date_ltb_invalid _)).
    + destruct endDate as [[e |] |]; [| | reflexivity].
      * unfold gtb. fold (Date_ltb (num := F64.t) (Some e) (Some t)).
        rewrite Date_ltb_instants by auto. symmetry. apply Z.leb_antisym.
      * unfold gtb. fold (Date_ltb (num := F64.t) None (Some t)).
        now rewrite (proj1 (Date_ltb_invalid _)).
  - destruct startDate as [s |], endDate as [e |]; cbn [negb andb];
      unfold gtb;
      rewrite ?(proj1 (Date_ltb_invalid _));
      try fold (Date_ltb (num := F64.t) e None);
      rewrite ?(proj2 (Date_ltb_invalid _)); reflexivity.
Qed.

Lemma filteredData_within (host : Host) (data : list Row)
  (selectedX : string) (startDate endDate : option Date) :
  valid_host host ->
  (forall s, startDate = Some (Some s) -> valid_time s) ->
  (forall e, endDate = Some (Some e) -> valid_time e) ->
  filteredData (num := F64.t) host data selectedX startDate endDate
  = List.filter
      (fun row =>
         within startDate endDate
           (convertTimestamp (num := F64.t) host (cell row selectedX)))
      data.
Proof.
  intros Hh Hs He.
  rewrite filteredData_filter. apply List.filter_ext. intros row.
  cbn zeta. apply filteredData_keep; [assumption | assumption |].
  intros t E. now apply (convertTimestamp_valid host _ t Hh) in E.
Qed.

(** X15. In binary64 the range filter compares instants exactly and
    includes both bounds: a row is kept when its instant is at or after
    the start and at or before the end.  A row whose date is invalid is
    kept, and a bound that is [null] or an invalid date excludes
    nothing. *)
Theorem filteredData_inclusive :
  forall (host : Host) (data : list Row) (selectedX : string)
         (startDate endDate : option Date),
    valid_host host ->
    (forall s, startDate = Some (Some s) -> valid_time s) ->
    (forall e, endDate = Some (Some e) -> valid_time e) ->
    filteredData (num := F64.t) host data selectedX startDate endDate
    = List.filter
        (fun row =>
           within startDate endDate
             (convertTimestamp (num := F64.t) host (cell row selectedX)))
        data.
Proof.
  intros host data selectedX startDate endDate.
  apply filteredData_within.
Qed.

(** The sample host gives valid time values. *)
Lemma digit_of_bound (c : ascii) (d : N) :
  digit_of c = Some d -> (d <= 9)%N.
Proof.
  unfold digit_of. destruct (_ && _)%N eqn:E; [| discriminate].
  intros K. injection K as <-. apply andb_true_iff in E as [E1 E2].
  apply N.leb_le in E1, E2. lia.
Qed.

Lemma two_digits_bound (a b : ascii) (z : Z) :
  SampleHost.two_digits a b = Some z -> 0 <= z <= 99.
Proof.
  unfold SampleHost.two_digits.
  destruct (digit_of a) as [p |] eqn:Ea; [| discriminate].
  destruct (digit_of b) as [q |] eqn:Eb; [| discriminate].
  intros K. injection K as <-.
  apply digit_of_bound in Ea, Eb. lia.
Qed.

Lemma SampleHost_valid : valid_host SampleHost.host.
Proof.
  split; [unfold valid_time; cbn; lia |].
  intros s t. cbn [Date_parse SampleHost.host].
  unfold SampleHost.parse_iso_date.
  destruct (list_ascii_of_string s)
    as [| y1 [| y2 [| y3 [| y4 [| d1 [| m1 [| m2 [| d2 [| a1 [| a2 [| ? ?]]]]]]]]]]];
    try discriminate.
  destruct (_ && _)%N; [| discriminate].
  destruct (SampleHost.two_digits y1 y2) as [yh |] eqn:E1; [| discriminate].
  destruct (SampleHost.two_digits y3 y4) as [yl |] eqn:E2; [| discriminate].
  destruct (SampleHost.two_digits m1 m2) as [m |] eqn:E3; [| discriminate].
  destruct (SampleHost.two_digits a1 a2) as [d |] eqn:E4; [| discriminate].
  destruct (_ && _) eqn:E; [| discriminate].
  intros K. injection K as <-.
  apply two_digits_bound in E1, E2, E3, E4.
  apply andb_true_iff in E as [E Hd]. apply andb_true_iff in E as [E Hd1].
  apply andb_true_iff in E as [Hm1 Hm2].
  apply Z.leb_le in Hm1, Hm2, Hd1.
  unfold valid_time, days_from_civil. cbv zeta.
  destruct (m <=? 2); destruct (2 <? m).
  all: Z.div_mod_to_equations; lia.
Qed.

Lemma filteredData_inclusive_witness :
  filteredData (num := F64.t) SampleHost.host Samples.rows_valid "t"
    (Some (Some 1704153600000)) (Some (Some 1704240000000))
  = [Samples.row "2024-01-02" "20" "A"; Samples.row "2024-01-03" "30" "B"].
Proof.
  rewrite (filteredData_inclusive SampleHost.host Samples.rows_valid "t"
             (Some (Some 1704153600000)) (Some (Some 1704240000000))
             SampleHost_valid).
  - vm_compute. reflexivity.
  - intros s E. injection E as <-. unfold valid_time. cbn. lia.
  - intros e E. injection E as <-. unfold valid_time. cbn. lia.
Defined.

(** ** Constant data *)

Lemma F64_add_zero (c : F64.t) :
  F64.is_finite c = true ->
  exists c', (c + zero)%js = c' /\ SFcompare c' c = Some Eq.
Proof.
  destruct c as [[] | [] | | s m e]; try discriminate; intros _.
  - exists (S754_zero false). now split.
  - exists (S754_zero false). now split.
  - exists (S754_finite s m e). split; [reflexivity |].
    now apply SFcompare_refl.
Qed.

Lemma sort_numbers_repeat (c : F64.t) (n : nat) :
  F64.is_finite c = true -> sort_numbers (repeat c n) = repeat c n.
Proof.
  intros Hc. induction n as [| n IH]; [reflexivity |].
  cbn [repeat]. unfold sort_numbers in *. cbn [foldr]. rewrite IH.
  destruct n as [| n]; [reflexivity |].
  cbn [repeat insert_sorted]. unfold sorts_after.
  rewrite (F64_sub_self c Hc). reflexivity.
Qed.

Lemma at_index_repeat (c : F64.t) (n i : nat) :
  (i < n)%nat -> at_index (repeat c n) i = c.
Proof.
  intros Hi. unfold at_index. apply nth_repeat_lt. exact Hi.
Qed.

Lemma filter_none {A : Type} (f : A -> bool) (l : list A) :
  (forall a, a ∈ l -> f a = false) -> List.filter f l = [].
Proof.
  induction l as [| a l IH]; intros Hf; [reflexivity |].
  cbn [List.filter]. rewrite (Hf a) by left.
  apply IH. intros b Hb. apply Hf. now right.
Qed.

(** X16. In binary64 a series whose values are all the same finite
    Number has no outliers, whatever its length. *)
Theorem detectOutliers_constant :
  forall (c : F64.t) (n : nat),
    F64.is_finite c = true -> detectOutliers (repeat c n) = [].
Proof.
  intros c n Hc. unfold detectOutliers.
  rewrite (sort_numbers_repeat c n Hc), repeat_length.
  destruct (Nat.ltb_spec n 4) as [_ | Hn]; [reflexivity |].
  assert (q1_index n < n)%nat as H1.
  { unfold q1_index. apply Nat.Div0.div_lt_upper_bound; lia. }
  assert (q3_index n < n)%nat as H3.
  { unfold q3_index. apply Nat.Div0.div_lt_upper_bound; lia. }
  rewrite !at_index_repeat by assumption.
  unfold lowerBound_of, upperBound_of. rewrite (F64_sub_self c Hc).
  change (of_decimal false 15 (-1) * zero)%js with (zero : F64.t).
  rewrite F64_sub_zero.
  destruct (F64_add_zero c Hc) as (c' & -> & Hc').
  apply filter_none. intros item Hi.
  apply elem_of_lookup_imap in Hi as (i & v & -> & Hv).
  apply list_elem_of_lookup_2, list_elem_of_In, repeat_spec in Hv as ->.
  cbn [isOutlier]. unfold gtb. cbn [ltb F64.number].
  rewrite SFltb_irrefl. unfold SFltb. now rewrite Hc'.
Qed.

Lemma detectOutliers_constant_witness :
  detectOutliers (repeat (of_decimal false 25 (-1) : F64.t) 8) = [].
Proof.
  apply (detectOutliers_constant (of_decimal false 25 (-1)) 8).
  reflexivity.
Defined.

Lemma Math_min_repeat (c : F64.t) (n : nat) :
  F64.is_finite c = true -> Math_min (repeat c (S n)) = c.
Proof.
  intros Hc. unfold Math_min. cbn [repeat fold_left].
  assert (min_step (infinity false) c = c) as ->.
  { destruct c as [[] | [] | | [] m e]; try discriminate; reflexivity. }
  induction n as [| n IH]; [reflexivity |].
  cbn [repeat fold_left].
  assert (min_step c c = c) as ->; [| exact IH].
  cbn [min_step F64Math.math]. unfold F64Math.pick_min.
  rewrite SFltb_irrefl. now destruct c as [[] | [] | | [] m e].
Qed.

Lemma Math_max_repeat (c : F64.t) (n : nat) :
  F64.is_finite c = true -> Math_max (repeat c (S n)) = c.
Proof.
  intros Hc. unfold Math_max. cbn [repeat fold_left].
  assert (max_step (infinity true) c = c) as ->.
  { destruct c as [[] | [] | | [] m e]; try discriminate; reflexivity. }
  induction n as [| n IH]; [reflexivity |].
  cbn [repeat fold_left].
  assert (max_step c c = c) as ->; [| exact IH].
  cbn [max_step F64Math.math]. unfold F64Math.pick_max.
  rewrite SFltb_irrefl. now destruct c as [[] | [] | | [] m e].
Qed.

(** X17. [calculateOptimalDataRange] in binary64: for values that are
    all the same non-zero finite Number the padding is 0 and the range
    collapses to that Number, [min = max]; for no values the range is
    from 0 to 1. *)
Theorem calculateOptimalDataRange_degenerate :
  forall (s : bool) (m : positive) (e : Z) (n : nat),
    let c : F64.t := S754_finite s m e in
    calculateOptimalDataRange (repeat c (S n))
    = {| range_min := c; range_max := c |}
    /\ calculateOptimalDataRange ([] : list F64.t)
       = {| range_min := of_Z 0; range_max := of_Z 1 |}.
Proof.
  intros s m e n c. split; [| reflexivity].
  unfold calculateOptimalDataRange.
  cbn [repeat]. change (c :: repeat c n) with (repeat c (S n)).
  rewrite Math_min_repeat, Math_max_repeat by reflexivity.
  rewrite (F64_sub_self c eq_refl).
  change (zero * of_decimal false 1 (-1))%js with (zero : F64.t).
  rewrite F64_sub_zero. reflexivity.
Qed.

(** ** An undefined value inside a time window *)

Lemma F64_sum_nan (l : list F64.t) : fold_left add l nan = nan.
Proof. induction l as [| a l IH]; [reflexivity | exact IH]. Qed.

Lemma F64_sum_with_nan (l : list F64.t) (a : F64.t) :
  nan ∈ l -> fold_left add l a = nan.
Proof.
  intros Hl. apply list_elem_of_split in Hl as (l1 & l2 & ->).
  rewrite fold_left_app. cbn [fold_left].
  assert (forall x : F64.t, (x + nan)%js = nan) as ->
      by (now intros [[] | [] | | [] m e]).
  apply F64_sum_nan.
Qed.

Lemma F64_mean_with_nan (l : list F64.t) : nan ∈ l -> mean_of l = nan.
Proof.
  intros Hl. unfold mean_of, sum_from_zero.
  now rewrite (F64_sum_with_nan l _ Hl).
Qed.

(** X18. In binary64 a point without a value makes every time-based
    average whose window contains it NaN. *)
Theorem timeBasedMovingAverage_undefined_value :
  forall (dataPoints : list (SeriesPoint F64.t)) (hoursWindow : Z)
         (i : nat) (p q : SeriesPoint F64.t),
    dataPoints !! i = Some p ->
    q ∈ windowPoints dataPoints hoursWindow i p ->
    value q = None ->
    timeBasedMovingAverage dataPoints hoursWindow !! i = Some (JNum nan).
Proof.
  intros dataPoints hoursWindow i p q Hp Hq Hv.
  unfold timeBasedMovingAverage. rewrite list_lookup_imap, Hp.
  cbn [fmap option_fmap option_map]. cbn zeta.
  destruct (windowPoints dataPoints hoursWindow i p) as [| w wp] eqn:E;
    [now apply elem_of_nil in Hq |].
  f_equal. f_equal. apply F64_mean_with_nan.
  apply list_elem_of_fmap. exists q. split; [| exact Hq].
  unfold value_number. now rewrite Hv.
Qed.

Lemma timeBasedMovingAverage_undefined_value_witness :
  timeBasedMovingAverage
    [ {| timestamp := Some 0; value := Some (of_Z 1 : F64.t) |};
      {| timestamp := Some 3600000; value := None |};
      {| timestamp := Some 7200000; value := None |} ] 24 !! 2%nat
  = Some (JNum nan).
Proof.
  apply (timeBasedMovingAverage_undefined_value _ 24 2
           {| timestamp := Some 7200000; value := None |}
           {| timestamp := Some 3600000; value := None |}).
  - reflexivity.
  - vm_compute. right. left.
  - reflexivity.
Defined.

(** ** A point without a valid instant *)

Lemma filter_index_none {A : Type} (f : nat -> A -> bool) (k : nat)
  (l : list A) :
  (forall i a, f i a = false) -> filter_index f k l = [].
Proof.
  intros Hf. revert k. induction l as [| a l IH]; intros k; [reflexivity |].
  cbn [filter_index]. now rewrite Hf.
Qed.

Lemma filter_index_elem {A : Type} (f : nat -> A -> bool) (k : nat)
  (l : list A) (a : A) :
  a ∈ filter_index f k l -> exists i, f i a = true.
Proof.
  revert k. induction l as [| b l IH]; intros k Ha;
    [now apply elem_of_nil in Ha |].
  cbn [filter_index] in Ha. destruct (f k b) eqn:E.
  - apply elem_of_cons in Ha as [-> | Ha]; [now exists k | eauto].
  - eauto.
Qed.

(** X19. In binary64 a point whose instant is an invalid date is not
    smoothed: the time-based average returns its value as it is.  Such a
    point lies in no window, so it contributes to no average. *)
Theorem timeBasedMovingAverage_invalid_instant :
  forall (dataPoints : list (SeriesPoint F64.t)) (hoursWindow : Z),
    (forall i p, dataPoints !! i = Some p -> timestamp p = None ->
                 timeBasedMovingAverage dataPoints hoursWindow !! i
                 = Some (value_js p))
    /\ (forall i p q, q ∈ windowPoints dataPoints hoursWindow i p ->
                      timestamp q <> None).
Proof.
  intros dataPoints hoursWindow. split.
  - intros i p Hp Ht. unfold timeBasedMovingAverage.
    rewrite list_lookup_imap, Hp. cbn [fmap option_fmap option_map].
    cbn zeta. unfold windowPoints. rewrite Ht. cbn [getTime].
    rewrite filter_index_none; [reflexivity |].
    intros j a. apply andb_false_iff. right.
    unfold geb. cbn [leb sub F64.number]. unfold SFleb.
    now destruct (window_ms hoursWindow) as [[] | [] | | [] m e].
  - intros i p q Hq Ht. unfold windowPoints in Hq.
    apply filter_index_elem in Hq as (j & Hj).
    apply andb_true_iff in Hj as [_ Hj]. rewrite Ht in Hj.
    unfold geb in Hj. cbn [getTime leb F64.number] in Hj.
    unfold SFleb in Hj.
    now destruct (getTime (timestamp p) - window_ms hoursWindow)%js
      as [[] | [] | | [] m e].
Qed.

Lemma timeBasedMovingAverage_invalid_instant_witness :
  timeBasedMovingAverage
    [ {| timestamp := Some 0; value := Some (of_Z 1 : F64.t) |};
      {| timestamp := None; value := Some (of_Z 9) |};
      {| timestamp := Some 3600000; value := Some (of_Z 3) |} ] 24 !! 1%nat
  = Some (JNum (of_Z 9)).
Proof.
  apply (proj1 (timeBasedMovingAverage_invalid_instant _ 24) 1%nat
           {| timestamp := None; value := Some (of_Z 9) |});
    reflexivity.
Defined.

(** ** The grouping column *)

Lemma toLowerCase_app (a b : string) :
  toLowerCase (String.append a b)
  = String.append (toLowerCase a) (toLowerCase b).
Proof.
  induction a as [| c a IH]; [reflexivity |].
  change (toLowerCase (String.append (String c a) b))
    with (String (lower_ascii c) (toLowerCase (String.append a b))).
  now rewrite IH.
Qed.

Lemma substring_app_prefix (k b : string) :
  String.substring 0 (String.length k) (String.append k b) = k.
Proof.
  induction k as [| d k IHk].
  - now destruct b.
  - change (String.substring 0 (String.length (String d k))
              (String.append (String d k) b))
      with (String d (String.substring 0 (String.length k)
                        (String.append k b))).
    now rewrite IHk.
Qed.

Lemma substring_app_middle (a k b : string) :
  String.substring (String.length a) (String.length k)
    (String.append a (String.append k b)) = k.
Proof.
  induction a as [| c a IH]; [exact (substring_app_prefix k b) | exact IH].
Qed.

Lemma includes_app (a k b : string) :
  includes (String.append a (String.append k b)) k = true.
Proof.
  unfold includes.
  destruct (String.index 0 k (String.append a (String.append k b)))
    as [n |] eqn:E; [reflexivity |].
  destruct k as [| d k].
  - destruct (String.append a (String.append "" b)); discriminate E.
  - exfalso.
    apply (String.index_correct3 0 (String.length a) (String d k)
             (String.append a (String.append (String d k) b)) E);
      [discriminate | lia |].
    apply substring_app_middle.
Qed.

(** X20. The grouping column is found by a test on substrings that
    ignores case: a column name that contains [point], [name], [id] or
    [station] anywhere, in any case, qualifies ([Humidity] and [WIDTH_mm]
    do, for the [id] in them). *)
Theorem is_grouping_name_substring :
  forall a k b : string,
    toLowerCase k ∈ ["point"; "name"; "id"; "station"]%string ->
    is_grouping_name (String.append a (String.append k b)) = true.
Proof.
  intros a k b Hk. unfold is_grouping_name.
  rewrite !toLowerCase_app.
  repeat (apply elem_of_cons in Hk as [E | Hk];
          [rewrite E, includes_app;
           rewrite ?orb_true_r, ?orb_true_l; reflexivity |]).
  now apply elem_of_nil in Hk.
Qed.

Lemma is_grouping_name_substring_witness :
  is_grouping_name "Humidity" = true /\ is_grouping_name "WIDTH_mm" = true.
Proof.
  split.
  - apply (is_grouping_name_substring "Hum" "id" "ity"). right. right. left.
  - apply (is_grouping_name_substring "W" "ID" "TH_mm"). right. right. left.
Defined.

(** ** The automatic date range *)

Lemma F64_of_Z_finite (t : Z) :
  Z.abs t < 2 ^ 53 -> F64.is_finite (of_Z t : F64.t) = true.
Proof.
  intros Ht. destruct t as [| p | p].
  - reflexivity.
  - rewrite F64_of_Z_pos.
    now destruct (F64_round_integer false p ltac:(lia)) as (m & e & -> & _).
  - rewrite F64_of_Z_neg.
    now destruct (F64_round_integer true p ltac:(lia)) as (m & e & -> & _).
Qed.

Lemma F64_finite_not_nan (c : F64.t) :
  F64.is_finite c = true -> isNaN c = false.
Proof. now destruct c. Qed.

Lemma F64_trunc_add_zero (c : F64.t) :
  F64.is_finite c = true -> truncZ (c + zero)%js = truncZ c.
Proof. now destruct c as [[] | [] | | [] m e]. Qed.

Lemma sort_dates_repeat (t : Z) (n : nat) :
  Z.abs t < 2 ^ 53 ->
  sort_dates (num := F64.t) (repeat (Some t) n) = repeat (Some t) n.
Proof.
  intros Ht. induction n as [| n IH]; [reflexivity |].
  cbn [repeat]. unfold sort_dates in *. cbn [foldr]. rewrite IH.
  destruct n as [| n]; [reflexivity |].
  cbn [repeat insert_date getTime]. unfold sorts_after.
  rewrite (F64_sub_self _ (F64_of_Z_finite t Ht)). reflexivity.
Qed.

Lemma map_constant {A B : Type} (f : A -> B) (b : B) (l : list A) :
  (forall a, a ∈ l -> f a = b) -> map f l = repeat b (length l).
Proof.
  induction l as [| a l IH]; intros Hf; [reflexivity |].
  cbn [map length repeat]. rewrite (Hf a) by left. f_equal.
  apply IH. intros a' Ha'. apply Hf. now right.
Qed.

Lemma filter_repeat {A : Type} (f : A -> bool) (a : A) (n : nat) :
  f a = true -> List.filter f (repeat a n) = repeat a n.
Proof.
  intros Ha. induction n as [| n IH]; [reflexivity |].
  cbn [repeat List.filter]. rewrite Ha. now f_equal.
Qed.

Lemma last_repeat {A : Type} (a : A) (n : nat) :
  List.last (repeat a n) a = a.
Proof.
  induction n as [| n IH]; [reflexivity |].
  cbn [repeat]. destruct n; [reflexivity | exact IH].
Qed.

Lemma insert_date_nonempty {num : Type} `{JsNumber num} (d : Date)
  (l : list Date) : insert_date (num := num) d l <> [].
Proof.
  destruct l as [| d' l]; cbn [insert_date]; [discriminate |].
  now destruct (sorts_after _ _).
Qed.

Lemma Date_valid_not_nan (host : Host) (v : jsval F64.t) :
  valid_host host ->
  negb (isNaN (getTime (num := F64.t) (convertTimestamp host v)))
  = match convertTimestamp host v with Some _ => true | None => false end.
Proof.
  intros Hh. destruct (convertTimestamp host v) as [t |] eqn:E;
    [| reflexivity].
  cbn [getTime]. apply negb_true_iff, F64_finite_not_nan, F64_of_Z_finite.
  apply valid_time_small. now apply (convertTimestamp_valid host v t Hh).
Qed.

(** X21. In binary64, [calculateOptimalDateRange] returns [null] for
    the start exactly when no row has a valid date, and then [null] for
    the end too; the effect that applies the automatic range then leaves
    the bounds as they were. *)
Theorem calculateOptimalDateRange_no_valid_date :
  forall (host : Host) (data : list Row) (xColumn : string),
    valid_host host ->
    let r := calculateOptimalDateRange (num := F64.t) host data xColumn in
    (range_start r = None
     <-> forall row, row ∈ data ->
                     convertTimestamp (num := F64.t) host (cell row xColumn)
                     = None)
    /\ (range_end r = None <-> range_start r = None)
    /\ (range_start r = None ->
        forall auto startDate endDate,
          applyAutoDateRange (num := F64.t) host auto data xColumn
            startDate endDate
          = (startDate, endDate)).
Proof.
  intros host data xColumn Hh r. subst r.
  assert (valid_dates (num := F64.t) host data xColumn = []
          <-> forall row, row ∈ data ->
                          convertTimestamp (num := F64.t) host
                            (cell row xColumn) = None) as Hv.
  { unfold valid_dates, sort_dates.
    induction data as [| row data IH].
    - split; [intros _ row K; now apply elem_of_nil in K | reflexivity].
    - cbn [map List.filter]. rewrite (Date_valid_not_nan host _ Hh).
      destruct (convertTimestamp host (cell row xColumn)) as [t |] eqn:E.
      + cbn [foldr]. split.
        * intros K. now apply insert_date_nonempty in K.
        * intros K. specialize (K row ltac:(left)). congruence.
      + rewrite IH. split.
        * intros K row' Hr. apply elem_of_cons in Hr as [-> | Hr]; auto.
        * intros K row' Hr. apply K. now right. }
  unfold applyAutoDateRange, calculateOptimalDateRange.
  destruct data as [| row data].
  - cbn [range_start range_end length Nat.ltb Nat.leb andb].
    repeat split; auto. intros _ row K. now apply elem_of_nil in K.
  - destruct (valid_dates host (row :: data) xColumn) as [| first rest].
    + cbn [range_start range_end]. repeat split; auto.
      * intros _. now apply Hv.
      * intros _ auto startDate endDate. now destruct (_ && _).
    + cbn [range_start range_end]. repeat split; try discriminate.
      intros K. apply Hv in K. discriminate K.
Qed.

Lemma calculateOptimalDateRange_no_valid_date_witness :
  range_start
    (calculateOptimalDateRange (num := F64.t) SampleHost.host
       [Samples.row "1e300" "1" "A"] "t") = None.
Proof.
  apply (proj1 (calculateOptimalDateRange_no_valid_date SampleHost.host
                  [Samples.row "1e300" "1" "A"] "t" SampleHost_valid)).
  intros row Hr. apply list_elem_of_singleton in Hr as ->.
  vm_compute. reflexivity.
Defined.

(** Where [convertTimestamp] does not read the clock, its result is the
    same at every moment. *)
Lemma convertTimestamp_clock_free {num : Type} `{JsNumber num}
  (host later : Host) (v : jsval num) :
  (forall s, Date_parse later s = Date_parse host s) ->
  reads_clock host v = false ->
  convertTimestamp later v = convertTimestamp host v.
Proof.
  intros Hp. unfold reads_clock, convertTimestamp.
  destruct (negb (truthy v)); [discriminate |].
  destruct v as [| | n | s]; cbn [Date_new]; rewrite ?Hp.
  - now destruct (isNaN (parseFloat JUndefined)).
  - now destruct (isNaN (parseFloat JNull)).
  - now destruct (isNaN (parseFloat (JNum n))), (Date_of_number n).
  - destruct (Date_parse host s); [reflexivity |].
    now destruct (isNaN (parseFloat (JStr s))).
Qed.

(** X22. In binary64, when every row has the same instant and none of
    them makes [convertTimestamp] read the clock, the automatic range
    starts and ends at that instant (the padding is 0); the effect sets
    both bounds to it, and the range filter, which runs later and
    includes its bounds, keeps every row. *)
Theorem calculateOptimalDateRange_single_instant :
  forall (host later : Host) (data : list Row) (xColumn : string) (t : Z),
    valid_host host ->
    (forall s, Date_parse later s = Date_parse host s) ->
    data <> [] ->
    (forall row, row ∈ data ->
                 reads_clock (num := F64.t) host (cell row xColumn) = false
                 /\ convertTimestamp (num := F64.t) host (cell row xColumn)
                    = Some t) ->
    calculateOptimalDateRange (num := F64.t) host data xColumn
    = {| range_start := Some (Some t); range_end := Some (Some t) |}
    /\ forall startDate endDate,
        applyAutoDateRange (num := F64.t) host true data xColumn
          startDate endDate
        = (Some (Some t), Some (Some t))
        /\ filteredData (num := F64.t) later data xColumn
             (Some (Some t)) (Some (Some t)) = data.
Proof.
  intros host later data xColumn t Hh Hp Hd Hrows.
  assert (forall row, row ∈ data ->
                      convertTimestamp (num := F64.t) host (cell row xColumn)
                      = Some t) as Hall
      by (intros row Hr; now apply Hrows).
  destruct data as [| row data]; [congruence |].
  assert (valid_time t) as Ht.
  { apply (convertTimestamp_valid (num := F64.t) host
             (cell row xColumn) t Hh).
    apply Hall. left. }
  pose proof (valid_time_small t Ht) as Hs.
  pose proof (F64_of_Z_finite t Hs) as Hf.
  assert (calculateOptimalDateRange (num := F64.t) host (row :: data) xColumn
          = {| range_start := Some (Some t); range_end := Some (Some t) |})
    as Hr.
  { unfold calculateOptimalDateRange, valid_dates.
    rewrite (map_constant
               (fun row0 => convertTimestamp (num := F64.t) host
                              (cell row0 xColumn))
               (Some t) (row :: data) Hall).
    rewrite filter_repeat
      by (cbn [getTime]; now rewrite (F64_finite_not_nan _ Hf)).
    rewrite (sort_dates_repeat t _ Hs). cbn [length repeat].
    rewrite last_repeat. cbn [getTime].
    rewrite (F64_sub_self _ Hf).
    change (zero * of_decimal false 5 (-2))%js with (zero : F64.t).
    rewrite F64_sub_zero. unfold Date_of_number.
    rewrite (F64_trunc_add_zero _ Hf), (F64_trunc_of_Z t Hs).
    unfold valid_time in Ht. apply Z.leb_le in Ht. now rewrite Ht. }
  split; [exact Hr |]. intros startDate endDate. split.
  - unfold applyAutoDateRange. now rewrite Hr.
  - rewrite filteredData_filter.
    assert (forall l : list Row,
               (forall r, r ∈ l -> r ∈ row :: data) ->
               List.filter
                 (fun r =>
                    let date :=
                      convertTimestamp (num := F64.t) later
                        (cell r xColumn) in
                    negb (Date_ltb (num := F64.t) date (Some t))
                    && negb (Date_gtb (num := F64.t) date (Some t))) l = l)
      as Hk.
    { induction l as [| r l IH]; intros Hl; [reflexivity |].
      cbn [List.filter]. cbv zeta.
      destruct (Hrows r (Hl r ltac:(left))) as [Hc Hv].
      rewrite (convertTimestamp_clock_free host later _ Hp Hc), Hv.
      unfold Date_ltb, Date_gtb, gtb. cbn [getTime ltb F64.number].
      rewrite SFltb_irrefl. cbn [negb andb]. f_equal.
      apply IH. intros r' Hr'. apply Hl. now right. }
    now apply Hk.
Qed.

(** Two rows of 2024-01-02; the filter runs a minute after the effect. *)
Lemma calculateOptimalDateRange_single_instant_witness :
  let data := [Samples.row "2024-01-02" "1" "A";
               Samples.row "2024-01-02" "2" "B"] in
  let later := {| now := now SampleHost.host + 60000;
                  Date_parse := SampleHost.parse_iso_date |} in
  calculateOptimalDateRange (num := F64.t) SampleHost.host data "t"
  = {| range_start := Some (Some 1704153600000);
       range_end := Some (Some 1704153600000) |}
  /\ filteredData (num := F64.t) later data "t"
       (Some (Some 1704153600000)) (Some (Some 1704153600000)) = data.
Proof.
  intros data later.
  destruct (calculateOptimalDateRange_single_instant SampleHost.host later
              data "t" 1704153600000 SampleHost_valid) as [G1 G2].
  - reflexivity.
  - discriminate.
  - intros row Hr. unfold data in Hr.
    repeat (apply elem_of_cons in Hr as [-> | Hr];
            [split; vm_compute; reflexivity |]).
    now apply elem_of_nil in Hr.
  - split; [exact G1 | exact (proj2 (G2 None None))].
Defined.

(** ** The order of finite Numbers *)

Lemma finite_number_exponent (s : bool) (m : positive) (e : Z) :
  finite_number (S754_finite s m e) = true ->
  -1074 <= e <= 971
  /\ Zpos (digits2_pos m) <= 53
  /\ (-1074 < e -> Zpos (digits2_pos m) = 53).
Proof.
  unfold finite_number, valid_binary, bounded, canonical_mantissa.
  cbn [F64.is_finite andb]. intros Hv.
  apply andb_true_iff in Hv as [Hc Hb].
  apply Z.eqb_eq in Hc. apply Z.leb_le in Hb.
  unfold fexp, emin, F64.prec, F64.emax in *. lia.
Qed.

Lemma scaled_finite (s : bool) (m : positive) (e : Z) :
  -1074 <= e ->
  scaled (S754_finite s m e) = (if s then -1 else 1) * (Zpos m * 2 ^ (e + 1074))
  /\ 0 < Zpos m * 2 ^ (e + 1074).
Proof.
  intros He. cbn [scaled]. cbv zeta.
  assert (0 < 2 ^ (e + 1074)) by (apply Z.pow_pos_nonneg; lia).
  split; [destruct s; lia | lia].
Qed.

(** Of two canonical mantissas, the one with the smaller exponent has the
    smaller value. *)
Lemma canonical_exponent_lt (m1 m2 : positive) (e1 e2 : Z) (s1 s2 : bool) :
  finite_number (S754_finite s1 m1 e1) = true ->
  finite_number (S754_finite s2 m2 e2) = true ->
  e1 < e2 ->
  Zpos m1 * 2 ^ (e1 + 1074) < Zpos m2 * 2 ^ (e2 + 1074).
Proof.
  intros H1 H2 Hlt.
  apply finite_number_exponent in H1 as (He1 & Hd1 & _).
  apply finite_number_exponent in H2 as (He2 & _ & Hd2).
  specialize (Hd2 ltac:(lia)).
  pose proof (digits2_bounds m1) as [_ B1].
  pose proof (digits2_bounds m2) as [B2 _]. rewrite Hd2 in B2.
  assert (Zpos m1 < 2 ^ 53).
  { eapply Z.lt_le_trans; [exact B1 |]. apply Z.pow_le_mono_r; lia. }
  assert (2 ^ (e2 + 1074) = 2 ^ (e1 + 1074) * 2 ^ (e2 - e1)) as ->.
  { rewrite <- Z.pow_add_r by lia. f_equal. lia. }
  assert (2 <= 2 ^ (e2 - e1)).
  { change 2 with (2 ^ 1) at 1. apply Z.pow_le_mono_r; lia. }
  assert (0 < 2 ^ (e1 + 1074)) by (apply Z.pow_pos_nonneg; lia).
  change (2 ^ (53 - 1)) with (2 ^ 52) in B2.
  change (2 ^ 53) with (2 ^ 52 * 2) in *.
  set (P := 2 ^ (e1 + 1074)) in *. set (Q := 2 ^ (e2 - e1)) in *.
  set (K := 2 ^ 52) in *.
  assert (0 < K) by (subst K; lia).
  assert (Zpos m1 * P < K * 2 * P) by (apply Z.mul_lt_mono_pos_r; lia).
  assert (K * 2 * P <= Zpos m2 * Q * P).
  { apply Z.mul_le_mono_nonneg_r; [lia |].
    apply Z.mul_le_mono_nonneg; lia. }
  replace (Zpos m2 * (P * Q)) with (Zpos m2 * Q * P) by ring. lia.
Qed.

Lemma F64_compare_scaled (x y : F64.t) :
  finite_number x = true -> finite_number y = true ->
  SFcompare x y = Some (scaled x ?= scaled y).
Proof.
  intros Hx Hy.
  destruct x as [sx | sx | | sx mx ex]; try discriminate Hx;
    destruct y as [sy | sy | | sy my ey]; try discriminate Hy.
  - reflexivity.
  - pose proof (finite_number_exponent _ _ _ Hy) as (He & _).
    destruct (scaled_finite sy my ey ltac:(lia)) as [-> Hp].
    cbn [SFcompare scaled]. f_equal. symmetry.
    destruct sy; [apply Z.compare_gt_iff | apply Z.compare_lt_iff]; lia.
  - pose proof (finite_number_exponent _ _ _ Hx) as (He & _).
    destruct (scaled_finite sx mx ex ltac:(lia)) as [-> Hp].
    cbn [SFcompare scaled]. f_equal. symmetry.
    destruct sx; [apply Z.compare_lt_iff | apply Z.compare_gt_iff]; lia.
  - pose proof (finite_number_exponent _ _ _ Hx) as (Hex & _).
    pose proof (finite_number_exponent _ _ _ Hy) as (Hey & _).
    destruct (scaled_finite sx mx ex ltac:(lia)) as [-> Hpx].
    destruct (scaled_finite sy my ey ltac:(lia)) as [-> Hpy].
    assert (ex = ey ->
            (Zpos mx * 2 ^ (ex + 1074) ?= Zpos my * 2 ^ (ey + 1074))
            = (Zpos mx ?= Zpos my)) as Heq.
    { intros ->. assert (0 < 2 ^ (ey + 1074))
        by (apply Z.pow_pos_nonneg; lia).
      destruct (Z.compare_spec (Zpos mx) (Zpos my));
        [apply Z.compare_eq_iff | apply Z.compare_lt_iff
         | apply Z.compare_gt_iff]; nia. }
    pose proof (canonical_exponent_lt mx my ex ey sx sy Hx Hy) as Hlt.
    pose proof (canonical_exponent_lt my mx ey ex sy sx Hy Hx) as Hgt.
    cbn [SFcompare]. f_equal.
    change (Pos.compare_cont Eq mx my) with (Zpos mx ?= Zpos my).
    destruct sx, sy.
    + (* both negative *)
      destruct (Z.compare_spec ex ey) as [E | E | E].
      * rewrite <- (Heq E), <- Z.compare_antisym.
        rewrite !(Z.mul_comm (-1)), <- !Z.opp_eq_mul_m1, Z.compare_opp.
        reflexivity.
      * specialize (Hlt E). symmetry. apply Z.compare_gt_iff. lia.
      * specialize (Hgt E). symmetry. apply Z.compare_lt_iff. lia.
    + symmetry. apply Z.compare_lt_iff. lia.
    + symmetry. apply Z.compare_gt_iff. lia.
    + destruct (Z.compare_spec ex ey) as [E | E | E].
      * rewrite <- (Heq E). now rewrite !Z.mul_1_l.
      * specialize (Hlt E). symmetry. apply Z.compare_lt_iff. lia.
      * specialize (Hgt E). symmetry. apply Z.compare_gt_iff. lia.
Qed.

Lemma F64_ltb_scaled (x y : F64.t) :
  finite_number x = true -> finite_number y = true ->
  (x <? y)%js = (scaled x <? scaled y).
Proof.
  intros Hx Hy. cbn [ltb F64.number]. unfold SFltb.
  rewrite F64_compare_scaled by assumption. unfold Z.ltb.
  now destruct (scaled x ?= scaled y).
Qed.

Lemma F64_leb_scaled (x y : F64.t) :
  finite_number x = true -> finite_number y = true ->
  (x <=? y)%js = (scaled x <=? scaled y).
Proof.
  intros Hx Hy. cbn [leb F64.number]. unfold SFleb.
  rewrite F64_compare_scaled by assumption. unfold Z.leb.
  now destruct (scaled x ?= scaled y).
Qed.

(** ** The sign of a difference *)

Lemma shr_1_m (mrs : shr_record) :
  0 <= shr_m mrs -> shr_m (shr_1 mrs) = shr_m mrs / 2.
Proof.
  destruct mrs as [m r s]. cbn [shr_m]. intros Hm.
  destruct m as [| [p | p |] |]; cbn [shr_1 shr_m].
  - reflexivity.
  - apply (Z.div_unique_pos _ _ _ 1); lia.
  - apply (Z.div_unique_pos _ _ _ 0); lia.
  - reflexivity.
  - lia.
Qed.

Lemma iter_shr_m (p : positive) :
  forall mrs : shr_record,
    0 <= shr_m mrs ->
    shr_m (SpecFloat.iter_pos shr_1 p mrs) = shr_m mrs / 2 ^ Zpos p.
Proof.
  induction p as [p IH | p IH |]; intros mrs Hm; cbn [SpecFloat.iter_pos].
  - assert (0 <= shr_m (shr_1 mrs)) as H1.
    { rewrite shr_1_m by exact Hm. apply Z.div_pos; lia. }
    assert (0 <= shr_m (SpecFloat.iter_pos shr_1 p (shr_1 mrs))) as H2.
    { rewrite IH by exact H1. apply Z.div_pos; [lia |].
      apply Z.pow_pos_nonneg; lia. }
    assert (2 ^ Zpos p~1 = 2 * (2 ^ Zpos p * 2 ^ Zpos p)) as ->.
    { assert (Zpos p~1 = 1 + (Zpos p + Zpos p)) as -> by lia.
      rewrite !Z.pow_add_r by lia. reflexivity. }
    rewrite IH, IH, shr_1_m by assumption.
    assert (0 < 2 ^ Zpos p) by (apply Z.pow_pos_nonneg; lia).
    rewrite !Z.div_div by lia. reflexivity.
  - assert (0 <= shr_m (SpecFloat.iter_pos shr_1 p mrs)) as H2.
    { rewrite IH by exact Hm. apply Z.div_pos; [lia |].
      apply Z.pow_pos_nonneg; lia. }
    assert (2 ^ Zpos p~0 = 2 ^ Zpos p * 2 ^ Zpos p) as ->.
    { assert (Zpos p~0 = Zpos p + Zpos p) as -> by lia.
      now rewrite Z.pow_add_r by lia. }
    rewrite IH, IH by assumption.
    assert (0 < 2 ^ Zpos p) by (apply Z.pow_pos_nonneg; lia).
    rewrite !Z.div_div by lia. reflexivity.
  - now rewrite shr_1_m.
Qed.

(** Rounding a positive mantissa at an exponent of at least [-1074]
    leaves a positive mantissa. *)
Lemma shr_fexp_positive (m : positive) (e : Z) :
  -1074 <= e ->
  1 <= shr_m (fst (shr_fexp F64.prec F64.emax (Zpos m) e loc_Exact))
  /\ -1074 <= snd (shr_fexp F64.prec F64.emax (Zpos m) e loc_Exact).
Proof.
  intros He. unfold shr_fexp. cbn [Zdigits2 shr_record_of_loc].
  pose proof (digits2_bounds m) as [Blo _].
  set (d := Zpos (digits2_pos m)) in *.
  assert (fexp F64.prec F64.emax (d + e) - e < d) as Hn.
  { unfold fexp, emin, F64.prec, F64.emax. subst d. lia. }
  destruct (fexp F64.prec F64.emax (d + e) - e) as [| n | n] eqn:En;
    cbn [shr fst snd shr_m]; [lia | | lia].
  rewrite iter_shr_m by (cbn [shr_m]; lia). cbn [shr_m]. split; [| lia].
  apply Z.div_le_lower_bound; [apply Z.pow_pos_nonneg; lia |].
  rewrite Z.mul_1_r. etransitivity; [| exact Blo].
  apply Z.pow_le_mono_r; lia.
Qed.

Lemma binary_round_aux_sign (s : bool) (m : positive) (e : Z) :
  -1074 <= e ->
  (exists m' e', binary_round_aux F64.prec F64.emax s (Zpos m) e loc_Exact
                 = S754_finite s m' e')
  \/ binary_round_aux F64.prec F64.emax s (Zpos m) e loc_Exact
     = S754_infinity s.
Proof.
  intros He. unfold binary_round_aux.
  destruct (shr_fexp_positive m e He) as [H1 H2].
  destruct (shr_fexp F64.prec F64.emax (Zpos m) e loc_Exact)
    as [mrs' e']. cbn [fst snd] in H1, H2.
  assert (1 <= round_nearest_even (shr_m mrs') (loc_of_shr_record mrs'))
    as Hr.
  { unfold round_nearest_even.
    destruct (loc_of_shr_record mrs') as [| []]; try lia.
    destruct (Z.even (shr_m mrs')); lia. }
  destruct (round_nearest_even (shr_m mrs') (loc_of_shr_record mrs'))
    as [| m1 | m1]; [lia | | lia].
  destruct (shr_fexp_positive m1 e' H2) as [H3 _].
  destruct (shr_fexp F64.prec F64.emax (Zpos m1) e' loc_Exact)
    as [mrs'' e'']. cbn [fst] in H3.
  destruct (shr_m mrs'') as [| m2 | m2]; [lia | | lia].
  destruct (e'' <=? F64.emax - F64.prec); [left; eauto | now right].
Qed.

Lemma binary_round_sign (s : bool) (m : positive) (e : Z) :
  -1074 <= e ->
  (exists m' e', binary_round F64.prec F64.emax s m e = S754_finite s m' e')
  \/ binary_round F64.prec F64.emax s m e = S754_infinity s.
Proof.
  intros He. unfold binary_round, shl_align.
  assert (-1074 <= fexp F64.prec F64.emax (Zpos (digits2_pos m) + e)).
  { unfold fexp, emin, F64.prec, F64.emax. lia. }
  destruct (fexp F64.prec F64.emax (Zpos (digits2_pos m) + e) - e);
    now apply binary_round_aux_sign.
Qed.

Lemma shl_align_fst (m : positive) (e ez : Z) :
  ez <= e -> Zpos (fst (shl_align m e ez)) = Zpos m * 2 ^ (e - ez).
Proof.
  intros Hz. unfold shl_align.
  destruct (ez - e) as [| d | d] eqn:E; cbn [fst].
  - replace (e - ez) with 0 by lia. cbn. lia.
  - lia.
  - rewrite iter_xO_pow. f_equal. f_equal. lia.
Qed.

(** The comparator of the sort: [a - b] is positive exactly when [a] is
    the larger. *)
Lemma sorts_after_scaled (x y : F64.t) :
  finite_number x = true -> finite_number y = true ->
  sorts_after x y = (scaled y <? scaled x).
Proof.
  intros Hx Hy. unfold sorts_after.
  destruct x as [sx | sx | | sx mx ex]; try discriminate Hx;
    destruct y as [sy | sy | | sy my ey]; try discriminate Hy.
  - now destruct sx, sy.
  - pose proof (finite_number_exponent _ _ _ Hy) as (He & _).
    destruct (scaled_finite sy my ey ltac:(lia)) as [-> Hp].
    cbn [scaled]. destruct sy; cbn; symmetry;
      [apply Z.ltb_lt | apply Z.ltb_ge]; lia.
  - pose proof (finite_number_exponent _ _ _ Hx) as (He & _).
    destruct (scaled_finite sx mx ex ltac:(lia)) as [-> Hp].
    cbn [scaled]. destruct sx; cbn; symmetry;
      [apply Z.ltb_ge | apply Z.ltb_lt]; lia.
  - pose proof (finite_number_exponent _ _ _ Hx) as (Hex & _).
    pose proof (finite_number_exponent _ _ _ Hy) as (Hey & _).
    destruct (scaled_finite sx mx ex ltac:(lia)) as [-> Hpx].
    destruct (scaled_finite sy my ey ltac:(lia)) as [-> Hpy].
    cbn [sub F64.number]. unfold SFsub.
    set (ez := Z.min ex ey).
    rewrite !shl_align_fst by (subst ez; lia).
    set (D := cond_Zopp sx (Zpos mx * 2 ^ (ex - ez))
              - cond_Zopp sy (Zpos my * 2 ^ (ey - ez))).
    assert (D * 2 ^ (ez + 1074)
            = (if sx then -1 else 1) * (Zpos mx * 2 ^ (ex + 1074))
              - (if sy then -1 else 1) * (Zpos my * 2 ^ (ey + 1074)))
      as HD.
    { replace (ex + 1074) with ((ex - ez) + (ez + 1074)) by lia.
      replace (ey + 1074) with ((ey - ez) + (ez + 1074)) by lia.
      rewrite (Z.pow_add_r 2 (ex - ez) (ez + 1074)),
        (Z.pow_add_r 2 (ey - ez) (ez + 1074)) by (subst ez; lia).
      subst D. unfold cond_Zopp. destruct sx, sy; ring. }
    assert (0 < 2 ^ (ez + 1074)) as Hpow
        by (apply Z.pow_pos_nonneg; subst ez; lia).
    unfold binary_normalize.
    destruct D as [| p | p] eqn:ED.
    + symmetry. apply Z.ltb_ge. lia.
    + destruct (binary_round_sign false p ez ltac:(subst ez; lia))
        as [(m' & e' & ->) | ->]; symmetry; apply Z.ltb_lt; nia.
    + destruct (binary_round_sign true p ez ltac:(subst ez; lia))
        as [(m' & e' & ->) | ->]; symmetry; apply Z.ltb_ge; nia.
Qed.

(** ** Sorting finite Numbers *)

Lemma insert_sorted_ascending (x : F64.t) (l : list F64.t) :
  finite_number x = true ->
  Forall (fun y => finite_number y = true) l ->
  StronglySorted (fun a b => scaled a <= scaled b) l ->
  StronglySorted (fun a b => scaled a <= scaled b) (insert_sorted x l).
Proof.
  intros Hx Hl Hs. induction Hs as [| y l Hs IH Hy].
  - repeat constructor.
  - apply Forall_cons in Hl as [Hfy Hl]. cbn [insert_sorted].
    rewrite (sorts_after_scaled x y Hx Hfy).
    destruct (Z.ltb_spec (scaled y) (scaled x)) as [Hlt | Hge].
    + constructor; [now apply IH |].
      rewrite (insert_sorted_Permutation x l).
      constructor; [lia | exact Hy].
    + constructor; [now constructor |].
      constructor; [exact Hge |].
      eapply Forall_impl; [exact Hy |]. cbn beta. intros z Hz. lia.
Qed.

Lemma sort_numbers_scaled (data : list F64.t) :
  Forall (fun y => finite_number y = true) data ->
  StronglySorted (fun a b => scaled a <= scaled b) (sort_numbers data).
Proof.
  induction 1 as [| x data Hx Hd IH]; [constructor |].
  unfold sort_numbers in *. cbn [foldr].
  apply insert_sorted_ascending; [exact Hx | | exact IH].
  fold (sort_numbers data). now rewrite sort_numbers_Permutation.
Qed.

Lemma scaled_sorted_lookup (l : list F64.t) :
  StronglySorted (fun a b => scaled a <= scaled b) l ->
  forall (i j : nat) (a b : F64.t),
    (i <= j)%nat -> l !! i = Some a -> l !! j = Some b ->
    scaled a <= scaled b.
Proof.
  induction 1 as [| q qs S IH F]; intros i j a b L Ha Hb.
  - now rewrite lookup_nil in Ha.
  - destruct i as [| i], j as [| j]; cbn in Ha, Hb.
    + injection Ha as <-. injection Hb as <-. lia.
    + injection Ha as <-. rewrite Forall_forall in F. apply F.
      eapply list_elem_of_lookup_2. exact Hb.
    + lia.
    + apply (IH i j); auto. lia.
Qed.

Lemma sort_numbers_finite (data : list F64.t) :
  Forall (fun y => finite_number y = true) data ->
  Forall (fun y => finite_number y = true) (sort_numbers data).
Proof. intros Hd. now rewrite sort_numbers_Permutation. Qed.

Lemma sort_numbers_lookup_le (data : list F64.t) (i j : nat) (a b : F64.t) :
  Forall (fun y => finite_number y = true) data ->
  (i <= j)%nat ->
  sort_numbers data !! i = Some a -> sort_numbers data !! j = Some b ->
  (a <=? b)%js = true.
Proof.
  intros Hd L Ha Hb.
  pose proof (sort_numbers_finite data Hd) as Hf.
  rewrite Forall_forall in Hf.
  rewrite F64_leb_scaled
    by (apply Hf; eapply list_elem_of_lookup_2; eassumption).
  apply Z.leb_le.
  exact (scaled_sorted_lookup _ (sort_numbers_scaled data Hd) i j a b L Ha Hb).
Qed.

Lemma at_index_lookup (l : list F64.t) (i : nat) :
  (i < length l)%nat -> l !! i = Some (at_index l i).
Proof.
  intros Hi. unfold at_index.
  destruct (lookup_lt_is_Some_2 l i Hi) as [v Hv]. rewrite Hv. f_equal.
  symmetry. now apply nth_lookup_Some with (d := nan) in Hv.
Qed.

(** ** Outliers: the quartiles of the sorted copy *)

(** C8. With at least 4 values, Q1 and Q3 are the entries at
    [floor(0.25 N)] and [floor(0.75 N)] of the sorted copy, which holds
    the values in ascending order (for finite Numbers in binary64, and
    for rationals); the bounds are [Q1 - 1.5 IQR] and [Q3 + 1.5 IQR], and
    the result lists exactly the values strictly outside the bounds, each
    once with its index in the input, in input order.  [1,2,3,4,5,100]
    gives only 100, and so does the same array in another order.  With
    fewer than 4 values the result is empty. *)
Theorem detectOutliers_iqr :
  (forall (num : Type) (N : JsNumber num) (values : list num),
      (4 <= length values)%nat ->
      let sorted := sort_numbers values in
      let q1 := at_index sorted (q1_index (length values)) in
      let q3 := at_index sorted (q3_index (length values)) in
      let iqr := (q3 - q1)%js in
      let lowerBound := (q1 - of_decimal false 15 (-1) * iqr)%js in
      let upperBound := (q3 + of_decimal false 15 (-1) * iqr)%js in
      Permutation sorted values
      /\ sorted !! q1_index (length values) = Some q1
      /\ sorted !! q3_index (length values) = Some q3
      /\ (forall o : Outlier num,
             o ∈ detectOutliers values
             <-> values !! out_index o = Some (out_value o)
                 /\ isOutlier o = true
                 /\ ((out_value o <? lowerBound)%js
                     || (out_value o >? upperBound)%js) = true)
      /\ StronglySorted lt (map out_index (detectOutliers values)))
  /\ (forall values : list F64.t,
         Forall (fun v => finite_number v = true) values ->
         forall (i j : nat) (a b : F64.t),
           (i <= j)%nat ->
           sort_numbers values !! i = Some a ->
           sort_numbers values !! j = Some b ->
           (a <=? b)%js = true)
  /\ (forall qs : list Q,
         exists rs, sort_numbers (map Exact.XRat qs) = map Exact.XRat rs
                    /\ Permutation rs qs /\ StronglySorted Qle rs)
  /\ (forall n : nat,
         Z.of_nat (q1_index n) = Qfloor ((1 # 4) * inject_Z (Z.of_nat n))
         /\ Z.of_nat (q3_index n)
            = Qfloor ((3 # 4) * inject_Z (Z.of_nat n)))
  /\ (let values : list F64.t := map of_Z [1; 2; 3; 4; 5; 100] in
      let sorted := sort_numbers values in
      at_index sorted (q1_index 6) = of_Z 2
      /\ at_index sorted (q3_index 6) = of_Z 5
      /\ upperBound_of (of_Z 2 : F64.t) (of_Z 5) = of_decimal false 95 (-1)
      /\ detectOutliers values
         = [ {| out_index := 5; out_value := of_Z 100;
                isOutlier := true |} ])
  /\ (let values : list F64.t := map of_Z [5; 100; 1; 2; 3; 4] in
      let sorted := sort_numbers values in
      sorted = map of_Z [1; 2; 3; 4; 5; 100]
      /\ at_index sorted (q1_index 6) = of_Z 2
      /\ at_index sorted (q3_index 6) = of_Z 5
      /\ detectOutliers values
         = [ {| out_index := 1; out_value := of_Z 100;
                isOutlier := true |} ])
  /\ (forall (num : Type) (N : JsNumber num) (values : list num),
         (length values < 4)%nat -> detectOutliers values = []).
Proof.
  split; [| split; [| split; [| split; [| split; [| split]]]]].
  - intros num N values L sorted q1 q3 iqr lowerBound upperBound.
    split; [apply sort_numbers_Permutation |].
    assert (forall i, (i < length values)%nat ->
                      sorted !! i = Some (at_index sorted i)) as Hat.
    { intros i Hi. unfold at_index.
      assert (i < length sorted)%nat as Hs
          by (unfold sorted; now rewrite sort_numbers_length).
      destruct (lookup_lt_is_Some_2 sorted i Hs) as [v Hv]. rewrite Hv.
      f_equal. symmetry. now apply nth_lookup_Some with (d := nan) in Hv. }
    split.
    { apply Hat. unfold q1_index. apply Nat.Div0.div_lt_upper_bound. lia. }
    split.
    { apply Hat. unfold q3_index. apply Nat.Div0.div_lt_upper_bound. lia. }
    rewrite (detectOutliers_long values L).
    fold sorted q1 q3.
    change (lowerBound_of q1 q3) with lowerBound.
    change (upperBound_of q1 q3) with upperBound.
    split.
    + intros o. rewrite elem_of_filter_imap. split.
      * intros (i & a & Hl & -> & K). cbn in *. auto.
      * intros (Hl & K & Ho).
        exists (out_index o), (out_value o).
        destruct o as [i a b]. cbn in *. subst b.
        rewrite Ho. auto.
    + apply (filter_imap_indices
               (fun idx val =>
                  {| out_index := idx; out_value := val;
                     isOutlier := (val <? lowerBound)%js
                                  || (val >? upperBound)%js |})
               out_index (fun item => isOutlier item) values 0).
      reflexivity.
  - intros values Hf i j a b. now apply sort_numbers_lookup_le.
  - apply sort_numbers_rat.
  - apply quartile_indices.
  - cbv zeta. repeat split; vm_compute; reflexivity.
  - cbv zeta. repeat split; vm_compute; reflexivity.
  - intros num N values. apply detectOutliers_short.
Qed.

(** The array [5,100,1,2,3,4]: 100 is an outlier and 5 is none, which
    the quartiles of the sorted copy decide (the entries at the indices 1
    and 4 of the array itself are 100 and 3). *)
Lemma detectOutliers_iqr_witness :
  let values : list F64.t := map of_Z [5; 100; 1; 2; 3; 4] in
  {| out_index := 1; out_value := of_Z 100; isOutlier := true |}
  ∈ detectOutliers values
  /\ ~ {| out_index := 0; out_value := of_Z 5; isOutlier := true |}
       ∈ detectOutliers values
  /\ (at_index (sort_numbers values) (q1_index 6)
      <=? at_index (sort_numbers values) (q3_index 6))%js = true.
Proof.
  intros values.
  pose proof detectOutliers_iqr as (G & Gs & _).
  specialize (G F64.t _ values).
  destruct G as (_ & Hq1 & Hq3 & G & _); [cbn; lia |].
  split; [| split].
  - apply G. repeat split; vm_compute; reflexivity.
  - intros K. apply G in K as (_ & _ & K). vm_compute in K. discriminate K.
  - apply (Gs values ltac:(repeat constructor) 1%nat 4%nat);
      [lia | exact Hq1 | exact Hq3].
Defined.

(** X23. In binary64, [[...data].sort((a, b) => a - b)] puts finite
    Numbers in ascending order: the result is a permutation of the data
    in which an earlier entry is at most a later one.  So the median lies
    between the first and the last sorted entry, and the first quartile
    of [detectOutliers] is at most the third. *)
Theorem sort_numbers_ascending :
  forall data : list F64.t,
    Forall (fun y => finite_number y = true) data ->
    let sorted := sort_numbers data in
    sorted ≡ₚ data
    /\ (forall i j a b,
           (i <= j)%nat -> sorted !! i = Some a -> sorted !! j = Some b ->
           (a <=? b)%js = true)
    /\ ((0 < length data)%nat ->
        (at_index sorted 0 <=? median_of data)%js = true
        /\ (median_of data <=? at_index sorted (length data - 1))%js = true)
    /\ ((4 <= length data)%nat ->
        (at_index sorted (q1_index (length sorted))
         <=? at_index sorted (q3_index (length sorted)))%js = true).
Proof.
  intros data Hd sorted. subst sorted.
  pose proof (sort_numbers_length data) as Hlen.
  split; [apply sort_numbers_Permutation |].
  split; [intros i j a b; now apply sort_numbers_lookup_le |].
  split.
  - intros Hn. unfold median_of. rewrite Hlen.
    assert (length data / 2 < length data)%nat
      by (apply Nat.div_lt; lia).
    split.
    + apply (sort_numbers_lookup_le data 0 (length data / 2)); auto;
        [lia | |]; apply at_index_lookup; lia.
    + apply (sort_numbers_lookup_le data (length data / 2)
               (length data - 1)); auto;
        [| apply at_index_lookup; lia | apply at_index_lookup; lia].
      assert (length data = 2 * (length data / 2) + length data mod 2)%nat
        by (apply Nat.div_mod_eq).
      lia.
  - intros Hn. rewrite Hlen.
    assert (q3_index (length data) < length data)%nat.
    { unfold q3_index. apply Nat.Div0.div_lt_upper_bound. lia. }
    assert (q1_index (length data) <= q3_index (length data))%nat.
    { unfold q1_index, q3_index. apply Nat.Div0.div_le_mono. lia. }
    apply (sort_numbers_lookup_le data (q1_index (length data))
             (q3_index (length data))); auto;
      apply at_index_lookup; lia.
Qed.

Lemma sort_numbers_ascending_witness :
  sort_numbers [of_decimal false 25 (-1); of_Z (-3); of_Z 7;
                of_decimal false 1 (-1) : F64.t]
  = [of_Z (-3); of_decimal false 1 (-1); of_decimal false 25 (-1); of_Z 7]
  /\ ((of_Z (-3) : F64.t) <=? of_Z 7)%js = true.
Proof.
  pose proof (sort_numbers_ascending
                [of_decimal false 25 (-1); of_Z (-3); of_Z 7;
                 of_decimal false 1 (-1)]) as G.
  destruct G as (_ & G & _).
  - repeat constructor.
  - split; [vm_compute; reflexivity |].
    apply (G 0%nat 3%nat); [lia | vm_compute; reflexivity ..].
Defined.

(** ** The minimum and the maximum *)

Lemma pick_min_scaled (lowest x : F64.t) :
  finite_number lowest = true -> finite_number x = true ->
  (F64Math.pick_min lowest x = lowest \/ F64Math.pick_min lowest x = x)
  /\ scaled (F64Math.pick_min lowest x) = Z.min (scaled lowest) (scaled x).
Proof.
  intros Hl Hx. unfold F64Math.pick_min.
  pose proof (F64_ltb_scaled x lowest Hx Hl) as E.
  cbn [ltb F64.number] in E.
  destruct lowest as [[] | ? | | sl ml el]; try discriminate Hl;
    destruct x as [[] | ? | | sx mx ex]; try discriminate Hx;
    try (split; [auto | reflexivity]);
    rewrite E;
    match goal with
    | |- context [(?a <? ?b)] => destruct (Z.ltb_spec a b)
    end;
    (split; [auto | lia]).
Qed.

Lemma pick_max_scaled (highest x : F64.t) :
  finite_number highest = true -> finite_number x = true ->
  (F64Math.pick_max highest x = highest \/ F64Math.pick_max highest x = x)
  /\ scaled (F64Math.pick_max highest x) = Z.max (scaled highest) (scaled x).
Proof.
  intros Hl Hx. unfold F64Math.pick_max.
  pose proof (F64_ltb_scaled highest x Hl Hx) as E.
  cbn [ltb F64.number] in E.
  destruct highest as [[] | ? | | sl ml el]; try discriminate Hl;
    destruct x as [[] | ? | | sx mx ex]; try discriminate Hx;
    try (split; [auto | reflexivity]);
    rewrite E;
    match goal with
    | |- context [(?a <? ?b)] => destruct (Z.ltb_spec a b)
    end;
    (split; [auto | lia]).
Qed.

Lemma fold_pick_scaled (pick : F64.t -> F64.t -> F64.t)
  (best : Z -> Z -> Z) (rest : list F64.t) :
  (forall a x, finite_number a = true -> finite_number x = true ->
               (pick a x = a \/ pick a x = x)
               /\ scaled (pick a x) = best (scaled a) (scaled x)) ->
  forall acc : F64.t,
    finite_number acc = true ->
    Forall (fun y => finite_number y = true) rest ->
    fold_left pick rest acc ∈ acc :: rest
    /\ scaled (fold_left pick rest acc)
       = fold_left best (map scaled rest) (scaled acc).
Proof.
  intros Hpick. induction rest as [| x rest IH]; intros acc Ha Hr.
  - split; [left | reflexivity].
  - apply Forall_cons in Hr as [Hx Hr]. cbn [fold_left map].
    destruct (Hpick acc x Ha Hx) as [Hin Hs].
    assert (finite_number (pick acc x) = true) as Hp
        by (destruct Hin as [-> | ->]; assumption).
    destruct (IH (pick acc x) Hp Hr) as [IHin IHs].
    split; [| now rewrite IHs, Hs].
    apply elem_of_cons in IHin as [-> | IHin].
    + destruct Hin as [-> | ->]; [left | right; left].
    + right. now right.
Qed.

Lemma fold_min_le (l : list Z) (a : Z) :
  fold_left Z.min l a <= a /\ Forall (fun z => fold_left Z.min l a <= z) l.
Proof.
  revert a. induction l as [| z l IH]; intros a; cbn [fold_left].
  - split; [lia | constructor].
  - destruct (IH (Z.min a z)) as [H1 H2]. split; [lia |].
    constructor; [lia | exact H2].
Qed.

Lemma fold_max_ge (l : list Z) (a : Z) :
  a <= fold_left Z.max l a /\ Forall (fun z => z <= fold_left Z.max l a) l.
Proof.
  revert a. induction l as [| z l IH]; intros a; cbn [fold_left].
  - split; [lia | constructor].
  - destruct (IH (Z.max a z)) as [H1 H2]. split; [lia |].
    constructor; [lia | exact H2].
Qed.

Lemma Math_min_finite (x : F64.t) (rest : list F64.t) :
  Forall (fun y => finite_number y = true) (x :: rest) ->
  Math_min (x :: rest) ∈ x :: rest
  /\ Forall (fun y => scaled (Math_min (x :: rest)) <= scaled y) (x :: rest).
Proof.
  intros Hd. pose proof Hd as Hd'. apply Forall_cons in Hd' as [Hx Hr].
  unfold Math_min. cbn [fold_left].
  assert (min_step (infinity false) x = x) as ->.
  { destruct x as [[] | [] | | [] m e]; try discriminate Hx; reflexivity. }
  destruct (fold_pick_scaled F64Math.pick_min Z.min rest pick_min_scaled
              x Hx Hr) as [Hin Hs].
  split; [exact Hin |]. cbn [min_step F64Math.math]. rewrite Hs.
  destruct (fold_min_le (map scaled rest) (scaled x)) as [H1 H2].
  constructor; [exact H1 |].
  apply Forall_forall. intros y Hy. rewrite Forall_forall in H2.
  apply H2. apply list_elem_of_fmap. now exists y.
Qed.

Lemma Math_max_finite (x : F64.t) (rest : list F64.t) :
  Forall (fun y => finite_number y = true) (x :: rest) ->
  Math_max (x :: rest) ∈ x :: rest
  /\ Forall (fun y => scaled y <= scaled (Math_max (x :: rest))) (x :: rest).
Proof.
  intros Hd. pose proof Hd as Hd'. apply Forall_cons in Hd' as [Hx Hr].
  unfold Math_max. cbn [fold_left].
  assert (max_step (infinity true) x = x) as ->.
  { destruct x as [[] | [] | | [] m e]; try discriminate Hx; reflexivity. }
  destruct (fold_pick_scaled F64Math.pick_max Z.max rest pick_max_scaled
              x Hx Hr) as [Hin Hs].
  split; [exact Hin |]. cbn [max_step F64Math.math]. rewrite Hs.
  destruct (fold_max_ge (map scaled rest) (scaled x)) as [H1 H2].
  constructor; [exact H1 |].
  apply Forall_forall. intros y Hy. rewrite Forall_forall in H2.
  apply H2. apply list_elem_of_fmap. now exists y.
Qed.

(** X24. In binary64, for a non-empty array of finite Numbers, the
    minimum, the maximum and the median that [calculateStatistics]
    computes are entries of the array, and every entry lies between the
    minimum and the maximum. *)
Theorem calculateStatistics_min_max :
  forall data : list F64.t,
    data <> [] ->
    Forall (fun y => finite_number y = true) data ->
    Math_min data ∈ data /\ Math_max data ∈ data
    /\ median_of data ∈ data
    /\ (forall x, x ∈ data ->
                  (Math_min data <=? x)%js = true
                  /\ (x <=? Math_max data)%js = true).
Proof.
  intros data Hne Hd. destruct data as [| x rest]; [congruence |].
  destruct (Math_min_finite x rest Hd) as [Hmin Hlo].
  destruct (Math_max_finite x rest Hd) as [Hmax Hhi].
  pose proof Hd as Hf. rewrite Forall_forall in Hf.
  split; [exact Hmin |]. split; [exact Hmax |]. split.
  - unfold median_of.
    pose proof (sort_numbers_length (x :: rest)) as Hlen.
    assert (length (sort_numbers (x :: rest)) / 2
            < length (sort_numbers (x :: rest)))%nat as Hi.
    { apply Nat.div_lt; [rewrite Hlen; cbn [length]; lia | lia]. }
    pose proof (at_index_lookup _ _ Hi) as Hl.
    apply list_elem_of_lookup_2 in Hl.
    set (v := at_index _ _) in *. clearbody v.
    now rewrite sort_numbers_Permutation in Hl.
  - intros y Hy. rewrite !F64_leb_scaled by auto.
    rewrite Forall_forall in Hlo, Hhi.
    split; apply Z.leb_le; auto.
Qed.

Lemma calculateStatistics_min_max_witness :
  Math_min [of_Z 7; of_Z (-3); of_decimal false 25 (-1) : F64.t] = of_Z (-3)
  /\ ((of_Z 7 : F64.t)
      <=? Math_max [of_Z 7; of_Z (-3); of_decimal false 25 (-1)])%js = true.
Proof.
  pose proof (calculateStatistics_min_max
                [of_Z 7; of_Z (-3); of_decimal false 25 (-1)]) as G.
  destruct G as (_ & _ & _ & G).
  - discriminate.
  - repeat constructor.
  - split; [vm_compute; reflexivity |]. apply (G (of_Z 7)). left.
Defined.

(** ** Exact integer arithmetic in binary64 *)

Lemma digits2_unique (m : positive) (d : Z) :
  2 ^ (d - 1) <= Zpos m < 2 ^ d -> Zpos (digits2_pos m) = d.
Proof.
  intros [Hlo Hhi]. pose proof (digits2_bounds m) as [Blo Bhi].
  assert (0 < d).
  { destruct (Z.lt_ge_cases 0 d) as [K | K]; [exact K |].
    destruct (Z.eq_dec d 0) as [-> | Hne]; [cbn in Hhi; lia |].
    rewrite (Z.pow_neg_r 2 d) in Hhi by lia. lia. }
  destruct (Z.lt_trichotomy (Zpos (digits2_pos m)) d) as [K | [K | K]];
    [| exact K |].
  - assert (2 ^ Zpos (digits2_pos m) <= 2 ^ (d - 1))
      by (apply Z.pow_le_mono_r; lia). lia.
  - assert (2 ^ d <= 2 ^ (Zpos (digits2_pos m) - 1))
      by (apply Z.pow_le_mono_r; lia). lia.
Qed.

Lemma digits2_shift (p : positive) (j : Z) :
  0 <= j ->
  Zpos (digits2_pos (Z.to_pos (Zpos p * 2 ^ j))) = Zpos (digits2_pos p) + j.
Proof.
  intros Hj. pose proof (digits2_bounds p) as [Blo Bhi].
  assert (0 < 2 ^ j) by (apply Z.pow_pos_nonneg; lia).
  apply digits2_unique. rewrite Z2Pos.id by lia.
  replace (Zpos (digits2_pos p) + j - 1)
    with (Zpos (digits2_pos p) - 1 + j) by lia.
  rewrite !Z.pow_add_r by lia. split; nia.
Qed.

Lemma integer_digits (p : positive) :
  Zpos p < 2 ^ 53 -> 1 <= Zpos (digits2_pos p) <= 53.
Proof.
  intros Hp. pose proof (digits2_bounds p) as [Hlo Hhi]. split; [lia |].
  destruct (Z.le_gt_cases (Zpos (digits2_pos p)) 53) as [K | K];
    [exact K |].
  assert (2 ^ 53 <= 2 ^ (Zpos (digits2_pos p) - 1))
    by (apply Z.pow_le_mono_r; lia).
  lia.
Qed.

Lemma integer_mantissa_spec (p : positive) :
  Zpos p < 2 ^ 53 ->
  Zpos (integer_mantissa p) = Zpos p * 2 ^ (53 - Zpos (digits2_pos p))
  /\ Zpos (digits2_pos (integer_mantissa p)) = 53.
Proof.
  intros Hp. pose proof (integer_digits p Hp) as Hd.
  unfold integer_mantissa.
  assert (0 < 2 ^ (53 - Zpos (digits2_pos p)))
    by (apply Z.pow_pos_nonneg; lia).
  split; [rewrite Z2Pos.id by lia; reflexivity |].
  rewrite digits2_shift by lia. lia.
Qed.

(** The Number of a positive integer below [2^53], written out. *)
Lemma F64_round_integer_explicit (s : bool) (p : positive) :
  Zpos p < 2 ^ 53 ->
  F64.round_decimal s (Npos p) 0
  = S754_finite s (integer_mantissa p) (integer_exponent p).
Proof.
  intros Hp.
  destruct (F64_round_integer s p Hp) as (m & e & -> & Hd & He & Hm).
  pose proof (integer_mantissa_spec p Hp) as [Hi _].
  pose proof (integer_digits p Hp) as Hdp.
  assert (e = integer_exponent p) as ->.
  { unfold integer_exponent.
    assert (Zpos (digits2_pos m) = Zpos (digits2_pos p) + - e) as K.
    { rewrite <- (digits2_shift p (- e)) by lia. rewrite <- Hm.
      now rewrite Pos2Z.id. }
    lia. }
  f_equal. apply Pos2Z.inj. rewrite Hm, Hi. f_equal. f_equal.
  unfold integer_exponent. lia.
Qed.

(** Shifting out bits that are all 0 is exact. *)
Lemma shr_1_exact (m : Z) :
  0 <= m -> (2 | m) ->
  shr_1 {| shr_m := m; shr_r := false; shr_s := false |}
  = {| shr_m := m / 2; shr_r := false; shr_s := false |}.
Proof.
  intros Hm [q Hq]. subst m. rewrite Z.div_mul by lia.
  destruct q as [| q | q]; [reflexivity | | lia].
  change (Zpos q * 2) with (Zpos (q * 2)). rewrite Pos.mul_comm.
  reflexivity.
Qed.

Lemma iter_shr_exact (n : positive) :
  forall m : Z,
    0 <= m -> (2 ^ Zpos n | m) ->
    SpecFloat.iter_pos shr_1 n
      {| shr_m := m; shr_r := false; shr_s := false |}
    = {| shr_m := m / 2 ^ Zpos n; shr_r := false; shr_s := false |}.
Proof.
  induction n as [n IH | n IH |]; intros m Hm Hdiv;
    cbn [SpecFloat.iter_pos].
  - assert (Zpos n~1 = 1 + (Zpos n + Zpos n)) as E by lia.
    rewrite E in *. rewrite !Z.pow_add_r in * by lia.
    change (2 ^ 1) with 2 in *.
    assert (0 < 2 ^ Zpos n) by (apply Z.pow_pos_nonneg; lia).
    destruct Hdiv as [q Hq].
    rewrite shr_1_exact; [| lia | exists (q * (2 ^ Zpos n * 2 ^ Zpos n)); lia].
    assert (m / 2 = q * 2 ^ Zpos n * 2 ^ Zpos n) as E2.
    { subst m. replace (q * (2 * (2 ^ Zpos n * 2 ^ Zpos n)))
        with (q * 2 ^ Zpos n * 2 ^ Zpos n * 2) by ring.
      apply Z.div_mul. lia. }
    assert (0 <= q) by nia.
    rewrite IH; [| nia | exists (q * 2 ^ Zpos n); lia].
    rewrite E2, Z.div_mul by lia.
    rewrite IH; [| nia | exists q; lia].
    rewrite Z.div_mul by lia. f_equal.
    subst m. replace (q * (2 * (2 ^ Zpos n * 2 ^ Zpos n)))
      with (q * (2 * (2 ^ Zpos n * 2 ^ Zpos n))) by ring.
    symmetry. apply Z.div_mul. nia.
  - assert (Zpos n~0 = Zpos n + Zpos n) as E by lia.
    rewrite E in *. rewrite !Z.pow_add_r in * by lia.
    assert (0 < 2 ^ Zpos n) by (apply Z.pow_pos_nonneg; lia).
    destruct Hdiv as [q Hq].
    assert (0 <= q) by nia.
    rewrite IH; [| lia | exists (q * 2 ^ Zpos n); lia].
    assert (m / 2 ^ Zpos n = q * 2 ^ Zpos n) as E2.
    { subst m. rewrite Z.mul_assoc. apply Z.div_mul. lia. }
    rewrite E2.
    rewrite IH; [| nia | exists q; lia].
    rewrite Z.div_mul by lia. f_equal.
    subst m. symmetry. apply Z.div_mul. nia.
  - change (2 ^ 1) with 2 in *. now apply shr_1_exact.
Qed.

(** A mantissa that holds an integer below [2^53] followed by zeros is
    rounded to the Number of that integer, when it has at least 53
    bits. *)
Lemma binary_round_aux_integer (s : bool) (M V : positive) (E : Z) :
  E <= 0 -> Zpos M = Zpos V * 2 ^ (- E) -> Zpos V < 2 ^ 53 ->
  53 <= Zpos (digits2_pos V) + - E ->
  binary_round_aux F64.prec F64.emax s (Zpos M) E loc_Exact
  = S754_finite s (integer_mantissa V) (integer_exponent V).
Proof.
  intros HE HM HV Hn.
  pose proof (integer_digits V HV) as HdV.
  pose proof (integer_mantissa_spec V HV) as [Hi Hid].
  assert (Zpos (digits2_pos M) = Zpos (digits2_pos V) + - E) as HdM.
  { rewrite <- (digits2_shift V (- E)) by lia. rewrite <- HM.
    now rewrite Pos2Z.id. }
  destruct (Z.eq_dec (Zpos (digits2_pos V) + - E) 53) as [Heq | Hne].
  - rewrite binary_round_aux_canonical by lia.
    unfold integer_exponent. f_equal; [| lia].
    apply Pos2Z.inj. rewrite HM, Hi. f_equal. f_equal. lia.
  - unfold binary_round_aux, shr_fexp.
    cbn [Zdigits2 shr_record_of_loc]. rewrite HdM.
    assert (fexp F64.prec F64.emax (Zpos (digits2_pos V) + - E + E) - E
            = Zpos (digits2_pos V) + - E - 53) as ->.
    { unfold fexp, emin, F64.prec, F64.emax. lia. }
    destruct (Zpos (digits2_pos V) + - E - 53) as [| n | n] eqn:En;
      [lia | | lia].
    cbn [shr].
    assert (- E = Zpos n + (53 - Zpos (digits2_pos V))) as Ek by lia.
    assert (0 < 2 ^ Zpos n) by (apply Z.pow_pos_nonneg; lia).
    assert (Zpos M = Zpos (integer_mantissa V) * 2 ^ Zpos n) as HMn.
    { rewrite HM, Hi, Ek, Z.pow_add_r by lia. ring. }
    rewrite iter_shr_exact;
      [| lia | exists (Zpos (integer_mantissa V)); exact HMn].
    rewrite HMn, Z.div_mul by lia.
    cbn [shr_m loc_of_shr_record round_nearest_even Zdigits2
         shr_record_of_loc].
    rewrite Hid.
    assert (fexp F64.prec F64.emax (53 + (E + Zpos n)) - (E + Zpos n) = 0)
      as ->.
    { unfold fexp, emin, F64.prec, F64.emax. lia. }
    cbn [shr shr_m].
    replace (E + Zpos n <=? F64.emax - F64.prec) with true
      by (symmetry; apply Z.leb_le; unfold F64.emax, F64.prec; lia).
    unfold integer_exponent. f_equal. lia.
Qed.

(** The same after [shl_align] has filled up a short mantissa. *)
Lemma binary_round_integer (s : bool) (M V : positive) (E : Z) :
  E <= 0 -> Zpos M = Zpos V * 2 ^ (- E) -> Zpos V < 2 ^ 53 ->
  binary_round F64.prec F64.emax s M E
  = S754_finite s (integer_mantissa V) (integer_exponent V).
Proof.
  intros HE HM HV.
  pose proof (integer_digits V HV) as HdV.
  pose proof (integer_mantissa_spec V HV) as [Hi Hid].
  assert (Zpos (digits2_pos M) = Zpos (digits2_pos V) + - E) as HdM.
  { rewrite <- (digits2_shift V (- E)) by lia. rewrite <- HM.
    now rewrite Pos2Z.id. }
  unfold binary_round. rewrite HdM.
  assert (fexp F64.prec F64.emax (Zpos (digits2_pos V) + - E + E)
          = Zpos (digits2_pos V) - 53) as ->.
  { unfold fexp, emin, F64.prec, F64.emax. lia. }
  unfold shl_align.
  destruct (Zpos (digits2_pos V) - 53 - E) as [| n | n] eqn:En.
  - apply binary_round_aux_integer; auto. lia.
  - apply binary_round_aux_integer; auto. lia.
  - assert (Pos.iter xO M n = integer_mantissa V) as ->.
    { apply Pos2Z.inj. rewrite iter_xO_pow, HM, Hi.
      rewrite <- Z.mul_assoc, <- Z.pow_add_r by lia. f_equal. f_equal. lia. }
    rewrite binary_round_aux_canonical by lia. reflexivity.
Qed.

Lemma F64_of_Z_explicit (z : Z) :
  Z.abs z < 2 ^ 53 ->
  (of_Z z : F64.t)
  = match z with
    | Z0 => S754_zero false
    | Zpos p => S754_finite false (integer_mantissa p) (integer_exponent p)
    | Zneg p => S754_finite true (integer_mantissa p) (integer_exponent p)
    end.
Proof.
  intros Hz. destruct z as [| p | p].
  - reflexivity.
  - rewrite F64_of_Z_pos. apply F64_round_integer_explicit. lia.
  - rewrite F64_of_Z_neg. apply F64_round_integer_explicit. lia.
Qed.

Lemma integer_exponent_range (p : positive) :
  Zpos p < 2 ^ 53 -> -52 <= integer_exponent p <= 0.
Proof.
  intros Hp. pose proof (integer_digits p Hp). unfold integer_exponent. lia.
Qed.

Lemma integer_mantissa_value (p : positive) :
  Zpos p < 2 ^ 53 ->
  Zpos (integer_mantissa p) = Zpos p * 2 ^ (- integer_exponent p).
Proof.
  intros Hp. rewrite (proj1 (integer_mantissa_spec p Hp)).
  unfold integer_exponent. f_equal. f_equal. lia.
Qed.

Lemma digits2_mul (p q : positive) :
  Zpos (digits2_pos p) + Zpos (digits2_pos q) - 1
  <= Zpos (digits2_pos (p * q)).
Proof.
  pose proof (digits2_bounds p) as [Hp _].
  pose proof (digits2_bounds q) as [Hq _].
  pose proof (digits2_bounds (p * q)) as [_ Hpq].
  rewrite Pos2Z.inj_mul in Hpq.
  assert (2 ^ (Zpos (digits2_pos p) - 1 + (Zpos (digits2_pos q) - 1))
          < 2 ^ Zpos (digits2_pos (p * q))) as K.
  { rewrite Z.pow_add_r by lia.
    assert (0 < 2 ^ (Zpos (digits2_pos p) - 1))
      by (apply Z.pow_pos_nonneg; lia).
    assert (0 < 2 ^ (Zpos (digits2_pos q) - 1))
      by (apply Z.pow_pos_nonneg; lia).
    nia. }
  apply Z.pow_lt_mono_r_iff in K; lia.
Qed.

(** The product of two integers is exact when it stays below [2^53]. *)
Lemma F64_mul_pos (sa sb : bool) (p q : positive) :
  Zpos (p * q) < 2 ^ 53 ->
  @mul F64.t _
    (S754_finite sa (integer_mantissa p) (integer_exponent p))
    (S754_finite sb (integer_mantissa q) (integer_exponent q))
  = S754_finite (xorb sa sb) (integer_mantissa (p * q))
      (integer_exponent (p * q)).
Proof.
  intros Hpq.
  assert (Zpos p < 2 ^ 53 /\ Zpos q < 2 ^ 53) as [Hp Hq].
  { rewrite Pos2Z.inj_mul in Hpq. split; nia. }
  pose proof (integer_exponent_range p Hp).
  pose proof (integer_exponent_range q Hq).
  cbn [mul F64.number SFmul].
  apply binary_round_aux_integer; [lia | | exact Hpq |].
  - rewrite !Pos2Z.inj_mul, (integer_mantissa_value p Hp),
      (integer_mantissa_value q Hq).
    replace (- (integer_exponent p + integer_exponent q))
      with (- integer_exponent p + - integer_exponent q) by lia.
    rewrite Z.pow_add_r by lia. ring.
  - pose proof (digits2_mul p q). unfold integer_exponent in *. lia.
Qed.

Lemma F64_mul_of_Z (a b : Z) :
  0 < b < 2 ^ 53 -> Z.abs (a * b) < 2 ^ 53 ->
  (of_Z a * of_Z b)%js = (of_Z (a * b) : F64.t).
Proof.
  intros Hb Hab.
  assert (Z.abs b < 2 ^ 53) as Hb' by lia.
  assert (Z.abs a < 2 ^ 53) as Ha.
  { pose proof Hab as K. rewrite Z.abs_mul in K.
    assert (Z.abs a <= Z.abs a * Z.abs b) by nia. lia. }
  rewrite (F64_of_Z_explicit a Ha), (F64_of_Z_explicit b Hb'),
    (F64_of_Z_explicit (a * b) Hab).
  destruct b as [| q | q]; try lia.
  destruct a as [| p | p].
  - reflexivity.
  - apply (F64_mul_pos false false). exact Hab.
  - apply (F64_mul_pos true false). exact Hab.
Qed.

(** The sum and the difference of two integers are exact when they stay
    below [2^53]. *)
Lemma F64_aligned (s : bool) (p : positive) (ez : Z) :
  Zpos p < 2 ^ 53 -> ez <= integer_exponent p ->
  cond_Zopp s
    (Zpos (fst (shl_align (integer_mantissa p) (integer_exponent p) ez)))
  = (if s then - Zpos p else Zpos p) * 2 ^ (- ez).
Proof.
  intros Hp Hz. pose proof (integer_exponent_range p Hp).
  rewrite shl_align_fst by lia. rewrite (integer_mantissa_value p Hp).
  rewrite <- Z.mul_assoc, <- Z.pow_add_r by lia.
  replace (- integer_exponent p + (integer_exponent p - ez)) with (- ez)
    by lia.
  unfold cond_Zopp. destruct s; lia.
Qed.

Lemma F64_normalize_integer (v ez : Z) :
  ez <= 0 -> Z.abs v < 2 ^ 53 ->
  binary_normalize F64.prec F64.emax (v * 2 ^ (- ez)) ez false
  = (of_Z v : F64.t).
Proof.
  intros Hz Hv. rewrite (F64_of_Z_explicit v Hv).
  assert (0 < 2 ^ (- ez)) by (apply Z.pow_pos_nonneg; lia).
  unfold binary_normalize.
  destruct v as [| p | p].
  - reflexivity.
  - destruct (Zpos p * 2 ^ (- ez)) as [| M | M] eqn:E; try lia.
    apply binary_round_integer; [exact Hz | lia | lia].
  - destruct (Zneg p * 2 ^ (- ez)) as [| M | M] eqn:E; try lia.
    apply binary_round_integer; [exact Hz | lia | lia].
Qed.

Lemma F64_sub_of_Z (a b : Z) :
  Z.abs a < 2 ^ 53 -> Z.abs b < 2 ^ 53 -> Z.abs (a - b) < 2 ^ 53 ->
  (of_Z a - of_Z b)%js = (of_Z (a - b) : F64.t).
Proof.
  intros Ha Hb Hab.
  rewrite (F64_of_Z_explicit a Ha), (F64_of_Z_explicit b Hb).
  destruct a as [| p | p], b as [| q | q];
    try (rewrite (F64_of_Z_explicit _ Hab); reflexivity);
    cbn [sub F64.number SFsub];
    pose proof (integer_exponent_range p ltac:(lia));
    pose proof (integer_exponent_range q ltac:(lia));
    rewrite !F64_aligned by lia;
    rewrite <- Z.mul_sub_distr_r;
    rewrite F64_normalize_integer by lia; f_equal; lia.
Qed.

Lemma F64_add_of_Z (a b : Z) :
  Z.abs a < 2 ^ 53 -> Z.abs b < 2 ^ 53 -> Z.abs (a + b) < 2 ^ 53 ->
  (of_Z a + of_Z b)%js = (of_Z (a + b) : F64.t).
Proof.
  intros Ha Hb Hab.
  rewrite (F64_of_Z_explicit a Ha), (F64_of_Z_explicit b Hb).
  destruct a as [| p | p], b as [| q | q];
    try (rewrite (F64_of_Z_explicit _ Hab); reflexivity);
    cbn [add F64.number SFadd];
    pose proof (integer_exponent_range p ltac:(lia));
    pose proof (integer_exponent_range q ltac:(lia));
    rewrite !F64_aligned by lia;
    rewrite <- Z.mul_add_distr_r;
    rewrite F64_normalize_integer by lia; f_equal; lia.
Qed.

(** ** Instants and windows, exactly *)

Lemma window_ms_exact (hoursWindow : Z) :
  0 <= hoursWindow -> hoursWindow * 3600000 < 2 ^ 53 ->
  window_ms hoursWindow = (of_Z (hoursWindow * 3600000) : F64.t).
Proof.
  intros H0 Hh. unfold window_ms.
  change (2 ^ 53) with 9007199254740992 in *.
  rewrite (F64_mul_of_Z hoursWindow 60)
    by (change (2 ^ 53) with 9007199254740992; lia).
  rewrite (F64_mul_of_Z (hoursWindow * 60) 60)
    by (change (2 ^ 53) with 9007199254740992; lia).
  rewrite (F64_mul_of_Z (hoursWindow * 60 * 60) 1000)
    by (change (2 ^ 53) with 9007199254740992; lia).
  f_equal. lia.
Qed.

Lemma Date_of_number_of_Z (x : Z) :
  Z.abs x < 2 ^ 53 ->
  Date_of_number (of_Z x : F64.t)
  = if Z.abs x <=? 8640000000000000 then Some x else None.
Proof.
  intros Hx. unfold Date_of_number. now rewrite F64_trunc_of_Z.
Qed.

Lemma filter_index_ext {A : Type} (f g : nat -> A -> bool) (k : nat)
  (l : list A) :
  (forall j a, a ∈ l -> f j a = g j a) ->
  filter_index f k l = filter_index g k l.
Proof.
  revert k. induction l as [| a l IH]; intros k Hfg; [reflexivity |].
  cbn [filter_index]. rewrite (Hfg k a) by left.
  rewrite (IH (S k)) by (intros j b Hb; apply Hfg; now right).
  reflexivity.
Qed.

(** X25. In binary64 the window of the time-based moving average is
    exact for valid dates and a window of up to 100000 hours: the point
    at index [j] is in the window of the point at index [i] exactly when
    [j <= i] and its instant is at or after the instant of [i] minus
    [hours * 3600000] milliseconds, computed on the integers.  A point
    with an invalid date is in no window. *)
Theorem timeBasedMovingAverage_window_exact :
  forall (dataPoints : list (SeriesPoint F64.t)) (hoursWindow : Z)
         (i : nat) (p : SeriesPoint F64.t) (t : Z),
    0 <= hoursWindow <= 100000 ->
    (forall q tq, q ∈ dataPoints -> timestamp q = Some tq -> valid_time tq) ->
    dataPoints !! i = Some p -> timestamp p = Some t ->
    windowPoints dataPoints hoursWindow i p
    = filter_index
        (fun j q =>
           (j <=? i)%nat
           && match timestamp q with
              | Some tq => t - hoursWindow * 3600000 <=? tq
              | None => false
              end)
        0 dataPoints.
Proof.
  intros dataPoints hoursWindow i p t Hh Hvalid Hp Ht.
  assert (valid_time t) as Hvt.
  { apply (Hvalid p t); [| exact Ht]. eapply list_elem_of_lookup_2, Hp. }
  unfold valid_time in Hvt.
  unfold windowPoints. rewrite Ht. cbn [getTime].
  rewrite window_ms_exact
    by (change (2 ^ 53) with 9007199254740992; lia).
  rewrite F64_sub_of_Z
    by (change (2 ^ 53) with 9007199254740992; lia).
  apply filter_index_ext. intros j q Hq. f_equal.
  unfold geb. destruct (timestamp q) as [tq |] eqn:Eq; cbn [getTime].
  - pose proof (Hvalid q tq Hq Eq) as Hvq. unfold valid_time in Hvq.
    apply F64_leb_of_Z; change (2 ^ 53) with 9007199254740992; lia.
  - cbn [leb F64.number]. unfold SFleb.
    now destruct (of_Z (t - hoursWindow * 3600000) : F64.t)
      as [[] | [] | | [] m e].
Qed.

Lemma timeBasedMovingAverage_window_exact_witness :
  windowPoints
    [ {| timestamp := Some 0; value := Some (of_Z 1 : F64.t) |};
      {| timestamp := Some 3600000; value := Some (of_Z 2) |};
      {| timestamp := Some 7200000; value := Some (of_Z 4) |} ] 1 2
    {| timestamp := Some 7200000; value := Some (of_Z 4) |}
  = [ {| timestamp := Some 3600000; value := Some (of_Z 2) |};
      {| timestamp := Some 7200000; value := Some (of_Z 4) |} ].
Proof.
  rewrite (timeBasedMovingAverage_window_exact _ 1 2 _ 7200000).
  - reflexivity.
  - lia.
  - intros q tq Hq Et.
    repeat (apply elem_of_cons in Hq as [-> | Hq];
            [injection Et as <-; unfold valid_time; cbn; lia |]).
    now apply elem_of_nil in Hq.
  - reflexivity.
  - reflexivity.
Defined.

(** X26. In binary64 the conversion of a timestamp that reads as an
    integer is exact.  An integer below 1000000000 (and from
    -8000000000000 on) gives 1980-01-06T00:00:00Z plus that many seconds;
    one from 1000000000 and below 10000000000 gives that many seconds
    after the Unix epoch; one from 10000000000 up to 8640000000000000 is
    the instant itself; a larger one gives an invalid date. *)
Theorem convertTimestamp_integer :
  forall (host : Host) (v : jsval F64.t) (n : Z),
    truthy v = true ->
    (forall s, v = JStr s -> Date_parse host s = None) ->
    parseFloat v = of_Z n ->
    (-8000000000000 <= n < 1000000000 ->
     convertTimestamp host v = Some (gpsEpoch + n * 1000))
    /\ (1000000000 <= n < 10000000000 ->
        convertTimestamp host v = Some (n * 1000))
    /\ (10000000000 <= n <= 8640000000000000 ->
        convertTimestamp host v = Some n)
    /\ (8640000000000000 < n < 2 ^ 53 ->
        convertTimestamp host v = None).
Proof.
  intros host v n Ht Hs Hn.
  change (2 ^ 53) with 9007199254740992.
  assert (forall z, Z.abs z < 9007199254740992 -> Z.abs z < 2 ^ 53) as Hb
      by (intros z Hz; exact Hz).
  assert (gpsEpoch = 315964800000) as Hg by reflexivity.
  assert (Z.abs n < 9007199254740992 ->
          convertTimestamp host v = convertNumeric (of_Z n : F64.t)) as Hc.
  { intros Hz. rewrite <- Hn. apply convertTimestamp_numeric; auto.
    rewrite Hn. apply F64_finite_not_nan, F64_of_Z_finite, Hb, Hz. }
  unfold convertNumeric in Hc.
  repeat split; intros Hr; rewrite Hc by lia.
  - rewrite F64_ltb_of_Z by (apply Hb; lia).
    destruct (Z.ltb_spec n 1000000000); [| lia].
    rewrite F64_mul_of_Z by (change (2 ^ 53) with 9007199254740992; lia).
    rewrite F64_add_of_Z by (apply Hb; lia).
    rewrite Date_of_number_of_Z by (apply Hb; lia).
    destruct (Z.leb_spec (Z.abs (gpsEpoch + n * 1000)) 8640000000000000);
      [reflexivity | lia].
  - rewrite !F64_ltb_of_Z by (apply Hb; lia).
    destruct (Z.ltb_spec n 1000000000); [lia |].
    destruct (Z.ltb_spec n 10000000000); [| lia].
    rewrite F64_mul_of_Z by (change (2 ^ 53) with 9007199254740992; lia).
    rewrite Date_of_number_of_Z by (apply Hb; lia).
    destruct (Z.leb_spec (Z.abs (n * 1000)) 8640000000000000);
      [reflexivity | lia].
  - rewrite !F64_ltb_of_Z by (apply Hb; lia).
    destruct (Z.ltb_spec n 1000000000); [lia |].
    destruct (Z.ltb_spec n 10000000000); [lia |].
    rewrite Date_of_number_of_Z by (apply Hb; lia).
    destruct (Z.leb_spec (Z.abs n) 8640000000000000); [reflexivity | lia].
  - rewrite !F64_ltb_of_Z by (apply Hb; lia).
    destruct (Z.ltb_spec n 1000000000); [lia |].
    destruct (Z.ltb_spec n 10000000000); [lia |].
    rewrite Date_of_number_of_Z by (apply Hb; lia).
    destruct (Z.leb_spec (Z.abs n) 8640000000000000); [lia | reflexivity].
Qed.

Lemma convertTimestamp_integer_witness :
  convertTimestamp SampleHost.host (JStr "1700000000" : jsval F64.t)
  = Some 1700000000000
  /\ convertTimestamp SampleHost.host (JStr "-86400" : jsval F64.t)
     = Some 315878400000.
Proof.
  split.
  - apply (proj1 (proj2 (convertTimestamp_integer SampleHost.host
                           (JStr "1700000000") 1700000000 eq_refl
                           ltac:(intros s E; injection E as <-;
                                 reflexivity)
                           ltac:(vm_compute; reflexivity)))).
    lia.
  - apply (proj1 (convertTimestamp_integer SampleHost.host
                    (JStr "-86400") (-86400) eq_refl
                    ltac:(intros s E; injection E as <-; reflexivity)
                    ltac:(vm_compute; reflexivity))).
    lia.
Defined.

(** ** Rebasing integers *)

(** X27. In binary64, rebasing integers below [2^52] in magnitude is
    exact: each of the three rebasing steps returns the Numbers of the
    differences to the first integer, without rounding. *)
Theorem makeRelativeToZero_integers_exact :
  forall (z0 : Z) (zs : list Z),
    Forall (fun z => Z.abs z < 2 ^ 52) (z0 :: zs) ->
    let ys : list F64.t := map of_Z (z0 :: zs) in
    let rebased : list F64.t := map (fun z => of_Z (z - z0)) (z0 :: zs) in
    inlineRelativeToZero ys = rebased
    /\ inlineRelativeToFirst ys = rebased
    /\ makeRelativeToZero (map JNum ys) = map JNum rebased.
Proof.
  intros z0 zs Hz ys rebased.
  assert (forall z, Z.abs z < 2 ^ 52 -> Z.abs z < 2 ^ 53) as Hb.
  { intros z. change (2 ^ 52) with 4503599627370496.
    change (2 ^ 53) with 9007199254740992. lia. }
  assert (forall z, Z.abs z < 2 ^ 52 -> isNaN (of_Z z : F64.t) = false)
    as Hnan.
  { intros z Hlt. apply F64_finite_not_nan, F64_of_Z_finite, Hb, Hlt. }
  pose proof (Forall_inv Hz) as H0. cbv beta in H0.
  assert (map (fun val : F64.t => (val - of_Z z0)%js) (map of_Z (z0 :: zs))
          = map (fun z => of_Z (z - z0)) (z0 :: zs)) as Hsub.
  { rewrite map_map. apply map_ext_Forall.
    eapply Forall_impl; [exact Hz |]. cbn beta. intros z Hlt.
    apply F64_sub_of_Z; [now apply Hb | now apply Hb |].
    revert Hlt H0. change (2 ^ 52) with 4503599627370496.
    change (2 ^ 53) with 9007199254740992. lia. }
  assert (Forall (fun v : F64.t => isNaN v = false) ys) as Hvalid.
  { subst ys. apply Forall_forall. intros v Hv.
    apply list_elem_of_fmap in Hv as (z & -> & Hin).
    rewrite Forall_forall in Hz. now apply Hnan, Hz. }
  destruct (rebase_valid (of_Z z0) ys Hvalid) as [E1 E2].
  subst ys rebased.
  unfold inlineRelativeToZero, inlineRelativeToFirst, makeRelativeToZero.
  cbn [map firstValid Number] in *. cbn zeta in *.
  rewrite (Hnan z0 H0) in *.
  cbn [map] in Hsub.
  repeat split.
  - rewrite E1. exact Hsub.
  - rewrite E1. exact Hsub.
  - rewrite E2. exact (f_equal (map JNum) Hsub).
Qed.

Lemma makeRelativeToZero_integers_exact_witness :
  inlineRelativeToZero [of_Z 1000001; of_Z 1000004; of_Z 999999 : F64.t]
  = [of_Z 0; of_Z 3; of_Z (-2)].
Proof.
  apply (proj1 (makeRelativeToZero_integers_exact 1000001
                  [1000004; 999999]
                  ltac:(repeat constructor; cbn; lia))).
Defined.
